(** * xmipy: the XMI wrapper around a native simulation kernel

    A shallow embedding of [xmipy/xmiwrapper.py] (class [XmiWrapper]):
    the lifecycle state machine, the invoker [_execute_function], the
    type/shape catalog queries and the value marshaling layer
    ([get_value], [get_value_ptr], [set_value]).

    The wrapper is stateful and fallible, so its methods are computations
    in a state-and-exception monad over a [World] that holds the wrapper's
    attributes, the memory shared by host arrays and kernel storage, and
    the native library.  Text is kept as lists of code points, raw memory
    as lists of cells. *)

From Stdlib Require Import ZArith List String Ascii Bool Lia.
From stdpp Require Import base list.
Import ListNotations.
Open Scope Z_scope.

(** ** Text and bytes *)

(** A Python [str] is the list of its code points and a [bytes] object the
    list of its byte values; both are written [list Z].  Kernels driven
    through this layer exchange ASCII text, and the codecs below cover that
    fragment: a byte outside 0..127 is a decoding error. *)

Fixpoint lit (s : string) : list Z :=
  match s with
  | EmptyString => []
  | String c r => Z.of_N (N_of_ascii c) :: lit r
  end.

Arguments lit : simpl never.

Definition is_ascii (c : Z) : bool := (0 <=? c) && (c <? 128).

(** [str.lower] on the ASCII fragment. *)
Definition lower_cp (c : Z) : Z :=
  if (65 <=? c) && (c <=? 90) then c + 32 else c.

Definition lower (s : list Z) : list Z := map lower_cp s.

(** [str.startswith]. *)
Fixpoint startswith (s p : list Z) : bool :=
  match p, s with
  | [], _ => true
  | _ :: _, [] => false
  | b :: p', a :: s' => (a =? b) && startswith s' p'
  end.

(** The characters [str.strip] removes: TAB, LF, VT, FF, CR, the four
    separators FS, GS, RS, US, and the space. *)
Definition is_space (c : Z) : bool :=
  ((9 <=? c) && (c <=? 13)) || ((28 <=? c) && (c <=? 31)) || (c =? 32).

Fixpoint drop_while (p : Z -> bool) (l : list Z) : list Z :=
  match l with
  | [] => []
  | x :: r => if p x then drop_while p r else l
  end.

Fixpoint take_while (p : Z -> bool) (l : list Z) : list Z :=
  match l with
  | [] => []
  | x :: r => if p x then x :: take_while p r else []
  end.

Definition drop_while_end (p : Z -> bool) (l : list Z) : list Z :=
  rev (drop_while p (rev l)).

(** [str.strip()] *)
Definition strip (s : list Z) : list Z :=
  drop_while_end is_space (drop_while is_space s).

Definition is_nul (c : Z) : bool := c =? 0.

(** [b.split(b"\0", 1)[0]], and also the [value] of a ctypes character
    buffer: the bytes before the first null byte, or all of them. *)
Definition upto_nul (b : list Z) : list Z :=
  take_while (fun c => negb (is_nul c)) b.

(** Reading an element of a numpy [S] array: trailing null bytes are not
    part of the value. *)
Definition rstrip_nul (b : list Z) : list Z := drop_while_end is_nul b.

(** The slice [l[i:j]] for [0 <= i]. *)
Definition slice (l : list Z) (i j : Z) : list Z :=
  firstn (Z.to_nat (j - i)) (skipn (Z.to_nat i) l).

(** A write through a raw pointer: [new] replaces the front of the block
    [old]; the block keeps its length. *)
Definition overwrite (new old : list Z) : list Z :=
  firstn (length old) new ++ skipn (length new) old.

(** The value of a [c_int]: a signed 32-bit integer. *)
Definition wrap32 (z : Z) : Z := (z + 2 ^ 31) mod 2 ^ 32 - 2 ^ 31.

(** ** Exceptions and results *)

Inductive exn : Type :=
| InputError (msg : list Z)
| XMIError (msg : list Z)
| ValueError
| AttributeError
| TypeError
| IndexError
| UnicodeDecodeError.

Inductive res (A : Type) : Type :=
| Ok (a : A)
| Raise (e : exn).
Arguments Ok {A} a.
Arguments Raise {A} e.

(** [b.decode("ascii")] *)
Definition decode_ascii (b : list Z) : res (list Z) :=
  if forallb is_ascii b then Ok b else Raise UnicodeDecodeError.

(** [b.decode()], on the ASCII fragment. *)
Definition decode (b : list Z) : res (list Z) := decode_ascii b.

(** ** The native library *)

(** [State]: the lifecycle states of the wrapper. *)
Inductive State : Type := UNINITIALIZED | INITIALIZED.

(** The exported functions this layer resolves by name. *)
Inductive EntryPoint : Type :=
| ep_initialize | ep_initialize_mpi | ep_finalize
| ep_get_component_name | ep_get_version
| ep_get_input_item_count | ep_get_output_item_count
| ep_get_input_var_names | ep_get_output_var_names
| ep_get_var_type | ep_get_var_shape | ep_get_var_rank | ep_get_var_nbytes
| ep_get_value | ep_get_value_ptr | ep_set_value
| ep_get_last_bmi_error.

(** [function.__name__] *)
Definition ep_name (ep : EntryPoint) : list Z :=
  match ep with
  | ep_initialize => lit "initialize"
  | ep_initialize_mpi => lit "initialize_mpi"
  | ep_finalize => lit "finalize"
  | ep_get_component_name => lit "get_component_name"
  | ep_get_version => lit "get_version"
  | ep_get_input_item_count => lit "get_input_item_count"
  | ep_get_output_item_count => lit "get_output_item_count"
  | ep_get_input_var_names => lit "get_input_var_names"
  | ep_get_output_var_names => lit "get_output_var_names"
  | ep_get_var_type => lit "get_var_type"
  | ep_get_var_shape => lit "get_var_shape"
  | ep_get_var_rank => lit "get_var_rank"
  | ep_get_var_nbytes => lit "get_var_nbytes"
  | ep_get_value => lit "get_value"
  | ep_get_value_ptr => lit "get_value_ptr"
  | ep_set_value => lit "set_value"
  | ep_get_last_bmi_error => lit "get_last_bmi_error"
  end.

(** The entry points that move variable values between host and kernel. *)
Definition transfers_values (ep : EntryPoint) : bool :=
  match ep with
  | ep_get_value | ep_get_value_ptr | ep_set_value => true
  | _ => false
  end.

(** The exported integer data symbols (buffer lengths). *)
Inductive Const : Type :=
| BMI_LENCOMPONENTNAME | BMI_LENVERSION | BMI_LENVARADDRESS
| BMI_LENVARTYPE | BMI_LENERRMESSAGE.

(** The arguments of a foreign call, as ctypes marshals them.  Arguments
    passed by reference are updated by the call; the call returns them. *)
Inductive CArg : Type :=
| ABytes (b : list Z)        (* bytes, c_char_p(...) *)
| AInt (z : Z)               (* byref(c_int(...)) *)
| ABuf (b : list Z)          (* byref(create_string_buffer(...)) *)
| APtr (a : nat)             (* a pointer to the data of an array *)
| ANdptr (p : option nat).   (* byref(ndpointer instance) *)

(** A variable of the kernel: its raw type field, its shape, its size in
    bytes and the address of its storage. *)
Record KVar : Type := {
  kv_type : list Z;
  kv_shape : list Z;
  kv_nbytes : Z;
  kv_addr : nat
}.

(** The native side of the calling convention: which symbols the library
    exports, the status each call returns ([k_script n ep] is forced on the
    call number [n] when it is not zero), the variables and the texts it
    reports.  The kernel is an external component; this record describes a
    kernel that follows the convention and may fail at any call. *)
Record Kernel : Type := {
  k_exports : EntryPoint -> bool;
  k_constants : Const -> option Z;
  k_script : nat -> EntryPoint -> Z;
  k_vars : list Z -> option KVar;
  k_component_name : list Z;
  k_version : list Z;
  k_last_error : list Z;
  k_input_names : list (list Z);
  k_output_names : list (list Z)
}.

Definition arg_bytes (a : option CArg) : list Z :=
  match a with Some (ABytes b) => b | _ => [] end.
Definition arg_int (a : option CArg) : Z :=
  match a with Some (AInt z) => z | _ => 0 end.
Definition arg_buf (a : option CArg) : list Z :=
  match a with Some (ABuf b) => b | _ => [] end.
Definition arg_ndptr (a : option CArg) : option nat :=
  match a with Some (ANdptr p) => p | _ => None end.

(** A query on a variable: the name is a C string. *)
Definition native_var (k : Kernel) (args : list CArg) (h : list (list Z))
    (f : KVar -> Z * list CArg * list (list Z)) : Z * list CArg * list (list Z) :=
  match args with
  | ABytes name :: _ =>
      match k_vars k (upto_nul name) with
      | Some v => f v
      | None => (1, args, h)
      end
  | _ => (1, args, h)
  end.

(** What the entry point [ep] does when it is called. *)
Definition native_body (k : Kernel) (ep : EntryPoint) (args : list CArg)
    (h : list (list Z)) : Z * list CArg * list (list Z) :=
  match ep with
  | ep_initialize | ep_initialize_mpi | ep_finalize => (0, args, h)
  | ep_get_component_name =>
      (0, [ABuf (overwrite (k_component_name k) (arg_buf (args !! 0%nat)))], h)
  | ep_get_version =>
      (0, [ABuf (overwrite (k_version k) (arg_buf (args !! 0%nat)))], h)
  | ep_get_last_bmi_error =>
      (0, [ABuf (overwrite (k_last_error k) (arg_buf (args !! 0%nat)))], h)
  | ep_get_input_item_count =>
      (0, [AInt (wrap32 (Z.of_nat (length (k_input_names k))))], h)
  | ep_get_output_item_count =>
      (0, [AInt (wrap32 (Z.of_nat (length (k_output_names k))))], h)
  | ep_get_input_var_names =>
      (0, [ABuf (overwrite (concat (k_input_names k)) (arg_buf (args !! 0%nat)))], h)
  | ep_get_output_var_names =>
      (0, [ABuf (overwrite (concat (k_output_names k)) (arg_buf (args !! 0%nat)))], h)
  | ep_get_var_type =>
      native_var k args h (fun v =>
        (0, [ABytes (arg_bytes (args !! 0%nat));
             ABuf (overwrite (kv_type v) (arg_buf (args !! 1%nat)))], h))
  | ep_get_var_rank =>
      native_var k args h (fun v =>
        (0, [ABytes (arg_bytes (args !! 0%nat));
             AInt (wrap32 (Z.of_nat (length (kv_shape v))))], h))
  | ep_get_var_nbytes =>
      native_var k args h (fun v =>
        (0, [ABytes (arg_bytes (args !! 0%nat)); AInt (wrap32 (kv_nbytes v))], h))
  | ep_get_var_shape =>
      native_var k args h (fun v =>
        match args !! 1%nat with
        | Some (APtr a) =>
            match h !! a with
            | Some old => (0, args, <[a := overwrite (kv_shape v) old]> h)
            | None => (1, args, h)
            end
        | _ => (1, args, h)
        end)
  | ep_get_value =>
      native_var k args h (fun v =>
        match args !! 1%nat with
        | Some (APtr a) =>
            match h !! kv_addr v, h !! a with
            | Some src, Some old => (0, args, <[a := overwrite src old]> h)
            | _, _ => (1, args, h)
            end
        | _ => (1, args, h)
        end)
  | ep_set_value =>
      native_var k args h (fun v =>
        match args !! 1%nat with
        | Some (APtr a) =>
            match h !! a, h !! kv_addr v with
            | Some src, Some old => (0, args, <[kv_addr v := overwrite src old]> h)
            | _, _ => (1, args, h)
            end
        | _ => (1, args, h)
        end)
  | ep_get_value_ptr =>
      native_var k args h (fun v =>
        (0, [ABytes (arg_bytes (args !! 0%nat)); ANdptr (Some (kv_addr v))], h))
  end.

(** The call number [n] of the session: a scripted failure returns its
    status and touches nothing. *)
Definition native (k : Kernel) (n : nat) (ep : EntryPoint) (args : list CArg)
    (h : list (list Z)) : Z * list CArg * list (list Z) :=
  if k_script k n ep =? 0 then native_body k ep args h
  else (k_script k n ep, args, h).

(** Writing through a data symbol: the library holds [z] under [name]
    from then on. *)
Definition Const_eqb (a b : Const) : bool :=
  match a, b with
  | BMI_LENCOMPONENTNAME, BMI_LENCOMPONENTNAME
  | BMI_LENVERSION, BMI_LENVERSION
  | BMI_LENVARADDRESS, BMI_LENVARADDRESS
  | BMI_LENVARTYPE, BMI_LENVARTYPE
  | BMI_LENERRMESSAGE, BMI_LENERRMESSAGE => true
  | _, _ => false
  end.

Definition store_constant (name : Const) (z : Z) (k : Kernel) : Kernel :=
  {| k_exports := k_exports k;
     k_constants := fun c => if Const_eqb c name then Some z else k_constants k c;
     k_script := k_script k;
     k_vars := k_vars k;
     k_component_name := k_component_name k;
     k_version := k_version k;
     k_last_error := k_last_error k;
     k_input_names := k_input_names k;
     k_output_names := k_output_names k |}.

(** ** Host arrays *)

Inductive dtype : Type :=
| float64 | float32 | int32
| bytes_ (w : nat)     (* "S<w>" *)
| str_ (w : nat).      (* "U<w>" *)

Definition dtype_eqb (a b : dtype) : bool :=
  match a, b with
  | float64, float64 | float32, float32 | int32, int32 => true
  | bytes_ v, bytes_ w | str_ v, str_ w => (v =? w)%nat
  | _, _ => false
  end.

(** Memory cells per array element. *)
Definition itemcells (dt : dtype) : nat :=
  match dt with
  | bytes_ w | str_ w => w
  | _ => 1%nat
  end.

(** An [ndarray] object: where its data lives, its element type, its shape
    and its [flags["C"]].  Two arrays with the same [data] alias each other. *)
Record ndarray : Type := {
  data : nat;
  nd_dtype : dtype;
  shape : list Z;
  flags_C : bool
}.

Definition size (sh : list Z) : nat := Z.to_nat (fold_right Z.mul 1 sh).

(** ** The world *)

Inductive LogRecord : Type :=
| log_debug (call : list Z) (status : Z)
| log_error (msg : list Z).

Inductive TimerEvent : Type :=
| timer_start (fn_name : list Z)
| timer_stop (fn_name : list Z).

Record World : Type := {
  _state : State;                      (* self._state *)
  heap : list (list Z);                (* memory: host arrays and kernel storage *)
  trace : list (EntryPoint * Z);       (* the foreign calls made, with their status *)
  log : list LogRecord;                (* self.logger *)
  ledger : list TimerEvent;            (* self.timer *)
  cwd : list Z;                        (* the process's current directory *)
  stderr : list exn;                   (* exceptions reported as unraisable *)
  timing : bool;                       (* self.timing *)
  debug : bool;                        (* self.logger.isEnabledFor(DEBUG) *)
  working_directory : list Z;          (* self.working_directory *)
  lib : Kernel;                        (* self.lib *)
  junk : nat -> nat -> Z               (* the contents of uninitialised memory *)
}.

Definition set_state (s : State) (w : World) : World :=
  {| _state := s; heap := heap w; trace := trace w; log := log w;
     ledger := ledger w; cwd := cwd w; stderr := stderr w; timing := timing w;
     debug := debug w; working_directory := working_directory w; lib := lib w;
     junk := junk w |}.

Definition set_heap (h : list (list Z)) (w : World) : World :=
  {| _state := _state w; heap := h; trace := trace w; log := log w;
     ledger := ledger w; cwd := cwd w; stderr := stderr w; timing := timing w;
     debug := debug w; working_directory := working_directory w; lib := lib w;
     junk := junk w |}.

Definition set_trace (t : list (EntryPoint * Z)) (w : World) : World :=
  {| _state := _state w; heap := heap w; trace := t; log := log w;
     ledger := ledger w; cwd := cwd w; stderr := stderr w; timing := timing w;
     debug := debug w; working_directory := working_directory w; lib := lib w;
     junk := junk w |}.

Definition set_log (l : list LogRecord) (w : World) : World :=
  {| _state := _state w; heap := heap w; trace := trace w; log := l;
     ledger := ledger w; cwd := cwd w; stderr := stderr w; timing := timing w;
     debug := debug w; working_directory := working_directory w; lib := lib w;
     junk := junk w |}.

Definition set_ledger (l : list TimerEvent) (w : World) : World :=
  {| _state := _state w; heap := heap w; trace := trace w; log := log w;
     ledger := l; cwd := cwd w; stderr := stderr w; timing := timing w;
     debug := debug w; working_directory := working_directory w; lib := lib w;
     junk := junk w |}.

Definition set_cwd (d : list Z) (w : World) : World :=
  {| _state := _state w; heap := heap w; trace := trace w; log := log w;
     ledger := ledger w; cwd := d; stderr := stderr w; timing := timing w;
     debug := debug w; working_directory := working_directory w; lib := lib w;
     junk := junk w |}.

Definition set_stderr (l : list exn) (w : World) : World :=
  {| _state := _state w; heap := heap w; trace := trace w; log := log w;
     ledger := ledger w; cwd := cwd w; stderr := l; timing := timing w;
     debug := debug w; working_directory := working_directory w; lib := lib w;
     junk := junk w |}.

Definition set_lib (k : Kernel) (w : World) : World :=
  {| _state := _state w; heap := heap w; trace := trace w; log := log w;
     ledger := ledger w; cwd := cwd w; stderr := stderr w; timing := timing w;
     debug := debug w; working_directory := working_directory w; lib := k;
     junk := junk w |}.

(** ** The monad of wrapper methods *)

Definition M (A : Type) : Type := World -> res A * World.

Definition ret {A} (a : A) : M A := fun w => (Ok a, w).

Definition raise {A} (e : exn) : M A := fun w => (Raise e, w).

Definition bind {A B} (m : M A) (f : A -> M B) : M B :=
  fun w =>
    match m w with
    | (Ok a, w') => f a w'
    | (Raise e, w') => (Raise e, w')
    end.

Declare Scope py_scope.
Delimit Scope py_scope with py.
Notation "x <- m ;; k" := (bind m (fun x => k))
  (at level 100, m at next level, right associativity) : py_scope.
Notation "m ;;; k" := (bind m (fun _ => k))
  (at level 100, right associativity) : py_scope.
Open Scope py_scope.

(** [if c: m] *)
Definition when (c : bool) (m : M unit) : M unit := if c then m else ret tt.

(** [try: body / except AttributeError: handler] *)
Definition try_except_AttributeError {A} (body handler : M A) : M A :=
  fun w =>
    match body w with
    | (Raise AttributeError, w') => handler w'
    | r => r
    end.

(** [try: body / finally: cleanup] *)
Definition try_finally {A} (body : M A) (cleanup : M unit) : M A :=
  fun w =>
    match body w with
    | (r, w') =>
        match cleanup w' with
        | (Ok _, w'') => (r, w'')
        | (Raise e, w'') => (Raise e, w'')
        end
    end.

(** Lifting a pure, fallible step. *)
Definition lift {A} (r : res A) : M A := fun w => (r, w).

Definition gets {A} (f : World -> A) : M A := fun w => (Ok (f w), w).

Definition modify (f : World -> World) : M unit := fun w => (Ok tt, f w).

(** [for x in xs: body(x)], collecting the results. *)
Fixpoint for_each {A B} (xs : list A) (body : A -> M B) : M (list B) :=
  match xs with
  | [] => ret []
  | x :: r => y <- body x ;; ys <- for_each r body ;; ret (y :: ys)
  end.

(** ** numpy *)

Definition read_block (a : nat) : M (list Z) :=
  gets (fun w => default [] (heap w !! a)).

Definition write_block (a : nat) (cells : list Z) : M unit :=
  modify (fun w => set_heap (<[a := cells]> (heap w)) w).

(** A new block at the end of memory. *)
Definition allocate (cells : World -> nat -> list Z) : M nat :=
  fun w => (Ok (length (heap w)),
            set_heap (heap w ++ [cells w (length (heap w))]) w).

Definition negative_dim (sh : list Z) : bool := existsb (fun d => d <? 0) sh.

(** [np.empty(shape, dtype, order="C")]: the contents are whatever the
    memory held. *)
Definition np_empty (sh : list Z) (dt : dtype) : M ndarray :=
  if negative_dim sh then raise ValueError
  else
    a <- allocate (fun w a => map (junk w a) (seq 0 (size sh * itemcells dt))) ;;
    ret {| data := a; nd_dtype := dt; shape := sh; flags_C := true |}.

(** [np.zeros(n, dtype)] *)
Definition np_zeros (sh : list Z) (dt : dtype) : M ndarray :=
  if negative_dim sh then raise ValueError
  else
    a <- allocate (fun _ _ => repeat 0 (size sh * itemcells dt)) ;;
    ret {| data := a; nd_dtype := dt; shape := sh; flags_C := true |}.

(** [a.copy()] *)
Definition np_copy (a : ndarray) : M ndarray :=
  cells <- read_block (data a) ;;
  b <- allocate (fun _ _ => firstn (size (shape a) * itemcells (nd_dtype a)) cells) ;;
  ret {| data := b; nd_dtype := nd_dtype a; shape := shape a; flags_C := true |}.

(** The dtype ["<S" + str(n)]. *)
Definition dtype_S (n : Z) : res dtype :=
  if n <? 0 then Raise TypeError
  else if n =? 0 then Ok (bytes_ 1)
  else Ok (bytes_ (Z.to_nat n)).

(** A value stored in a field of [w] cells: cut or padded with nulls. *)
Definition fit (w : nat) (b : list Z) : list Z :=
  firstn w b ++ repeat 0 (w - length b).

(** The cells of element [i] of an array whose elements take [w] cells. *)
Definition element (w i : nat) (cells : list Z) : list Z :=
  firstn w (skipn (i * w) cells).

Definition set_element (w i : nat) (v cells : list Z) : list Z :=
  firstn (i * w) cells ++ fit w v ++ skipn (i * w + w) cells.

(** What the Python and numpy runtime contribute and this development
    leaves open: [repr] of a [str], the rendering of a ctypes argument, and
    the conversion of an element to another element type. *)
Record Runtime : Type := {
  repr_str : list Z -> list Z;
  repr_arg : CArg -> list Z;
  np_cast : dtype -> dtype -> Z -> list Z
}.

(** [np.trim_zeros(filt)], with its default [trim="fb"]: count the zeros
    at the front, count the zeros at the back, and slice. *)
Fixpoint leading_zeros (l : list Z) : nat :=
  match l with
  | x :: r => if x =? 0 then S (leading_zeros r) else 0%nat
  | [] => 0%nat
  end.

Definition trim_zeros (filt : list Z) : list Z :=
  let first := leading_zeros filt in
  let last := (length filt - leading_zeros (rev filt))%nat in
  firstn (last - first) (skipn first filt).

(** ** The wrapper *)

Section Wrapper.

Variable rt : Runtime.

(** Modelled from the spec: [repr_function_call] of [xmipy.utils], which
    renders a call as the entry point's name and a textual rendering of
    each argument. *)
Fixpoint join_args (l : list CArg) : list Z :=
  match l with
  | [] => []
  | [a] => repr_arg rt a
  | a :: r => repr_arg rt a ++ lit ", " ++ join_args r
  end.

Definition repr_function_call (name : list Z) (args : list CArg) : list Z :=
  name ++ lit "(" ++ join_args args ++ lit ")".

(** Modelled from the spec: the context manager [cd] of [xmipy.utils],
    which captures the current directory, switches to the given one, runs
    the body and restores the prior directory on every exit path. *)
Definition cd {A} (dir : list Z) (body : M A) : M A :=
  fun w =>
    match body (set_cwd dir w) with
    | (r, w') => (r, set_cwd (cwd w) w')
    end.

(** Modelled from the spec: the timer ledger of [xmipy.timers.timer],
    which brackets a start and a stop sample under the entry point's name. *)
Definition timer_start_fn (fn_name : list Z) : M unit :=
  modify (fun w => set_ledger (ledger w ++ [timer_start fn_name]) w).

Definition timer_stop_fn (fn_name : list Z) : M unit :=
  modify (fun w => set_ledger (ledger w ++ [timer_stop fn_name]) w).

Definition logger_debug (call : list Z) (status : Z) : M unit :=
  modify (fun w => set_log (log w ++ [log_debug call status]) w).

Definition logger_error (msg : list Z) : M unit :=
  modify (fun w => set_log (log w ++ [log_error msg]) w).

(** [self.lib.<name>]: resolving an exported function. *)
Definition lib_attr (ep : EntryPoint) : M EntryPoint :=
  fun w => if k_exports (lib w) ep then (Ok ep, w) else (Raise AttributeError, w).

(** [function( *args )]: the foreign call itself. *)
Definition foreign_call (function : EntryPoint) (args : list CArg)
    : M (Z * list CArg) :=
  fun w =>
    match native (lib w) (length (trace w)) function args (heap w) with
    | (status, outs, h) =>
        (Ok (status, outs), set_heap h (set_trace (trace w ++ [(function, status)]) w))
    end.

(** [create_string_buffer(n)] *)
Definition create_string_buffer (n : Z) : M (list Z) :=
  if n <? 0 then raise ValueError else ret (repeat 0 (Z.to_nat n)).

Definition get_constant_int (name : Const) : M Z :=
  fun w =>
    match k_constants (lib w) name with
    | Some z => (Ok (wrap32 z), w)
    | None => (Raise ValueError, w)
    end.

(** [c_int.in_dll(self.lib, name).value = value]: the symbol must exist,
    and a [c_int] keeps the low 32 bits of what is assigned to it. *)
Definition set_int (name : Const) (value : Z) : M unit :=
  fun w =>
    match k_constants (lib w) name with
    | Some _ => (Ok tt, set_lib (store_constant name (wrap32 value) (lib w)) w)
    | None => (Raise ValueError, w)
    end.

Definition _execute_function (function : EntryPoint) (args : list CArg)
    (detail : option (list Z)) : M (list CArg) :=
  t <- gets timing ;;
  when t (timer_start_fn (ep_name function)) ;;;
  try_finally
    (r <- foreign_call function args ;;
     let result := fst r in
     let args := snd r in
     d <- gets debug ;;
     when d (logger_debug (repr_function_call (ep_name function) args) result) ;;;
     if negb (result =? 0) then
       let msg := lit "BMI exception in " ++ repr_function_call (ep_name function) args in
       msg <- try_except_AttributeError
                (len_err_msg <- get_constant_int BMI_LENERRMESSAGE ;;
                 err_msg <- create_string_buffer len_err_msg ;;
                 get_last_bmi_error <- lib_attr ep_get_last_bmi_error ;;
                 r1 <- foreign_call get_last_bmi_error [ABuf err_msg] ;;
                 let err_msg := arg_buf (snd r1 !! 0%nat) in
                 len_name <- get_constant_int BMI_LENCOMPONENTNAME ;;
                 component_name <- create_string_buffer len_name ;;
                 get_component_name <- lib_attr ep_get_component_name ;;
                 r2 <- foreign_call get_component_name [ABuf component_name] ;;
                 let component_name := arg_buf (snd r2 !! 0%nat) in
                 let detail :=
                   match detail with
                   | Some d => lit ", details : '" ++ d ++ lit "'"
                   | None => []
                   end in
                 cn <- lift (decode (upto_nul component_name)) ;;
                 em <- lift (decode (upto_nul err_msg)) ;;
                 ret (msg ++ lit ": Message from " ++ cn ++ lit " "
                          ++ lit "'" ++ em ++ lit "'" ++ detail))
                (logger_error (lit "Couldn't extract error message") ;;; ret msg) ;;
       raise (XMIError msg)
     else ret args)
    (t <- gets timing ;; when t (timer_stop_fn (ep_name function))).

(** *** Lifecycle *)

Definition initialize (config_file : list Z) : M unit :=
  s <- gets _state ;;
  match s with
  | UNINITIALIZED =>
      dir <- gets working_directory ;;
      cd dir
        (f <- lib_attr ep_initialize ;;
         _execute_function f [ABytes config_file] None ;;;
         modify (set_state INITIALIZED))
  | INITIALIZED => raise (InputError (lit "The library is already initialized"))
  end.

Definition initialize_mpi (value : Z) : M unit :=
  s <- gets _state ;;
  match s with
  | UNINITIALIZED =>
      dir <- gets working_directory ;;
      cd dir
        (let comm := wrap32 value in
         f <- lib_attr ep_initialize_mpi ;;
         _execute_function f [AInt comm] None ;;;
         modify (set_state INITIALIZED))
  | INITIALIZED => raise (InputError (lit "The library is already initialized"))
  end.

Definition finalize : M unit :=
  s <- gets _state ;;
  match s with
  | INITIALIZED =>
      dir <- gets working_directory ;;
      cd dir
        (f <- lib_attr ep_finalize ;;
         _execute_function f [] None ;;;
         modify (set_state UNINITIALIZED))
  | UNINITIALIZED => raise (InputError (lit "The library is not initialized yet"))
  end.

Definition __del__ : M unit :=
  s <- gets _state ;;
  match s with
  | INITIALIZED => finalize
  | UNINITIALIZED => ret tt
  end.

(** The destruction of the wrapper object.  The interpreter calls
    [__del__]; an exception that leaves [__del__] is not propagated: the
    interpreter hands it to the unraisable hook, which reports it on the
    standard error stream, and carries on. *)
Definition teardown : M unit :=
  fun w =>
    match __del__ w with
    | (Ok _, w') => (Ok tt, w')
    | (Raise e, w') => (Ok tt, set_stderr (stderr w' ++ [e]) w')
    end.

(** *** Type and shape catalog *)

Definition get_component_name : M (list Z) :=
  len_name <- get_constant_int BMI_LENCOMPONENTNAME ;;
  component_name <- create_string_buffer len_name ;;
  f <- lib_attr ep_get_component_name ;;
  args <- _execute_function f [ABuf component_name] None ;;
  lift (decode_ascii (upto_nul (arg_buf (args !! 0%nat)))).

Definition get_version : M (list Z) :=
  len_version <- get_constant_int BMI_LENVERSION ;;
  version <- create_string_buffer len_version ;;
  f <- lib_attr ep_get_version ;;
  args <- _execute_function f [ABuf version] None ;;
  lift (decode_ascii (upto_nul (arg_buf (args !! 0%nat)))).

Definition get_input_item_count : M Z :=
  f <- lib_attr ep_get_input_item_count ;;
  args <- _execute_function f [AInt 0] None ;;
  ret (arg_int (args !! 0%nat)).

Definition get_output_item_count : M Z :=
  f <- lib_attr ep_get_output_item_count ;;
  args <- _execute_function f [AInt 0] None ;;
  ret (arg_int (args !! 0%nat)).

(** The generator that decodes the table of names: row [i] is cut at its
    first null byte and decoded. *)
Definition decode_names (names : list Z) (len_address nr_vars : Z) : M (list (list Z)) :=
  for_each (seq 0 (Z.to_nat nr_vars))
    (fun i =>
       lift (decode_ascii
               (upto_nul (slice names (Z.of_nat i * len_address)
                                      ((Z.of_nat i + 1) * len_address))))).

Definition get_input_var_names : M (list (list Z)) :=
  len_address <- get_constant_int BMI_LENVARADDRESS ;;
  nr_input_vars <- get_input_item_count ;;
  let len_names := nr_input_vars * len_address in
  names <- create_string_buffer len_names ;;
  f <- lib_attr ep_get_input_var_names ;;
  args <- _execute_function f [ABuf names] None ;;
  decode_names (arg_buf (args !! 0%nat)) len_address nr_input_vars.

Definition get_output_var_names : M (list (list Z)) :=
  len_address <- get_constant_int BMI_LENVARADDRESS ;;
  nr_output_vars <- get_output_item_count ;;
  let len_names := nr_output_vars * len_address in
  names <- create_string_buffer len_names ;;
  f <- lib_attr ep_get_output_var_names ;;
  args <- _execute_function f [ABuf names] None ;;
  decode_names (arg_buf (args !! 0%nat)) len_address nr_output_vars.

Definition get_var_type (name : list Z) : M (list Z) :=
  len_var_type <- get_constant_int BMI_LENVARTYPE ;;
  var_type <- create_string_buffer len_var_type ;;
  f <- lib_attr ep_get_var_type ;;
  args <- _execute_function f [ABytes name; ABuf var_type] None ;;
  lift (decode (upto_nul (arg_buf (args !! 1%nat)))).

Definition get_var_rank (name : list Z) : M Z :=
  f <- lib_attr ep_get_var_rank ;;
  args <- _execute_function f [ABytes name; AInt 0] None ;;
  ret (arg_int (args !! 1%nat)).

Definition get_var_shape (name : list Z) : M ndarray :=
  rank <- get_var_rank name ;;
  array <- np_zeros [rank] int32 ;;
  f <- lib_attr ep_get_var_shape ;;
  _execute_function f [ABytes name; APtr (data array)] None ;;;
  ret array.

Definition get_var_nbytes (name : list Z) : M Z :=
  f <- lib_attr ep_get_var_nbytes ;;
  args <- _execute_function f [ABytes name; AInt 0] None ;;
  ret (arg_int (args !! 1%nat)).

(** *** Value marshaling *)

(** The class [np.ctypeslib.ndpointer(dtype, ndim, shape, flags="C")]
    and, once the kernel has stored an address in an instance of it, its
    [contents]: an array of that type and shape over the memory at that
    address.  A null pointer has no contents, and numpy builds no array
    over a shape with a negative or empty dimension. *)
Definition contents (dt : dtype) (sh : list Z) (p : option nat) : M ndarray :=
  match p with
  | None => raise ValueError
  | Some a =>
      if existsb (fun d => d <=? 0) sh then raise ValueError
      else ret {| data := a; nd_dtype := dt; shape := sh; flags_C := true |}
  end.

Definition get_value_ptr_scalar (name : list Z) : M ndarray :=
  var_type <- get_var_type name ;;
  let var_type_lower := lower var_type in
  arraytype <-
    (if startswith var_type_lower (lit "double") then ret float64
     else if startswith var_type_lower (lit "float") then ret float32
     else if startswith var_type_lower (lit "int") then ret int32
     else raise (InputError (lit "Unsupported value type " ++ repr_str rt var_type))) ;;
  f <- lib_attr ep_get_value_ptr ;;
  args <- _execute_function f [ABytes name; ANdptr None]
            (Some (lit "for variable " ++ name)) ;;
  contents arraytype [1] (arg_ndptr (args !! 1%nat)).

Definition get_value_ptr (name : list Z) : M ndarray :=
  rank <- get_var_rank name ;;
  if rank =? 0 then get_value_ptr_scalar name
  else
    var_type <- get_var_type name ;;
    let var_type_lower := lower var_type in
    shape_array <- get_var_shape name ;;
    dims <- read_block (data shape_array) ;;
    let shape_tuple := trim_zeros dims in
    arraytype <-
      (if startswith var_type_lower (lit "double") then ret float64
       else if startswith var_type_lower (lit "float") then ret float32
       else if startswith var_type_lower (lit "int") then ret int32
       else raise (InputError (lit "Unsupported value type " ++ repr_str rt var_type))) ;;
    f <- lib_attr ep_get_value_ptr ;;
    args <- _execute_function f [ABytes name; ANdptr None]
              (Some (lit "for variable " ++ name)) ;;
    contents arraytype shape_tuple (arg_ndptr (args !! 1%nat)).

(** [dest[0] = value], for a [value] of element type [from]: the
    assignment fills the first row of [dest]. *)
Definition setitem0 (dest : ndarray) (from : dtype) (value : Z) : M unit :=
  match shape dest with
  | [] => raise IndexError
  | n :: rest =>
      if n <=? 0 then raise IndexError
      else
        cells <- read_block (data dest) ;;
        let item :=
          if dtype_eqb from (nd_dtype dest) then [value]
          else fit (itemcells (nd_dtype dest)) (np_cast rt from (nd_dtype dest) value) in
        write_block (data dest) (overwrite (concat (repeat item (size rest))) cells)
  end.

(** [src[0]] for a one-dimensional numeric array. *)
Definition getitem0 (src : ndarray) : M Z :=
  cells <- read_block (data src) ;;
  ret (nth 0 cells 0).

(** [dest[i] = dest[i].decode("ascii").strip()] for an element of an
    array of byte strings; only such an element has a [decode]. *)
Definition strip_element (dest : ndarray) (i : nat) : M unit :=
  match nd_dtype dest, shape dest with
  | bytes_ w, [_] =>
      cells <- read_block (data dest) ;;
      x <- lift (decode_ascii (rstrip_nul (element w i cells))) ;;
      write_block (data dest) (set_element w i (strip x) cells)
  | _, _ => raise AttributeError
  end.

(** [dest.astype(str)]: a new array of text. *)
Definition astype_str (dest : ndarray) : M ndarray :=
  cells <- read_block (data dest) ;;
  match nd_dtype dest with
  | bytes_ w =>
      items <- for_each (seq 0 (size (shape dest)))
                 (fun i => x <- lift (decode_ascii (rstrip_nul (element w i cells))) ;;
                           ret (fit w x)) ;;
      a <- allocate (fun _ _ => concat items) ;;
      ret {| data := a; nd_dtype := str_ w; shape := shape dest; flags_C := true |}
  | str_ w =>
      a <- allocate (fun _ _ => firstn (size (shape dest) * w) cells) ;;
      ret {| data := a; nd_dtype := str_ w; shape := shape dest; flags_C := true |}
  | dt =>
      let w := match dt with int32 => 11%nat | _ => 32%nat end in
      a <- allocate (fun _ _ =>
             concat (map (fun z => fit w (np_cast rt dt (str_ w) z))
                         (firstn (size (shape dest)) cells))) ;;
      ret {| data := a; nd_dtype := str_ w; shape := shape dest; flags_C := true |}
  end.

Definition get_value (name : list Z) (dest : option ndarray) : M ndarray :=
  (match dest with
   | Some d => if negb (flags_C d) then raise (InputError (lit "Array should have C layout"))
               else ret tt
   | None => ret tt
   end) ;;;
  rank <- get_var_rank name ;;
  var_type <- get_var_type name ;;
  let var_type_lower := lower var_type in
  if rank =? 0 then
    if startswith var_type_lower (lit "string") then
      ilen <- get_var_nbytes name ;;
      dest <- (match dest with
               | None => strtype <- lift (dtype_S (ilen + 1)) ;; np_empty [1] strtype
               | Some d => ret d
               end) ;;
      f <- lib_attr ep_get_value ;;
      _execute_function f [ABytes name; APtr (data dest)] None ;;;
      (match shape dest with
       | [] => raise IndexError
       | n :: rest => if n <=? 0 then raise IndexError
                      else if negb (length rest =? 0)%nat then raise AttributeError
                      else strip_element dest 0
       end) ;;;
      astype_str dest
    else
      src <- get_value_ptr_scalar name ;;
      match dest with
      | None => a <- get_value_ptr_scalar name ;; np_copy a
      | Some dest =>
          v <- getitem0 src ;;
          setitem0 dest (nd_dtype src) v ;;;
          ret dest
      end
  else
    shape_array <- get_var_shape name ;;
    var_shape <- read_block (data shape_array) ;;
    if startswith var_type_lower (lit "double") then
      dest <- (match dest with
               | None => np_empty var_shape float64
               | Some d => ret d
               end) ;;
      f <- lib_attr ep_get_value ;;
      _execute_function f [ABytes name; APtr (data dest)] None ;;;
      ret dest
    else if startswith var_type_lower (lit "int") then
      dest <- (match dest with
               | None => np_empty var_shape int32
               | Some d => ret d
               end) ;;
      f <- lib_attr ep_get_value ;;
      _execute_function f [ABytes name; APtr (data dest)] None ;;;
      ret dest
    else if startswith var_type_lower (lit "string") then
      let n0 := nth 0 var_shape 0 in
      match dest with
      | None =>
          if n0 =? 0 then np_empty [0] (str_ 1)
          else
            nbytes <- get_var_nbytes name ;;
            let ilen := nbytes / n0 in
            strtype <- lift (dtype_S (ilen + 1)) ;;
            dest <- np_empty [n0] strtype ;;
            f <- lib_attr ep_get_value ;;
            _execute_function f [ABytes name; APtr (data dest)] None ;;;
            for_each (seq 0 (Z.to_nat n0)) (strip_element dest) ;;;
            astype_str dest
      | Some dest =>
          f <- lib_attr ep_get_value ;;
          _execute_function f [ABytes name; APtr (data dest)] None ;;;
          (match shape dest with
           | [] => raise TypeError
           | n :: _ => for_each (seq 0 (Z.to_nat n)) (strip_element dest)
           end) ;;;
          astype_str dest
      end
    else raise (InputError (lit "Unsupported value type " ++ repr_str rt var_type)).

Definition set_value (name : list Z) (values : ndarray) : M unit :=
  (if negb (flags_C values) then raise (InputError (lit "Array should have C layout"))
   else ret tt) ;;;
  var_type <- get_var_type name ;;
  let var_type_lower := lower var_type in
  if startswith var_type_lower (lit "double") then
    (match nd_dtype values with
     | float64 => ret tt
     | _ => raise (InputError (lit "Array should have float64 elements"))
     end) ;;;
    f <- lib_attr ep_set_value ;;
    _execute_function f [ABytes name; APtr (data values)] None ;;;
    ret tt
  else if startswith var_type_lower (lit "int") then
    (match nd_dtype values with
     | int32 => ret tt
     | _ => raise (InputError (lit "Array should have int32 elements"))
     end) ;;;
    f <- lib_attr ep_set_value ;;
    _execute_function f [ABytes name; APtr (data values)] None ;;;
    ret tt
  else raise (InputError (lit "Unsupported value type")).

End Wrapper.

(** ** A small kernel to run the wrapper on *)

Module Demo.

Definition runtime : Runtime :=
  {| repr_str := fun s => lit "'" ++ s ++ lit "'";
     repr_arg := fun a =>
       match a with
       | ABytes b | ABuf b => b
       | AInt _ => lit "&c_int"
       | APtr _ => lit "&ptr"
       | ANdptr _ => lit "&ndpointer"
       end;
     np_cast := fun _ _ z => [z] |}.

Fixpoint same (a b : list Z) : bool :=
  match a, b with
  | [], [] => true
  | x :: a', y :: b' => (x =? y) && same a' b'
  | _, _ => false
  end.

Definition vars (name : list Z) : option KVar :=
  if same name (lit "HEAD") then
    Some {| kv_type := lit "DOUBLE (3,2)"; kv_shape := [2; 3]; kv_nbytes := 48; kv_addr := 0 |}
  else if same name (lit "MXITER") then
    Some {| kv_type := lit "INTEGER"; kv_shape := []; kv_nbytes := 4; kv_addr := 1 |}
  else if same name (lit "TITLE") then
    Some {| kv_type := lit "STRING LEN=4"; kv_shape := []; kv_nbytes := 4; kv_addr := 2 |}
  else if same name (lit "EDGE") then
    Some {| kv_type := lit "DOUBLE (5,0)"; kv_shape := [0; 5]; kv_nbytes := 0; kv_addr := 3 |}
  else if same name (lit "FLAG") then
    Some {| kv_type := lit "LOGICAL"; kv_shape := []; kv_nbytes := 4; kv_addr := 4 |}
  else if same name (lit "BOUND") then
    Some {| kv_type := lit "STRING LEN=4 (2)"; kv_shape := [2]; kv_nbytes := 8; kv_addr := 5 |}
  else if same name (lit "IBOUND") then
    Some {| kv_type := lit "INTEGER (4)"; kv_shape := [4; 0; 0]; kv_nbytes := 16; kv_addr := 6 |}
  else None.

Definition constants (c : Const) : option Z :=
  Some match c with
       | BMI_LENCOMPONENTNAME => 2
       | BMI_LENVERSION => 16
       | BMI_LENVARADDRESS => 8
       | BMI_LENVARTYPE => 51
       | BMI_LENERRMESSAGE => 32
       end.

Definition kernel : Kernel :=
  {| k_exports := fun _ => true;
     k_constants := constants;
     k_script := fun _ _ => 0;
     k_vars := vars;
     k_component_name := lit "GW";
     k_version := lit "6.4.1" ++ [0];
     k_last_error := lit "no such variable" ++ [0];
     k_input_names := [lit "ABC" ++ [0; 0; 0; 0; 0]; lit "HEAD" ++ [0] ++ lit "xyz"];
     k_output_names := [lit "HEAD" ++ [0; 0; 0; 0]] |}.

Definition memory : list (list Z) :=
  [ [11; 12; 13; 21; 22; 23];
    [25];
    lit "ABC " ++ [0];
    [];
    [1];
    lit "ABC " ++ [0] ++ lit "DE  " ++ [0];
    [1; 0; 1; 1];
    [31; 32; 33; 41; 42; 43] ].

Definition world : World :=
  {| _state := UNINITIALIZED; heap := memory; trace := []; log := [];
     ledger := []; cwd := lit "/home"; stderr := []; timing := true;
     debug := false; working_directory := lit "/sim"; lib := kernel;
     junk := fun _ _ => 7 |}.

(** The same kernel, whose entry point [ep] fails with status 1. *)
Definition failing (ep : EntryPoint) : Kernel :=
  {| k_exports := k_exports kernel;
     k_constants := k_constants kernel;
     k_script := fun _ e => if transfers_values e && transfers_values ep then 1
                            else match e, ep with
                                 | ep_initialize, ep_initialize
                                 | ep_finalize, ep_finalize
                                 | ep_initialize_mpi, ep_initialize_mpi => 1
                                 | _, _ => 0
                                 end;
     k_vars := k_vars kernel;
     k_component_name := k_component_name kernel;
     k_version := k_version kernel;
     k_last_error := k_last_error kernel;
     k_input_names := k_input_names kernel;
     k_output_names := k_output_names kernel |}.

(** A plain kernel without the diagnostic symbols: neither the length
    constants of the error text nor [get_last_bmi_error]. *)
Definition plain (k : Kernel) : Kernel :=
  {| k_exports := fun e => match e with
                           | ep_get_last_bmi_error => false
                           | _ => k_exports k e
                           end;
     k_constants := fun c => match c with
                             | BMI_LENERRMESSAGE => None
                             | _ => k_constants k c
                             end;
     k_script := k_script k;
     k_vars := k_vars k;
     k_component_name := k_component_name k;
     k_version := k_version k;
     k_last_error := k_last_error k;
     k_input_names := k_input_names k;
     k_output_names := k_output_names k |}.

Definition with_lib (k : Kernel) (w : World) : World :=
  {| _state := _state w; heap := heap w; trace := trace w; log := log w;
     ledger := ledger w; cwd := cwd w; stderr := stderr w; timing := timing w;
     debug := debug w; working_directory := working_directory w; lib := k;
     junk := junk w |}.

(** Host arrays: a contiguous one of each numeric type, and a view that
    is not contiguous. *)
Definition doubles : ndarray :=
  {| data := 7; nd_dtype := float64; shape := [2; 3]; flags_C := true |}.

Definition ints : ndarray :=
  {| data := 7; nd_dtype := int32; shape := [6]; flags_C := true |}.

Definition strided : ndarray :=
  {| data := 7; nd_dtype := float64; shape := [2]; flags_C := false |}.

(** The world once the kernel has been initialised. *)
Definition started : World := set_state INITIALIZED world.

End Demo.

(** ** Further variables and worlds *)

Module Cases.

(** The variables of [Demo], a single-precision array and an empty array
    of strings. *)
Definition vars (name : list Z) : option KVar :=
  if Demo.same name (lit "RATE") then
    Some {| kv_type := lit "FLOAT (3)"; kv_shape := [3]; kv_nbytes := 12; kv_addr := 8 |}
  else if Demo.same name (lit "WELLS") then
    Some {| kv_type := lit "STRING LEN=16 (0)"; kv_shape := [0]; kv_nbytes := 0;
            kv_addr := 9 |}
  else Demo.vars name.

Definition kernel : Kernel :=
  {| k_exports := k_exports Demo.kernel;
     k_constants := k_constants Demo.kernel;
     k_script := k_script Demo.kernel;
     k_vars := vars;
     k_component_name := k_component_name Demo.kernel;
     k_version := k_version Demo.kernel;
     k_last_error := lit "no such variable";
     k_input_names := k_input_names Demo.kernel;
     k_output_names := k_output_names Demo.kernel |}.

Definition memory : list (list Z) := Demo.memory ++ [[5; 6; 7]; []].

Definition world : World :=
  {| _state := UNINITIALIZED; heap := memory; trace := []; log := [];
     ledger := []; cwd := lit "/home"; stderr := []; timing := true;
     debug := false; working_directory := lit "/sim"; lib := kernel;
     junk := fun _ _ => 7 |}.

(** The same world with debug logging enabled. *)
Definition verbose : World :=
  {| _state := UNINITIALIZED; heap := memory; trace := []; log := [];
     ledger := []; cwd := lit "/home"; stderr := []; timing := true;
     debug := true; working_directory := lit "/sim"; lib := kernel;
     junk := fun _ _ => 7 |}.

(** The kernel [k] without the entry point [ep]. *)
Definition without (ep : EntryPoint) (k : Kernel) : Kernel :=
  {| k_exports := fun e => if Demo.same (ep_name e) (ep_name ep) then false
                           else k_exports k e;
     k_constants := k_constants k;
     k_script := k_script k;
     k_vars := k_vars k;
     k_component_name := k_component_name k;
     k_version := k_version k;
     k_last_error := k_last_error k;
     k_input_names := k_input_names k;
     k_output_names := k_output_names k |}.

(** The kernel [k], on which every call of the entry point [ep] returns
    the status [st]. *)
Definition refusing (ep : EntryPoint) (st : Z) (k : Kernel) : Kernel :=
  {| k_exports := k_exports k;
     k_constants := k_constants k;
     k_script := fun n e => if Demo.same (ep_name e) (ep_name ep) then st
                            else k_script k n e;
     k_vars := k_vars k;
     k_component_name := k_component_name k;
     k_version := k_version k;
     k_last_error := k_last_error k;
     k_input_names := k_input_names k;
     k_output_names := k_output_names k |}.

(** A host array over the block at address 7, for use as a destination. *)
Definition buffer : ndarray :=
  {| data := 7; nd_dtype := int32; shape := [3; 2]; flags_C := true |}.

End Cases.

(** ** Specification vocabulary *)

(** [runs m w r P]: from [w], the computation [m] ends with the result
    [r] in a world that satisfies [P]. *)
Definition runs {A} (m : M A) (w : World) (r : res A) (P : World -> Prop) : Prop :=
  exists w', m w = (r, w') /\ P w'.

(** A frame is a relation between the world before and the world after
    that every update of the memory contents, the trace, the log, the
    ledger, the current directory and the error stream respects; only a
    change of the lifecycle state or a shrinking memory can break it. *)
Class Frame (R : World -> World -> Prop) : Prop := {
  frame_refl : forall w, R w w;
  frame_trans : forall w1 w2 w3, R w1 w2 -> R w2 w3 -> R w1 w3;
  frame_heap : forall h w, (length (heap w) <= length h)%nat -> R w (set_heap h w);
  frame_trace : forall t w, R w (set_trace (trace w ++ t) w);
  frame_log : forall l w, R w (set_log l w);
  frame_ledger : forall l w, R w (set_ledger l w);
  frame_cwd : forall d w, R w (set_cwd d w);
  frame_stderr : forall l w, R w (set_stderr l w)
}.

(** The lifecycle state is kept. *)
Definition same_state (w w' : World) : Prop := _state w' = _state w.

(** The library and the configuration of the wrapper are kept. *)
Definition same_setup (w w' : World) : Prop :=
  lib w' = lib w /\ timing w' = timing w /\ debug w' = debug w /\
  working_directory w' = working_directory w.

(** Memory only grows: every block stays allocated. *)
Definition heap_grows (w w' : World) : Prop :=
  (length (heap w) <= length (heap w'))%nat.

(** The trace only grows: no foreign call is forgotten. *)
Definition trace_grows (w w' : World) : Prop :=
  exists t, trace w' = trace w ++ t.

(** [preserves R m]: whatever the outcome of [m], the worlds before and
    after are related by [R]. *)
Definition preserves {A} (R : World -> World -> Prop) (m : M A) : Prop :=
  forall w r w', m w = (r, w') -> R w w'.

(** The lemmas on what the methods of the wrapper leave alone. *)
Create HintDb frames.

(** [after w h t w']: the world [w'] is [w] with the memory [h] and the
    foreign calls [t] added to its trace; the log and the ledger may have
    grown, and nothing else has changed. *)
Definition after (w : World) (h : list (list Z)) (t : list (EntryPoint * Z))
    (w' : World) : Prop :=
  _state w' = _state w /\ heap w' = h /\ trace w' = trace w ++ t /\
  cwd w' = cwd w /\ stderr w' = stderr w /\ lib w' = lib w /\
  timing w' = timing w /\ debug w' = debug w /\
  working_directory w' = working_directory w /\ junk w' = junk w.

(** The next call of the entry point [ep] reaches the kernel and returns
    the status [st]. *)
Definition answers (w : World) (ep : EntryPoint) (args : list CArg) (st : Z) : Prop :=
  k_exports (lib w) ep = true /\
  fst (fst (native (lib w) (length (trace w)) ep args (heap w))) = st.

(** Text without null bytes, as the kernel stores it in a fixed-width
    field before the padding. *)
Definition is_text (s : list Z) : bool :=
  forallb (fun c => is_ascii c && negb (is_nul c)) s.

(** [serves k name v]: the kernel [k] follows the calling convention for
    the variable [name]: it exports its entry points, its calls succeed,
    [name] denotes the variable [v], the type string of [v] is text that
    fits the buffer for type strings, and the rank of [v] fits a [c_int]. *)
Record serves (k : Kernel) (name : list Z) (v : KVar) : Prop := {
  sv_exports : forall ep, k_exports k ep = true;
  sv_succeeds : forall n ep, k_script k n ep = 0;
  sv_lookup : k_vars k (upto_nul name) = Some v;
  sv_type_text : is_text (kv_type v) = true;
  sv_type_fits : exists len, k_constants k BMI_LENVARTYPE = Some len /\
                             Z.of_nat (length (kv_type v)) <= wrap32 len;
  sv_rank_fits : Z.of_nat (length (kv_shape v)) < 2 ^ 31
}.

(** The type strings no branch of the marshaling layer accepts. *)
Definition unsupported (var_type : list Z) : bool :=
  negb (startswith (lower var_type) (lit "double")) &&
  negb (startswith (lower var_type) (lit "float")) &&
  negb (startswith (lower var_type) (lit "int")) &&
  negb (startswith (lower var_type) (lit "string")).

(** No entry of the trace moves variable values. *)
Definition no_transfer (t : list (EntryPoint * Z)) : Prop :=
  Forall (fun c => transfers_values (fst c) = false) t.

(** The element type of an aliased view, by the prefix of the type string. *)
Definition numeric_dtype (var_type : list Z) : option dtype :=
  if startswith (lower var_type) (lit "double") then Some float64
  else if startswith (lower var_type) (lit "float") then Some float32
  else if startswith (lower var_type) (lit "int") then Some int32
  else None.

(** In the words of the spec: the shape with only its trailing zero
    dimensions removed. *)
Definition trim_trailing_zeros (sh : list Z) : list Z :=
  drop_while_end is_nul sh.

(** [lists_names k len]: the kernel [k] follows the calling convention for
    its tables of names: its calls succeed, the rows of both tables have
    the width [len] that it exports as the address length, and the name in
    each row, up to the first null byte, is ASCII. *)
Record lists_names (k : Kernel) (len : Z) : Prop := {
  ln_exports : forall ep, k_exports k ep = true;
  ln_succeeds : forall n ep, k_script k n ep = 0;
  ln_width : k_constants k BMI_LENVARADDRESS = Some len;
  ln_width_fits : 0 < len < 2 ^ 31;
  ln_inputs : Forall (fun row => Z.of_nat (length row) = len /\
                                 forallb is_ascii (upto_nul row) = true)
                     (k_input_names k);
  ln_outputs : Forall (fun row => Z.of_nat (length row) = len /\
                                  forallb is_ascii (upto_nul row) = true)
                      (k_output_names k);
  ln_inputs_fit : Z.of_nat (length (k_input_names k)) < 2 ^ 31;
  ln_outputs_fit : Z.of_nat (length (k_output_names k)) < 2 ^ 31
}.

(** Text with no white space at either end. *)
Definition trimmed (s : list Z) : Prop :=
  is_text s = true /\ drop_while is_space s = s /\
  drop_while is_space (rev s) = rev s.

(** Element [i] of an array of strings, as Python reads it. *)
Definition item (w i : nat) (cells : list Z) : list Z :=
  rstrip_nul (element w i cells).

(** What the marshaler stores back for a field of [w] cells that it has
    decoded: the text without its padding, cut or padded to the width. *)
Definition clean_field (w : nat) (field : list Z) : list Z :=
  fit w (strip (rstrip_nul field)).

(** A native field: a text, then padding with spaces, then null bytes. *)
Definition padded (s : list Z) (spaces nuls : nat) : list Z :=
  s ++ repeat 32 spaces ++ repeat 0 nuls.

(** The text [hay] contains the text [needle]. *)
Definition contains (hay needle : list Z) : Prop :=
  exists pre post, hay = pre ++ needle ++ post.

(** The element type that [set_value] demands, by the prefix of the type
    string. *)
Definition declared_dtype (var_type : list Z) : option dtype :=
  if startswith (lower var_type) (lit "double") then Some float64
  else if startswith (lower var_type) (lit "int") then Some int32
  else None.

(** The shape under which the wrapper presents a variable: a scalar is a
    one-element array. *)
Definition presented_shape (sh : list Z) : list Z :=
  match sh with
  | [] => [1]
  | _ => sh
  end.

(** [yields d m]: an array that [m] returns is the destination [d] that
    the caller supplied, if any, or lives in memory that was not allocated
    when [m] started. *)
Definition yields (d : option nat) (m : M ndarray) : Prop :=
  forall w r w', m w = (Ok r, w') ->
    Some (data r) = d \/ (length (heap w) <= data r)%nat.

(** [passes a m]: when [m] returns, it returns [a]. *)
Definition passes {A} (a : A) (m : M A) : Prop :=
  forall w r w', m w = (Ok r, w') -> r = a.

(** [points_to k a m]: on the kernel [k], an array that [m] returns has
    its data at the address [a]. *)
Definition points_to (k : Kernel) (a : nat) (m : M ndarray) : Prop :=
  forall w r w', lib w = k -> m w = (Ok r, w') -> data r = a.

(** [ensures m Q]: every outcome of [m] satisfies [Q]. *)
Definition ensures {A} (m : M A) (Q : res A -> Prop) : Prop :=
  forall w r w', m w = (r, w') -> Q r.

(** An outcome that is not the error of the invoker. *)
Definition not_XMIError {A} (r : res A) : Prop :=
  match r with
  | Raise (XMIError _) => False
  | _ => True
  end.

(** The foreign calls added to the trace are queries: none of them moves
    the values of a variable. *)
Definition only_queries (w w' : World) : Prop :=
  exists t, trace w' = trace w ++ t /\ no_transfer t.

(** [ignores_state m]: the computation [m] neither reads nor writes the
    lifecycle state; it runs in the same way whatever that state is. *)
Definition ignores_state {A} (m : M A) : Prop :=
  forall s w, m (set_state s w) = (fst (m w), set_state s (snd (m w))).

(** [only_calls w w']: the world [w'] is [w] after foreign calls that are
    queries; nothing but the trace has changed. *)
Definition only_calls (w w' : World) : Prop :=
  exists t, w' = set_trace (trace w ++ t) w /\ no_transfer t.

(** * Properties *)

(** ** Running a computation step by step *)

Lemma bind_inv {A B} (m : M A) (f : A -> M B) w r w' :
  bind m f w = (r, w') ->
  (exists a w1, m w = (Ok a, w1) /\ f a w1 = (r, w')) \/
  (exists e, m w = (Raise e, w') /\ r = Raise e).
Proof.
  unfold bind. destruct (m w) as [[a|e] w1]; intros H.
  - left. eauto.
  - right. inversion H; subst. eauto.
Qed.

Lemma runs_weaken {A} (m : M A) w r (P Q : World -> Prop) :
  runs m w r P -> (forall w', P w' -> Q w') -> runs m w r Q.
Proof. intros (w' & E & H) HPQ. exists w'. auto. Qed.

Lemma runs_bind {A B} (m : M A) (f : A -> M B) w a r (P Q : World -> Prop) :
  runs m w (Ok a) P ->
  (forall w1, P w1 -> runs (f a) w1 r Q) ->
  runs (bind m f) w r Q.
Proof.
  intros (w1 & E & H) Hf. destruct (Hf w1 H) as (w2 & E2 & H2).
  exists w2. unfold bind. rewrite E. auto.
Qed.

Lemma runs_bind_raise {A B} (m : M A) (f : A -> M B) w e (P : World -> Prop) :
  runs m w (Raise e) P -> runs (bind m f) w (Raise e) P.
Proof.
  intros (w1 & E & H). exists w1. unfold bind. rewrite E. auto.
Qed.

Lemma runs_bind_assoc {A B C} (m : M A) (f : A -> M B) (g : B -> M C) w r Q :
  runs (bind (bind m f) g) w r Q -> runs (bind m (fun x => bind (f x) g)) w r Q.
Proof.
  unfold runs, bind. destruct (m w) as [[a|e] w1]; auto.
Qed.

Lemma runs_ret {A} (a : A) w (P : World -> Prop) : P w -> runs (ret a) w (Ok a) P.
Proof. intros H. exists w. auto. Qed.

Lemma runs_raise {A} e w (P : World -> Prop) : P w -> runs (@raise A e) w (Raise e) P.
Proof. intros H. exists w. auto. Qed.

Lemma runs_lift {A} (r : res A) w (P : World -> Prop) : P w -> runs (lift r) w r P.
Proof. intros H. exists w. auto. Qed.

Lemma runs_lift_ok {A} (x : res A) (a : A) w (P : World -> Prop) :
  x = Ok a -> P w -> runs (lift x) w (Ok a) P.
Proof. intros -> H. exists w. auto. Qed.

Lemma runs_gets {A} (f : World -> A) w (P : World -> Prop) :
  P w -> runs (gets f) w (Ok (f w)) P.
Proof. intros H. exists w. auto. Qed.

Lemma runs_modify (f : World -> World) w (P : World -> Prop) :
  P (f w) -> runs (modify f) w (Ok tt) P.
Proof. intros H. exists (f w). auto. Qed.

Lemma runs_det {A} (m : M A) w r r' (P Q : World -> Prop) :
  runs m w r P -> runs m w r' Q -> r = r'.
Proof. intros (w1 & E1 & _) (w2 & E2 & _). congruence. Qed.

(** ** Frames: what a computation leaves alone *)

#[export] Instance same_state_frame : Frame same_state.
Proof. split; unfold same_state; intros; simpl; congruence. Qed.

#[export] Instance same_setup_frame : Frame same_setup.
Proof.
  split; unfold same_setup; intros; simpl; try tauto.
  intuition congruence.
Qed.

#[export] Instance heap_grows_frame : Frame heap_grows.
Proof. split; unfold heap_grows; intros; simpl; lia. Qed.

#[export] Instance trace_grows_frame : Frame trace_grows.
Proof.
  split; unfold trace_grows; intros; simpl;
    try (exists []; symmetry; apply app_nil_r).
  - destruct H as [t1 H1], H0 as [t2 H2]. exists (t1 ++ t2).
    rewrite H2, H1. symmetry. apply app_assoc.
  - exists t. reflexivity.
Qed.

Section Preservation.

Context (R : World -> World -> Prop) `{!Frame R}.

Lemma preserves_ret {A} (a : A) : preserves R (ret a).
Proof. intros w r w' H. inversion H. apply frame_refl. Qed.

Lemma preserves_raise {A} e : preserves R (@raise A e).
Proof. intros w r w' H. inversion H. apply frame_refl. Qed.

Lemma preserves_lift {A} (x : res A) : preserves R (lift x).
Proof. intros w r w' H. inversion H. apply frame_refl. Qed.

Lemma preserves_gets {A} (f : World -> A) : preserves R (gets f).
Proof. intros w r w' H. inversion H. apply frame_refl. Qed.

Lemma preserves_bind {A B} (m : M A) (f : A -> M B) :
  preserves R m -> (forall a, preserves R (f a)) -> preserves R (bind m f).
Proof.
  intros Hm Hf w r w' H. apply bind_inv in H as [(a & w1 & E1 & E2)|(e & E1 & _)].
  - eapply frame_trans; [eapply Hm | eapply Hf]; eauto.
  - eapply Hm; eauto.
Qed.

Lemma preserves_when (c : bool) (m : M unit) : preserves R m -> preserves R (when c m).
Proof. destruct c; simpl; auto using preserves_ret. Qed.

Lemma preserves_try_except {A} (body handler : M A) :
  preserves R body -> preserves R handler ->
  preserves R (try_except_AttributeError body handler).
Proof.
  intros Hb Hh w r w' H. unfold try_except_AttributeError in H.
  destruct (body w) as [[a|e] w1] eqn:E.
  - inversion H; subst. eapply Hb; eauto.
  - destruct e; try solve [inversion H; subst; eapply Hb; eauto].
    eapply frame_trans; [eapply Hb | eapply Hh]; eauto.
Qed.

Lemma preserves_try_finally {A} (body : M A) (cleanup : M unit) :
  preserves R body -> preserves R cleanup -> preserves R (try_finally body cleanup).
Proof.
  intros Hb Hc w r w' H. unfold try_finally in H.
  destruct (body w) as [r1 w1] eqn:E1. destruct (cleanup w1) as [[u|e] w2] eqn:E2;
    inversion H; subst; (eapply frame_trans; [eapply Hb | eapply Hc]; eauto).
Qed.

Lemma preserves_for_each {A B} (xs : list A) (body : A -> M B) :
  (forall x, preserves R (body x)) -> preserves R (for_each xs body).
Proof.
  intros Hb. induction xs as [|x xs IH]; simpl.
  - apply preserves_ret.
  - apply preserves_bind; [apply Hb|]. intros y.
    apply preserves_bind; [apply IH|]. intros ys. apply preserves_ret.
Qed.

Lemma preserves_cd {A} dir (body : M A) : preserves R body -> preserves R (cd dir body).
Proof.
  intros Hb w r w' H. unfold cd in H.
  destruct (body (set_cwd dir w)) as [r1 w1] eqn:E. inversion H; subst.
  eapply frame_trans; [apply frame_cwd|].
  eapply frame_trans; [eapply Hb; eauto|]. apply frame_cwd.
Qed.

Lemma preserves_read_block a : preserves R (read_block a).
Proof. apply preserves_gets. Qed.

Lemma preserves_write_block a cells : preserves R (write_block a cells).
Proof.
  intros w r w' H. inversion H; subst. apply frame_heap.
  rewrite length_insert. lia.
Qed.

Lemma preserves_allocate cells : preserves R (allocate cells).
Proof.
  intros w r w' H. inversion H; subst. apply frame_heap.
  rewrite length_app. lia.
Qed.

End Preservation.

Lemma native_length k n ep args h st outs h' :
  native k n ep args h = (st, outs, h') -> length h' = length h.
Proof.
  unfold native, native_body, native_var. intros H.
  repeat case_match; simplify_eq; rewrite ?length_insert; reflexivity.
Qed.

Section PreservationWrapper.

Context (rt : Runtime) (R : World -> World -> Prop) `{!Frame R}.

Lemma preserves_modify_log l : preserves R (modify (fun w => set_log (log w ++ l) w)).
Proof. intros w r w' H. inversion H; subst. apply frame_log. Qed.

Lemma preserves_modify_ledger l :
  preserves R (modify (fun w => set_ledger (ledger w ++ l) w)).
Proof. intros w r w' H. inversion H; subst. apply frame_ledger. Qed.

Lemma preserves_lib_attr ep : preserves R (lib_attr ep).
Proof.
  intros w r w' H. unfold lib_attr in H.
  destruct (k_exports (lib w) ep); inversion H; apply frame_refl.
Qed.

Lemma preserves_foreign_call ep args : preserves R (foreign_call ep args).
Proof.
  intros w r w' H. unfold foreign_call in H.
  destruct (native (lib w) (length (trace w)) ep args (heap w)) as [[st outs] h] eqn:E.
  inversion H; subst. apply native_length in E.
  eapply frame_trans; [apply frame_trace|]. apply frame_heap. simpl. lia.
Qed.

Lemma preserves_create_string_buffer n : preserves R (create_string_buffer n).
Proof.
  unfold create_string_buffer. destruct (n <? 0);
    auto using preserves_raise, preserves_ret.
Qed.

Lemma preserves_get_constant_int c : preserves R (get_constant_int c).
Proof.
  intros w r w' H. unfold get_constant_int in H.
  destruct (k_constants (lib w) c); inversion H; apply frame_refl.
Qed.

End PreservationWrapper.

(** Decomposing a computation into the steps above. *)
Ltac frame_step :=
  lazymatch goal with
  | |- forall _, preserves _ _ => intros ?
  | |- preserves _ (bind _ _) => apply preserves_bind
  | |- preserves _ (ret _) => apply preserves_ret
  | |- preserves _ (raise _) => apply preserves_raise
  | |- preserves _ (lift _) => apply preserves_lift
  | |- preserves _ (gets _) => apply preserves_gets
  | |- preserves _ (when _ _) => apply preserves_when
  | |- preserves _ (try_except_AttributeError _ _) => apply preserves_try_except
  | |- preserves _ (try_finally _ _) => apply preserves_try_finally
  | |- preserves _ (for_each _ _) => apply preserves_for_each
  | |- preserves _ (cd _ _) => apply preserves_cd
  | |- preserves _ (read_block _) => apply preserves_read_block
  | |- preserves _ (write_block _ _) => apply preserves_write_block
  | |- preserves _ (allocate _) => apply preserves_allocate
  | |- preserves _ (logger_debug _ _) => apply preserves_modify_log
  | |- preserves _ (logger_error _) => apply preserves_modify_log
  | |- preserves _ (timer_start_fn _) => apply preserves_modify_ledger
  | |- preserves _ (timer_stop_fn _) => apply preserves_modify_ledger
  | |- preserves _ (lib_attr _) => apply preserves_lib_attr
  | |- preserves _ (foreign_call _ _) => apply preserves_foreign_call
  | |- preserves _ (create_string_buffer _) => apply preserves_create_string_buffer
  | |- preserves _ (get_constant_int _) => apply preserves_get_constant_int
  | |- preserves _ (if ?c then _ else _) => destruct c
  | |- preserves _ (match ?x with _ => _ end) => destruct x
  | |- preserves _ _ => solve [eauto 3 with frames typeclass_instances]
  end; try (assumption || exact _).

Section PreservationInvoker.

Context (rt : Runtime) (R : World -> World -> Prop) `{!Frame R}.

(** The invoker respects every frame: it never touches the lifecycle
    state, and memory keeps its blocks. *)
Lemma preserves_execute_function ep args detail :
  preserves R (_execute_function rt ep args detail).
Proof. unfold _execute_function. repeat frame_step. Qed.

End PreservationInvoker.

#[export] Hint Resolve preserves_execute_function : frames.

Section PreservationMethods.

Context (rt : Runtime) (R : World -> World -> Prop) `{!Frame R}.

Lemma preserves_np_empty sh dt : preserves R (np_empty sh dt).
Proof. unfold np_empty. repeat frame_step. Qed.

Lemma preserves_np_zeros sh dt : preserves R (np_zeros sh dt).
Proof. unfold np_zeros. repeat frame_step. Qed.

Lemma preserves_np_copy a : preserves R (np_copy a).
Proof. unfold np_copy. repeat frame_step. Qed.

Lemma preserves_contents dt sh p : preserves R (contents dt sh p).
Proof. unfold contents. repeat frame_step. Qed.

Lemma preserves_get_var_type name : preserves R (get_var_type rt name).
Proof. unfold get_var_type. repeat frame_step. Qed.

Lemma preserves_get_var_rank name : preserves R (get_var_rank rt name).
Proof. unfold get_var_rank. repeat frame_step. Qed.

Lemma preserves_get_var_nbytes name : preserves R (get_var_nbytes rt name).
Proof. unfold get_var_nbytes. repeat frame_step. Qed.

Hint Resolve preserves_np_empty preserves_np_zeros preserves_np_copy
  preserves_contents preserves_get_var_type preserves_get_var_rank
  preserves_get_var_nbytes : frames.

Lemma preserves_get_var_shape name : preserves R (get_var_shape rt name).
Proof. unfold get_var_shape. repeat frame_step. Qed.

Lemma preserves_get_value_ptr_scalar name : preserves R (get_value_ptr_scalar rt name).
Proof. unfold get_value_ptr_scalar. repeat frame_step. Qed.

Hint Resolve preserves_get_var_shape preserves_get_value_ptr_scalar : frames.

Lemma preserves_get_value_ptr name : preserves R (get_value_ptr rt name).
Proof. unfold get_value_ptr. repeat frame_step. Qed.

Lemma preserves_setitem0 dest from v : preserves R (setitem0 rt dest from v).
Proof. unfold setitem0. repeat frame_step. Qed.

Lemma preserves_getitem0 src : preserves R (getitem0 src).
Proof. unfold getitem0. repeat frame_step. Qed.

Lemma preserves_strip_element dest i : preserves R (strip_element dest i).
Proof. unfold strip_element. repeat frame_step. Qed.

Lemma preserves_astype_str dest : preserves R (astype_str rt dest).
Proof. unfold astype_str. repeat frame_step. Qed.

Hint Resolve preserves_setitem0 preserves_getitem0 preserves_strip_element
  preserves_astype_str : frames.

Lemma preserves_get_value name dest : preserves R (get_value rt name dest).
Proof. unfold get_value. repeat frame_step. Qed.

Lemma preserves_set_value name values : preserves R (set_value rt name values).
Proof. unfold set_value. repeat frame_step. Qed.

End PreservationMethods.

#[export] Hint Resolve preserves_np_empty preserves_np_zeros preserves_np_copy
  preserves_contents preserves_get_var_type preserves_get_var_rank
  preserves_get_var_nbytes preserves_get_var_shape preserves_get_value_ptr_scalar
  preserves_get_value_ptr preserves_setitem0 preserves_getitem0
  preserves_strip_element preserves_astype_str preserves_get_value
  preserves_set_value : frames.

(** ** The invoker *)

Lemma after_refl w : after w (heap w) [] w.
Proof. unfold after. rewrite app_nil_r. tauto. Qed.

Lemma after_trans w h1 t1 w1 h2 t2 w2 :
  after w h1 t1 w1 -> after w1 h2 t2 w2 -> after w h2 (t1 ++ t2) w2.
Proof.
  unfold after. intros H1 H2.
  destruct H1 as (? & ? & E1 & ? & ? & ? & ? & ? & ? & ?).
  destruct H2 as (? & ? & E2 & ? & ? & ? & ? & ? & ? & ?).
  rewrite E2, E1, app_assoc. repeat split; congruence.
Qed.

Section Invoker.

Variable rt : Runtime.

(** A call that returns status 0 gives back its arguments, as the kernel
    left them, and is the only call made. *)
Lemma execute_function_ok ep args detail w outs h :
  native (lib w) (length (trace w)) ep args (heap w) = (0, outs, h) ->
  runs (_execute_function rt ep args detail) w (Ok outs) (after w h [(ep, 0)]).
Proof.
  intros H. unfold runs, _execute_function, bind, gets, when, try_finally,
    foreign_call, timer_start_fn, timer_stop_fn, logger_debug, modify, ret.
  destruct (timing w) eqn:Et, (debug w) eqn:Ed; simpl; rewrite H; simpl;
    rewrite ?Et, ?Ed; simpl; rewrite ?Et; simpl;
    (eexists; split; [reflexivity | unfold after; simpl; tauto]).
Qed.

(** A call that returns a nonzero status never returns normally, and
    whatever the outcome the call is the next entry of the trace. *)
Lemma report_never_ok (m : M (list Z)) w (r : res (list CArg)) w' :
  bind m (fun msg => raise (XMIError msg)) w = (r, w') -> exists e, r = Raise e.
Proof.
  intros H. apply bind_inv in H as [(a & w1 & _ & H)|(e & _ & ->)]; [|eauto].
  inversion H. eauto.
Qed.

Lemma execute_function_inv ep args detail w r w' :
  _execute_function rt ep args detail w = (r, w') ->
  exists st outs h t,
    native (lib w) (length (trace w)) ep args (heap w) = (st, outs, h) /\
    trace w' = trace w ++ (ep, st) :: t /\
    (st = 0 -> r = Ok outs) /\
    (st <> 0 -> exists e, r = Raise e).
Proof.
  destruct (native (lib w) (length (trace w)) ep args (heap w)) as [[st outs] h] eqn:E.
  intros H. exists st, outs, h.
  destruct (Z.eq_dec st 0) as [->|Hst].
  { destruct (execute_function_ok ep args detail w outs h E) as (w1 & E1 & Ha).
    rewrite E1 in H. inversion H; subst. exists [].
    destruct Ha as (_ & _ & Ht & _). intuition. }
  apply Z.eqb_neq in Hst as Hb.
  unfold _execute_function in H.
  apply bind_inv in H as [(tm & w0 & E0 & H)|(e & E0 & _)];
    [|unfold gets in E0; discriminate E0].
  unfold gets in E0. inversion E0; subst w0 tm; clear E0.
  apply bind_inv in H as [(u & w1 & E1 & H)|(e & E1 & _)];
    [|unfold when, timer_start_fn, modify, ret in E1; destruct (timing w); discriminate E1].
  assert (Hw1 : lib w1 = lib w /\ trace w1 = trace w /\ heap w1 = heap w)
    by (unfold when, timer_start_fn, modify, ret in E1;
        destruct (timing w); inversion E1; subst; simpl; auto).
  destruct Hw1 as (Hl & Ht & Hh). clear E1.
  unfold try_finally in H.
  match type of H with context [bind (foreign_call ep args) ?K] => set (body := K) in * end.
  destruct (bind (foreign_call ep args) body w1) as [r1 w2] eqn:EB.
  assert (Hr : r = r1 /\ trace w' = trace w2).
  { revert H. unfold bind, gets, when, timer_stop_fn, modify, ret.
    destruct (timing w2); simpl; intros H; inversion H; subst; auto. }
  destruct Hr as (-> & Htr). clear H.
  apply bind_inv in EB as [(a & w3 & E3 & EB)|(e & E3 & _)];
    [|unfold foreign_call in E3; rewrite Hl, Ht, Hh, E in E3; discriminate E3].
  unfold foreign_call in E3. rewrite Hl, Ht, Hh, E in E3. inversion E3; subst a w3; clear E3.
  assert (Hp : preserves trace_grows (body (st, outs)))
    by (subst body; simpl; repeat frame_step).
  destruct (Hp _ _ _ EB) as [t Hg]. simpl in Hg. exists t.
  split; [reflexivity|]. split; [|split; [congruence|]].
  - rewrite Htr, Hg, <- app_assoc. reflexivity.
  - intros _. subst body. simpl in EB.
    apply bind_inv in EB as [(d & w4 & _ & EB)|(e & _ & ->)]; [|eauto].
    apply bind_inv in EB as [(u' & w5 & _ & EB)|(e & _ & ->)]; [|eauto].
    rewrite Hb in EB. simpl in EB. eapply report_never_ok; eauto.
Qed.

End Invoker.

(** ** The lifecycle state machine *)

Lemma set_cwd_restore d w : set_cwd (cwd w) (set_cwd d w) = w.
Proof. destruct w. reflexivity. Qed.

Section Lifecycle.

Variable rt : Runtime.

(** The three transitions share one shape: resolve the entry point, call
    it through the invoker, and only then update the state. *)
Lemma transition_inv dir ep args s w r w' :
  cd dir (f <- lib_attr ep ;;
          _execute_function rt f args None ;;;
          modify (set_state s)) w = (r, w') ->
  (r = Ok tt /\ _state w' = s /\ answers w ep args 0 /\
   trace w' = trace w ++ [(ep, 0)]) \/
  (exists e, r = Raise e /\ _state w' = _state w /\ ~ answers w ep args 0).
Proof.
  unfold cd. intros H.
  destruct (bind (lib_attr ep) _ (set_cwd dir w)) as [r1 w1] eqn:E.
  inversion H; subst r1 w'; clear H.
  apply bind_inv in E as [(f & w2 & E1 & E)|(e & E1 & ->)].
  - unfold lib_attr in E1. simpl in E1.
    destruct (k_exports (lib w) ep) eqn:Hx; inversion E1; subst f w2; clear E1.
    apply bind_inv in E as [(outs & w3 & E2 & E)|(e & E2 & ->)].
    + apply execute_function_inv in E2 as Hi.
      destruct Hi as (st & outs' & h & t & En & Ht & H0 & Hne). simpl in En, Ht.
      destruct (Z.eq_dec st 0) as [->|Hst]; [|destruct (Hne Hst); discriminate].
      unfold modify in E. inversion E; subst r w1. left. simpl.
      destruct (execute_function_ok rt ep args None (set_cwd dir w) outs' h En)
        as (w4 & E4 & Ha). rewrite E4 in E2. inversion E2; subst.
      destruct Ha as (_ & _ & Ht' & _). simpl in Ht'.
      split; [reflexivity|]. split; [reflexivity|].
      split; [split; [exact Hx | rewrite En; reflexivity] | exact Ht'].
    + right. exists e. split; [reflexivity|]. simpl.
      pose proof (preserves_execute_function rt same_state ep args None _ _ _ E2) as Hs.
      split; [exact Hs|].
      apply execute_function_inv in E2 as (st & outs' & h & t & En & _ & H0 & _).
      simpl in En. intros [_ Ha]. rewrite En in Ha. simpl in Ha.
      specialize (H0 Ha). discriminate.
  - right. exists e. split; [reflexivity|].
    unfold lib_attr in E1. simpl in E1.
    destruct (k_exports (lib w) ep) eqn:Hx; inversion E1; subst.
    simpl. split; [reflexivity|]. intros [Ha _]. congruence.
Qed.

Lemma transition_ok dir ep args s w :
  answers w ep args 0 ->
  runs (cd dir (f <- lib_attr ep ;;
                _execute_function rt f args None ;;;
                modify (set_state s))) w (Ok tt)
       (fun w' => _state w' = s /\ trace w' = trace w ++ [(ep, 0)]).
Proof.
  intros [Hx Hn]. unfold runs.
  match goal with |- context [?m w = _] => destruct (m w) as [r w'] eqn:E end.
  exists w'.
  apply transition_inv in E as [(-> & Hs & _ & Ht)|(e & _ & _ & Hna)].
  - auto.
  - destruct Hna. split; assumption.
Qed.

Lemma initialize_inv config_file w r w' :
  initialize rt config_file w = (r, w') ->
  (_state w = INITIALIZED /\ w' = w /\
   r = Raise (InputError (lit "The library is already initialized"))) \/
  (_state w = UNINITIALIZED /\
   ((r = Ok tt /\ _state w' = INITIALIZED /\
     answers w ep_initialize [ABytes config_file] 0 /\
     trace w' = trace w ++ [(ep_initialize, 0)]) \/
    (exists e, r = Raise e /\ _state w' = UNINITIALIZED /\
               ~ answers w ep_initialize [ABytes config_file] 0))).
Proof.
  unfold initialize, bind, gets, raise. destruct (_state w) eqn:Es; intros H.
  - right. split; [reflexivity|]. apply transition_inv in H. rewrite Es in H. exact H.
  - left. inversion H. auto.
Qed.

Lemma initialize_mpi_inv value w r w' :
  initialize_mpi rt value w = (r, w') ->
  (_state w = INITIALIZED /\ w' = w /\
   r = Raise (InputError (lit "The library is already initialized"))) \/
  (_state w = UNINITIALIZED /\
   ((r = Ok tt /\ _state w' = INITIALIZED /\
     answers w ep_initialize_mpi [AInt (wrap32 value)] 0 /\
     trace w' = trace w ++ [(ep_initialize_mpi, 0)]) \/
    (exists e, r = Raise e /\ _state w' = UNINITIALIZED /\
               ~ answers w ep_initialize_mpi [AInt (wrap32 value)] 0))).
Proof.
  unfold initialize_mpi, bind, gets, raise. destruct (_state w) eqn:Es; intros H.
  - right. split; [reflexivity|]. apply transition_inv in H. rewrite Es in H. exact H.
  - left. inversion H. auto.
Qed.

Lemma finalize_inv w r w' :
  finalize rt w = (r, w') ->
  (_state w = UNINITIALIZED /\ w' = w /\
   r = Raise (InputError (lit "The library is not initialized yet"))) \/
  (_state w = INITIALIZED /\
   ((r = Ok tt /\ _state w' = UNINITIALIZED /\ answers w ep_finalize [] 0 /\
     trace w' = trace w ++ [(ep_finalize, 0)]) \/
    (exists e, r = Raise e /\ _state w' = INITIALIZED /\
               ~ answers w ep_finalize [] 0))).
Proof.
  unfold finalize, bind, gets, raise. destruct (_state w) eqn:Es; intros H.
  - left. inversion H. auto.
  - right. split; [reflexivity|]. apply transition_inv in H. rewrite Es in H. exact H.
Qed.

End Lifecycle.

(** C3.  A lifecycle violation is rejected before any native call: in the
    Initialized state [initialize] raises the lifecycle error (the spec's
    StateError is the source's [InputError] with the lifecycle message) and
    leaves the world, hence the trace of native calls, untouched; so does
    [finalize] in the Uninitialized state; in particular a second
    [initialize] right after a successful one is rejected.  When the native
    call answers 0, [initialize] succeeds and moves Uninitialized to
    Initialized, and [finalize] moves Initialized to Uninitialized; they
    succeed in no other way. *)
Theorem lifecycle_violations_rejected (rt : Runtime) (w : World) :
  (forall cfg, _state w = INITIALIZED ->
     initialize rt cfg w =
       (Raise (InputError (lit "The library is already initialized")), w)) /\
  (_state w = UNINITIALIZED ->
     finalize rt w =
       (Raise (InputError (lit "The library is not initialized yet")), w)) /\
  (forall cfg cfg' w1, initialize rt cfg w = (Ok tt, w1) ->
     initialize rt cfg' w1 =
       (Raise (InputError (lit "The library is already initialized")), w1)) /\
  (forall cfg, _state w = UNINITIALIZED ->
     answers w ep_initialize [ABytes cfg] 0 ->
     exists w', initialize rt cfg w = (Ok tt, w') /\ _state w' = INITIALIZED /\
                trace w' = trace w ++ [(ep_initialize, 0)]) /\
  (forall cfg w', initialize rt cfg w = (Ok tt, w') ->
     _state w = UNINITIALIZED /\ _state w' = INITIALIZED) /\
  (_state w = INITIALIZED -> answers w ep_finalize [] 0 ->
     exists w', finalize rt w = (Ok tt, w') /\ _state w' = UNINITIALIZED /\
                trace w' = trace w ++ [(ep_finalize, 0)]) /\
  (forall w', finalize rt w = (Ok tt, w') ->
     _state w = INITIALIZED /\ _state w' = UNINITIALIZED).
Proof.
  assert (Hguard : forall cfg w0, _state w0 = INITIALIZED ->
            initialize rt cfg w0 =
              (Raise (InputError (lit "The library is already initialized")), w0)).
  { intros cfg w0 Es. unfold initialize, bind, gets. rewrite Es. reflexivity. }
  assert (Hinit : forall cfg w', initialize rt cfg w = (Ok tt, w') ->
            _state w = UNINITIALIZED /\ _state w' = INITIALIZED).
  { intros cfg w' E.
    apply initialize_inv in E as [(_ & _ & E)|(Es & [(_ & Es' & _)|(e & E & _)])];
      try discriminate E. auto. }
  repeat split.
  - intros cfg. apply Hguard.
  - intros Es. unfold finalize, bind, gets. rewrite Es. reflexivity.
  - intros cfg cfg' w1 E. apply Hguard. apply (Hinit cfg w1 E).
  - intros cfg Es Ha.
    destruct (initialize rt cfg w) as [r w'] eqn:E. exists w'.
    apply initialize_inv in E as [(Es' & _)|(_ & [(-> & Es' & _ & Ht)|(e & _ & _ & Hna)])].
    + congruence.
    + auto.
    + contradiction.
  - apply (Hinit cfg w' H).
  - apply (Hinit cfg w' H).
  - intros Es Ha.
    destruct (finalize rt w) as [r w'] eqn:E. exists w'.
    apply finalize_inv in E as [(Es' & _)|(_ & [(-> & Es' & _ & Ht)|(e & _ & _ & Hna)])].
    + congruence.
    + auto.
    + contradiction.
  - apply finalize_inv in H as [(_ & _ & E)|(Es & [(_ & Es' & _)|(e & E & _)])];
      try discriminate E. auto.
  - apply finalize_inv in H as [(_ & _ & E)|(Es & [(_ & Es' & _)|(e & E & _)])];
      try discriminate E. auto.
Qed.

Lemma lifecycle_violations_rejected_witness :
  initialize Demo.runtime [] Demo.started =
    (Raise (InputError (lit "The library is already initialized")), Demo.started) /\
  finalize Demo.runtime Demo.world =
    (Raise (InputError (lit "The library is not initialized yet")), Demo.world) /\
  (exists w', initialize Demo.runtime [] Demo.world = (Ok tt, w') /\
              _state w' = INITIALIZED /\
              trace w' = trace Demo.world ++ [(ep_initialize, 0)]) /\
  (exists w', finalize Demo.runtime Demo.started = (Ok tt, w') /\
              _state w' = UNINITIALIZED /\
              trace w' = trace Demo.started ++ [(ep_finalize, 0)]).
Proof.
  destruct (lifecycle_violations_rejected Demo.runtime Demo.started)
    as (H1 & _ & _ & _ & _ & H6 & _).
  destruct (lifecycle_violations_rejected Demo.runtime Demo.world)
    as (_ & H2 & _ & H4 & _).
  split; [|split; [|split]].
  - apply H1. reflexivity.
  - apply H2. reflexivity.
  - apply H4; [reflexivity | split; reflexivity].
  - apply H6; [reflexivity | split; reflexivity].
Defined.

(** C10.  The transitions are atomic with respect to a native failure:
    when the native [initialize] (or [initialize_mpi]) entry point returns
    a nonzero status the method raises and the state is still
    Uninitialized, and when the native [finalize] fails the state is still
    Initialized.  More generally, the state field changes only if the
    method returns normally, and then the native call has returned 0. *)
Theorem lifecycle_atomic (rt : Runtime) (w : World) :
  (forall cfg st, _state w = UNINITIALIZED ->
     answers w ep_initialize [ABytes cfg] st -> st <> 0 ->
     exists e w', initialize rt cfg w = (Raise e, w') /\ _state w' = UNINITIALIZED) /\
  (forall value st, _state w = UNINITIALIZED ->
     answers w ep_initialize_mpi [AInt (wrap32 value)] st -> st <> 0 ->
     exists e w', initialize_mpi rt value w = (Raise e, w') /\
                  _state w' = UNINITIALIZED) /\
  (forall st, _state w = INITIALIZED -> answers w ep_finalize [] st -> st <> 0 ->
     exists e w', finalize rt w = (Raise e, w') /\ _state w' = INITIALIZED) /\
  (forall cfg r w', initialize rt cfg w = (r, w') -> _state w' <> _state w ->
     r = Ok tt /\ answers w ep_initialize [ABytes cfg] 0) /\
  (forall value r w', initialize_mpi rt value w = (r, w') -> _state w' <> _state w ->
     r = Ok tt /\ answers w ep_initialize_mpi [AInt (wrap32 value)] 0) /\
  (forall r w', finalize rt w = (r, w') -> _state w' <> _state w ->
     r = Ok tt /\ answers w ep_finalize [] 0).
Proof.
  assert (Hno : forall ep args st, answers w ep args st -> st <> 0 ->
            ~ answers w ep args 0).
  { intros ep args st [_ H1] Hst [_ H2]. congruence. }
  split; [|split; [|split; [|split; [|split]]]].
  - intros cfg st Es Ha Hst.
    destruct (initialize rt cfg w) as [r w'] eqn:E.
    apply initialize_inv in E
      as [(Es' & _)|(_ & [(_ & _ & Ha0 & _)|(e & -> & Es' & _)])].
    + congruence.
    + destruct (Hno _ _ _ Ha Hst Ha0).
    + eauto.
  - intros value st Es Ha Hst.
    destruct (initialize_mpi rt value w) as [r w'] eqn:E.
    apply initialize_mpi_inv in E
      as [(Es' & _)|(_ & [(_ & _ & Ha0 & _)|(e & -> & Es' & _)])].
    + congruence.
    + destruct (Hno _ _ _ Ha Hst Ha0).
    + eauto.
  - intros st Es Ha Hst.
    destruct (finalize rt w) as [r w'] eqn:E.
    apply finalize_inv in E
      as [(Es' & _)|(_ & [(_ & _ & Ha0 & _)|(e & -> & Es' & _)])].
    + congruence.
    + destruct (Hno _ _ _ Ha Hst Ha0).
    + eauto.
  - intros cfg r w' H Hs. apply initialize_inv in H
      as [(_ & -> & _)|(Es & [(-> & _ & Ha & _)|(e & _ & Es' & _)])];
      [congruence | auto | congruence].
  - intros value r w' H Hs. apply initialize_mpi_inv in H
      as [(_ & -> & _)|(Es & [(-> & _ & Ha & _)|(e & _ & Es' & _)])];
      [congruence | auto | congruence].
  - intros r w' H Hs. apply finalize_inv in H
      as [(_ & -> & _)|(Es & [(-> & _ & Ha & _)|(e & _ & Es' & _)])];
      [congruence | auto | congruence].
Qed.

Lemma lifecycle_atomic_witness :
  (exists e w', initialize Demo.runtime []
                  (Demo.with_lib (Demo.failing ep_initialize) Demo.world) = (Raise e, w') /\
                _state w' = UNINITIALIZED) /\
  (exists e w', finalize Demo.runtime
                  (Demo.with_lib (Demo.failing ep_finalize) Demo.started) = (Raise e, w') /\
                _state w' = INITIALIZED).
Proof.
  split.
  - destruct (lifecycle_atomic Demo.runtime
                (Demo.with_lib (Demo.failing ep_initialize) Demo.world))
      as (H & _).
    apply (H [] 1); [reflexivity | split; reflexivity | discriminate].
  - destruct (lifecycle_atomic Demo.runtime
                (Demo.with_lib (Demo.failing ep_finalize) Demo.started))
      as (_ & _ & H & _).
    apply (H 1); [reflexivity | split; reflexivity | discriminate].
Defined.

(** C9, as amended.  [__del__] is [finalize] in the Initialized state and
    does nothing in the Uninitialized state, where the teardown therefore
    makes no native call.  It has no handler and writes no log record of
    its own: an error that the automatic [finalize] raises leaves [__del__]
    as it is.  It is the interpreter that keeps this error from propagating
    past the destruction of the object, and that reports it on the error
    stream; the lifecycle state is then still Initialized. *)
Theorem teardown_best_effort (rt : Runtime) (w : World) :
  (_state w = UNINITIALIZED ->
     __del__ rt w = (Ok tt, w) /\ teardown rt w = (Ok tt, w)) /\
  (_state w = INITIALIZED -> __del__ rt w = finalize rt w) /\
  (exists w', teardown rt w = (Ok tt, w')) /\
  (_state w = INITIALIZED -> forall w1, finalize rt w = (Ok tt, w1) ->
     teardown rt w = (Ok tt, w1)) /\
  (_state w = INITIALIZED -> forall e w1, finalize rt w = (Raise e, w1) ->
     __del__ rt w = (Raise e, w1) /\
     teardown rt w = (Ok tt, set_stderr (stderr w1 ++ [e]) w1) /\
     log (set_stderr (stderr w1 ++ [e]) w1) = log w1 /\
     _state w1 = INITIALIZED).
Proof.
  assert (Hdel : _state w = INITIALIZED -> __del__ rt w = finalize rt w).
  { intros Es. unfold __del__, bind, gets. rewrite Es. reflexivity. }
  split; [|split; [|split; [|split]]].
  - intros Es. unfold teardown, __del__, bind, gets. rewrite Es. split; reflexivity.
  - exact Hdel.
  - unfold teardown. destruct (__del__ rt w) as [[[]|e] w']; eauto.
  - intros Es w1 E. unfold teardown. rewrite (Hdel Es), E. reflexivity.
  - intros Es e w1 E. split; [rewrite (Hdel Es); exact E|].
    split; [unfold teardown; rewrite (Hdel Es), E; reflexivity|].
    split; [reflexivity|].
    apply finalize_inv in E
      as [(Es' & _)|(_ & [(E & _)|(e' & _ & Es' & _)])]; congruence.
Qed.

Lemma teardown_best_effort_witness :
  teardown Demo.runtime Demo.world = (Ok tt, Demo.world) /\
  (exists w1,
     teardown Demo.runtime (Demo.with_lib (Demo.failing ep_finalize) Demo.started) =
       (Ok tt, set_stderr (stderr w1 ++
          [XMIError (lit "BMI exception in finalize(): Message from GW 'no such variable'")])
          w1) /\
     _state w1 = INITIALIZED).
Proof.
  destruct (teardown_best_effort Demo.runtime Demo.world) as (H1 & _).
  destruct (teardown_best_effort Demo.runtime
              (Demo.with_lib (Demo.failing ep_finalize) Demo.started))
    as (_ & _ & _ & _ & H5).
  split.
  - apply H1. reflexivity.
  - eexists.
    refine ((fun H => conj (proj1 (proj2 H)) (proj2 (proj2 (proj2 H)))) (H5 eq_refl _ _ _)).
    vm_compute. reflexivity.
Defined.

(** C9, as the claim states it, fails: torn down while Initialized over a
    kernel whose [finalize] returns status 1, the wrapper runs the
    automatic [finalize], which raises; the error leaves [__del__], and
    the log of the wrapper holds no record of it, neither after [__del__]
    nor once the teardown is over. *)
Lemma teardown_error_not_logged :
  fst (__del__ Demo.runtime (Demo.with_lib (Demo.failing ep_finalize) Demo.started)) =
    Raise (XMIError (lit "BMI exception in finalize(): Message from GW 'no such variable'")) /\
  log (snd (__del__ Demo.runtime
              (Demo.with_lib (Demo.failing ep_finalize) Demo.started))) = [] /\
  log (snd (teardown Demo.runtime
              (Demo.with_lib (Demo.failing ep_finalize) Demo.started))) = [].
Proof. vm_compute. repeat split. Qed.

(** ** Text fields *)

Lemma upto_nul_text s rest : is_text s = true -> upto_nul (s ++ 0 :: rest) = s.
Proof.
  unfold upto_nul, is_text. induction s as [|c s IH]; simpl; intros H.
  - reflexivity.
  - apply andb_prop in H as [Hc Hs]. apply andb_prop in Hc as [_ Hn].
    rewrite Hn. f_equal. auto.
Qed.

Lemma upto_nul_text_all s : is_text s = true -> upto_nul s = s.
Proof.
  unfold upto_nul, is_text. induction s as [|c s IH]; simpl; intros H.
  - reflexivity.
  - apply andb_prop in H as [Hc Hs]. apply andb_prop in Hc as [_ Hn].
    rewrite Hn. f_equal. auto.
Qed.

Lemma upto_nul_padded s n : is_text s = true -> upto_nul (s ++ repeat 0 n) = s.
Proof.
  intros H. destruct n as [|n]; simpl.
  - rewrite app_nil_r. apply upto_nul_text_all, H.
  - apply upto_nul_text, H.
Qed.

Lemma decode_ascii_text s : is_text s = true -> decode_ascii s = Ok s.
Proof.
  unfold decode_ascii, is_text. intros H.
  replace (forallb is_ascii s) with true; [reflexivity|].
  symmetry. induction s as [|c s IH]; simpl in *; [reflexivity|].
  apply andb_prop in H as [Hc Hs]. apply andb_prop in Hc as [-> _]. simpl. auto.
Qed.

Lemma skipn_repeat_zeros m n : skipn m (repeat 0 n) = repeat 0 (n - m).
Proof.
  revert m. induction n as [|n IH]; intros [|m]; simpl; auto.
Qed.

(** A text written into a zeroed buffer that can hold it. *)
Lemma overwrite_zeros s n :
  (length s <= n)%nat -> overwrite s (repeat 0 n) = s ++ repeat 0 (n - length s).
Proof.
  intros H. unfold overwrite. rewrite repeat_length.
  rewrite firstn_all2 by lia. f_equal.
  rewrite skipn_repeat_zeros. reflexivity.
Qed.

Lemma field_decodes s n :
  is_text s = true -> (length s <= n)%nat ->
  decode (upto_nul (overwrite s (repeat 0 n))) = Ok s.
Proof.
  intros Ht Hn. rewrite overwrite_zeros by exact Hn.
  rewrite upto_nul_padded by exact Ht. apply decode_ascii_text, Ht.
Qed.

Lemma wrap32_small z : - 2 ^ 31 <= z < 2 ^ 31 -> wrap32 z = z.
Proof. intros H. unfold wrap32. rewrite Z.mod_small; lia. Qed.

(** ** The catalog on a kernel that follows the convention *)

Section Catalog.

Variable rt : Runtime.

Lemma lib_attr_runs k ep w :
  lib w = k -> k_exports k ep = true -> runs (lib_attr ep) w (Ok ep) (eq w).
Proof.
  intros <- Hx. exists w. unfold lib_attr. rewrite Hx. auto.
Qed.

(** A query of the catalog, run through the invoker. *)
Lemma query_runs k ep args outs h w :
  lib w = k -> k_exports k ep = true ->
  native k (length (trace w)) ep args (heap w) = (0, outs, h) ->
  runs (f <- lib_attr ep ;; _execute_function rt f args None) w (Ok outs)
       (after w h [(ep, 0)]).
Proof.
  intros Hk Hx Hn. eapply runs_bind; [eapply lib_attr_runs; eauto|].
  intros w1 <-. apply execute_function_ok. rewrite Hk. exact Hn.
Qed.

Lemma get_var_rank_runs k name v w :
  serves k name v -> lib w = k ->
  runs (get_var_rank rt name) w (Ok (Z.of_nat (length (kv_shape v))))
       (after w (heap w) [(ep_get_var_rank, 0)]).
Proof.
  intros Hs Hk. unfold get_var_rank.
  assert (Hq := query_runs k ep_get_var_rank [ABytes name; AInt 0]
                  [ABytes name; AInt (wrap32 (Z.of_nat (length (kv_shape v))))]
                  (heap w) w Hk (sv_exports _ _ _ Hs _)).
  destruct Hq as (w1 & E & Ha).
  { unfold native. rewrite (sv_succeeds _ _ _ Hs). simpl.
    unfold native_var. rewrite (sv_lookup _ _ _ Hs). reflexivity. }
  exists w1. split; [|exact Ha].
  unfold bind in *.
  destruct (lib_attr ep_get_var_rank w) as [[f|e] w0]; [|discriminate E].
  rewrite E. unfold ret. simpl. rewrite wrap32_small; [reflexivity|].
  pose proof (sv_rank_fits _ _ _ Hs). lia.
Qed.

Lemma get_var_nbytes_runs k name v w :
  serves k name v -> lib w = k ->
  runs (get_var_nbytes rt name) w (Ok (wrap32 (kv_nbytes v)))
       (after w (heap w) [(ep_get_var_nbytes, 0)]).
Proof.
  intros Hs Hk. unfold get_var_nbytes.
  assert (Hq := query_runs k ep_get_var_nbytes [ABytes name; AInt 0]
                  [ABytes name; AInt (wrap32 (kv_nbytes v))]
                  (heap w) w Hk (sv_exports _ _ _ Hs _)).
  destruct Hq as (w1 & E & Ha).
  { unfold native. rewrite (sv_succeeds _ _ _ Hs). simpl.
    unfold native_var. rewrite (sv_lookup _ _ _ Hs). reflexivity. }
  exists w1. split; [|exact Ha].
  unfold bind in *.
  destruct (lib_attr ep_get_var_nbytes w) as [[f|e] w0]; [|discriminate E].
  rewrite E. reflexivity.
Qed.

Lemma get_var_type_runs k name v w :
  serves k name v -> lib w = k ->
  runs (get_var_type rt name) w (Ok (kv_type v))
       (after w (heap w) [(ep_get_var_type, 0)]).
Proof.
  intros Hs Hk. unfold get_var_type.
  destruct (sv_type_fits _ _ _ Hs) as (len & Hc & Hlen).
  eapply runs_bind with (P := eq w).
  { exists w. unfold get_constant_int. rewrite Hk, Hc. auto. }
  intros w0 <-.
  assert (0 <= wrap32 len) by lia.
  eapply runs_bind with (P := eq w).
  { exists w. unfold create_string_buffer.
    destruct (Z.ltb_spec (wrap32 len) 0) as [Hneg|_]; [lia|]. auto. }
  intros w0 <-.
  assert (Hq := query_runs k ep_get_var_type
                  [ABytes name; ABuf (repeat 0 (Z.to_nat (wrap32 len)))]
                  [ABytes name;
                   ABuf (overwrite (kv_type v) (repeat 0 (Z.to_nat (wrap32 len))))]
                  (heap w) w Hk (sv_exports _ _ _ Hs _)).
  destruct Hq as (w1 & E & Ha).
  { unfold native. rewrite (sv_succeeds _ _ _ Hs). simpl.
    unfold native_var. rewrite (sv_lookup _ _ _ Hs). reflexivity. }
  exists w1. split; [|exact Ha].
  unfold bind in *.
  destruct (lib_attr ep_get_var_type w) as [[f|e] w0]; [|discriminate E].
  rewrite E. unfold lift. simpl. rewrite field_decodes; [reflexivity| |lia].
  apply (sv_type_text _ _ _ Hs).
Qed.

Lemma get_var_shape_runs k name v w :
  serves k name v -> lib w = k ->
  runs (get_var_shape rt name) w
       (Ok {| data := length (heap w); nd_dtype := int32;
              shape := [Z.of_nat (length (kv_shape v))]; flags_C := true |})
       (after w (heap w ++ [kv_shape v]) [(ep_get_var_rank, 0); (ep_get_var_shape, 0)]).
Proof.
  intros Hs Hk. unfold get_var_shape.
  eapply runs_bind; [eapply get_var_rank_runs; eauto|].
  intros w1 H1.
  assert (Hk1 : lib w1 = k) by (destruct H1 as (_&_&_&_&_&->&_); exact Hk).
  assert (Hh1 : heap w1 = heap w) by (destruct H1 as (_&->&_); reflexivity).
  set (rank := Z.of_nat (length (kv_shape v))).
  eapply runs_bind with
    (a := {| data := length (heap w); nd_dtype := int32; shape := [rank]; flags_C := true |})
    (P := after w1 (heap w ++ [repeat 0 (length (kv_shape v))]) []).
  { unfold np_zeros, negative_dim. simpl. rewrite orb_false_r.
    destruct (Z.ltb_spec rank 0) as [Hneg|_]; [subst rank; lia|].
    unfold runs, bind, allocate, ret. cbn beta iota. rewrite Hh1.
    eexists. split; [reflexivity|].
    unfold after. simpl. rewrite app_nil_r.
    unfold size. simpl. rewrite Z.mul_1_r. subst rank. rewrite Nat2Z.id.
    rewrite Nat.mul_1_r. tauto. }
  intros w2 H2.
  assert (Hk2 : lib w2 = k) by (destruct H2 as (_&_&_&_&_&->&_); exact Hk1).
  assert (Hh2 : heap w2 = heap w ++ [repeat 0 (length (kv_shape v))])
    by (destruct H2 as (_&->&_); reflexivity).
  assert (Hq := query_runs k ep_get_var_shape [ABytes name; APtr (length (heap w))]
                  [ABytes name; APtr (length (heap w))]
                  (heap w ++ [kv_shape v]) w2 Hk2 (sv_exports _ _ _ Hs _)).
  destruct Hq as (w3 & E & Ha).
  { unfold native. rewrite (sv_succeeds _ _ _ Hs). simpl.
    unfold native_var. rewrite (sv_lookup _ _ _ Hs). simpl.
    rewrite Hh2. rewrite lookup_app_r by lia. rewrite Nat.sub_diag. simpl.
    f_equal. rewrite insert_app_r_alt by lia. rewrite Nat.sub_diag. simpl.
    f_equal. f_equal. unfold overwrite. rewrite repeat_length.
    rewrite firstn_all, skipn_all2 by (rewrite repeat_length; lia).
    apply app_nil_r. }
  exists w3. split.
  - unfold bind in *. simpl.
    destruct (lib_attr ep_get_var_shape w2) as [[f|e] w0]; [|discriminate E].
    rewrite E. reflexivity.
  - pose proof (after_trans _ _ _ _ _ _ _ H1 (after_trans _ _ _ _ _ _ _ H2 Ha)) as Ht.
    exact Ht.
Qed.

End Catalog.

(** ** Steps that accumulate what happened since the start *)

Lemma after_lib w h t w' : after w h t w' -> lib w' = lib w.
Proof. intros (_&_&_&_&_&H&_). exact H. Qed.

Lemma after_heap w h t w' : after w h t w' -> heap w' = h.
Proof. intros (_&H&_). exact H. Qed.

Lemma after_trace w h t w' : after w h t w' -> trace w' = trace w ++ t.
Proof. intros (_&_&H&_). exact H. Qed.

Lemma after_state w h t w' : after w h t w' -> _state w' = _state w.
Proof. intros (H&_). exact H. Qed.

Lemma runs_step {A B} (m : M A) (f : A -> M B) w0 w h t a h' t' r Q :
  after w0 h t w ->
  runs m w (Ok a) (after w h' t') ->
  (forall w1, after w0 h' (t ++ t') w1 -> runs (f a) w1 r Q) ->
  runs (bind m f) w r Q.
Proof.
  intros H0 Hm Hf. eapply runs_bind; [exact Hm|].
  intros w1 H1. apply Hf. eapply after_trans; eauto.
Qed.

(** A step that leaves the world as it is. *)
Lemma runs_pure {A B} (m : M A) (f : A -> M B) w a r Q :
  m w = (Ok a, w) -> runs (f a) w r Q -> runs (bind m f) w r Q.
Proof.
  intros Hm (w' & E & H). exists w'. unfold bind. rewrite Hm. auto.
Qed.

Lemma no_transfer_app t1 t2 : no_transfer t1 -> no_transfer t2 -> no_transfer (t1 ++ t2).
Proof. unfold no_transfer. rewrite Forall_app. auto. Qed.

Section Invoker_inversion.

Variable rt : Runtime.

Lemma execute_function_ok_inv ep args detail w outs w' :
  _execute_function rt ep args detail w = (Ok outs, w') ->
  exists h, native (lib w) (length (trace w)) ep args (heap w) = (0, outs, h) /\
            after w h [(ep, 0)] w'.
Proof.
  intros H. apply execute_function_inv in H as Hi.
  destruct Hi as (st & outs' & h & t & En & _ & H0 & Hne).
  destruct (Z.eq_dec st 0) as [->|Hst]; [|destruct (Hne Hst); discriminate].
  destruct (execute_function_ok rt ep args detail w outs' h En) as (w1 & E1 & Ha).
  rewrite E1 in H. inversion H; subst. eauto.
Qed.

Lemma get_var_type_ok_inv name w var_type w' :
  get_var_type rt name w = (Ok var_type, w') ->
  after w (heap w) [(ep_get_var_type, 0)] w'.
Proof.
  unfold get_var_type. intros H.
  apply bind_inv in H as [(len & w1 & E1 & H)|(e & _ & E)]; [|discriminate E].
  unfold get_constant_int in E1.
  destruct (k_constants (lib w) BMI_LENVARTYPE); inversion E1; subst; clear E1.
  apply bind_inv in H as [(buf & w2 & E2 & H)|(e & _ & E)]; [|discriminate E].
  unfold create_string_buffer in E2.
  destruct (_ <? 0); inversion E2; subst; clear E2.
  apply bind_inv in H as [(f & w3 & E3 & H)|(e & _ & E)]; [|discriminate E].
  unfold lib_attr in E3.
  destruct (k_exports (lib w2) ep_get_var_type); inversion E3; subst; clear E3.
  apply bind_inv in H as [(outs & w4 & E4 & H)|(e & _ & E)]; [|discriminate E].
  apply execute_function_ok_inv in E4 as (h & En & Ha).
  unfold lift in H. inversion H; subst.
  assert (h = heap w3); [|subst; exact Ha].
  unfold native in En. destruct (k_script _ _ _ =? 0); [|inversion En; reflexivity].
  simpl in En. unfold native_var in En.
  destruct (k_vars _ _); inversion En; reflexivity.
Qed.

End Invoker_inversion.

(** C6.  The layout and element-type checks come first.  [get_value] with
    a destination that is not C-contiguous, and [set_value] with such a
    source, raise the layout error and leave the world, hence the trace of
    native calls, untouched.  [set_value] with a contiguous source whose
    element type is not the one declared (float64 for a type string that
    starts with "double", int32 for one that starts with "int") raises the
    element-type error right after the type query: the only native call
    made is [get_var_type], never [set_value].  (The spec's LayoutError and
    TypeError are the source's [InputError] with these messages.) *)
Theorem layout_and_element_type_checked (rt : Runtime) (name : list Z) (w : World) :
  (forall dest, flags_C dest = false ->
     get_value rt name (Some dest) w =
       (Raise (InputError (lit "Array should have C layout")), w)) /\
  (forall values, flags_C values = false ->
     set_value rt name values w =
       (Raise (InputError (lit "Array should have C layout")), w)) /\
  (forall values var_type w1, flags_C values = true ->
     get_var_type rt name w = (Ok var_type, w1) ->
     startswith (lower var_type) (lit "double") = true ->
     nd_dtype values <> float64 ->
     set_value rt name values w =
       (Raise (InputError (lit "Array should have float64 elements")), w1) /\
     trace w1 = trace w ++ [(ep_get_var_type, 0)]) /\
  (forall values var_type w1, flags_C values = true ->
     get_var_type rt name w = (Ok var_type, w1) ->
     startswith (lower var_type) (lit "double") = false ->
     startswith (lower var_type) (lit "int") = true ->
     nd_dtype values <> int32 ->
     set_value rt name values w =
       (Raise (InputError (lit "Array should have int32 elements")), w1) /\
     trace w1 = trace w ++ [(ep_get_var_type, 0)]).
Proof.
  split; [|split; [|split]].
  - intros dest Hc. unfold get_value, bind. rewrite Hc. reflexivity.
  - intros values Hc. unfold set_value, bind. rewrite Hc. reflexivity.
  - intros values var_type w1 Hc Ht Hd Hne. split.
    + unfold set_value, bind. rewrite Hc. simpl. rewrite Ht, Hd.
      destruct (nd_dtype values); try reflexivity. congruence.
    + apply get_var_type_ok_inv in Ht. apply (after_trace _ _ _ _ Ht).
  - intros values var_type w1 Hc Ht Hd Hi Hne. split.
    + unfold set_value, bind. rewrite Hc. simpl. rewrite Ht, Hd, Hi.
      destruct (nd_dtype values); try reflexivity. congruence.
    + apply get_var_type_ok_inv in Ht. apply (after_trace _ _ _ _ Ht).
Qed.

Lemma layout_and_element_type_checked_witness :
  get_value Demo.runtime (lit "HEAD") (Some Demo.strided) Demo.world =
    (Raise (InputError (lit "Array should have C layout")), Demo.world) /\
  set_value Demo.runtime (lit "HEAD") Demo.strided Demo.world =
    (Raise (InputError (lit "Array should have C layout")), Demo.world) /\
  (exists w1,
     set_value Demo.runtime (lit "HEAD") Demo.ints Demo.world =
       (Raise (InputError (lit "Array should have float64 elements")), w1) /\
     trace w1 = trace Demo.world ++ [(ep_get_var_type, 0)]) /\
  (exists w1,
     set_value Demo.runtime (lit "MXITER") Demo.doubles Demo.world =
       (Raise (InputError (lit "Array should have int32 elements")), w1) /\
     trace w1 = trace Demo.world ++ [(ep_get_var_type, 0)]).
Proof.
  destruct (layout_and_element_type_checked Demo.runtime (lit "HEAD") Demo.world)
    as (H1 & H2 & H3 & _).
  destruct (layout_and_element_type_checked Demo.runtime (lit "MXITER") Demo.world)
    as (_ & _ & _ & H4).
  split; [|split; [|split]].
  - apply H1. reflexivity.
  - apply H2. reflexivity.
  - eexists. apply (H3 Demo.ints (lit "DOUBLE (3,2)"));
      [reflexivity | vm_compute; reflexivity | reflexivity | discriminate].
  - eexists. apply (H4 Demo.doubles (lit "INTEGER"));
      [reflexivity | vm_compute; reflexivity | reflexivity | reflexivity | discriminate].
Defined.

(** ** Unsupported types *)

Section Unsupported.

Variable rt : Runtime.
Variables (k : Kernel) (name : list Z) (v : KVar).
Hypothesis Hserves : serves k name v.
Hypothesis Hunsupported : unsupported (kv_type v) = true.

Lemma unsupported_inv :
  startswith (lower (kv_type v)) (lit "double") = false /\
  startswith (lower (kv_type v)) (lit "float") = false /\
  startswith (lower (kv_type v)) (lit "int") = false /\
  startswith (lower (kv_type v)) (lit "string") = false.
Proof.
  unfold unsupported in Hunsupported.
  repeat (apply andb_prop in Hunsupported as [Hunsupported ?]).
  repeat split; apply negb_true_iff; assumption.
Qed.

Lemma get_value_ptr_scalar_unsupported w0 w h t :
  lib w0 = k -> after w0 h t w -> no_transfer t ->
  runs (get_value_ptr_scalar rt name) w
       (Raise (InputError (lit "Unsupported value type " ++ repr_str rt (kv_type v))))
       (fun w' => exists t', after w0 h t' w' /\ no_transfer t').
Proof.
  intros Hk Ha Hn. destruct unsupported_inv as (Hd & Hf & Hi & _).
  assert (Hk' : lib w = k) by (rewrite (after_lib _ _ _ _ Ha); exact Hk).
  pose proof (after_heap _ _ _ _ Ha) as Hh. subst h.
  unfold get_value_ptr_scalar.
  eapply runs_step; [exact Ha| |].
  { eapply get_var_type_runs; eauto. }
  intros w1 H1. rewrite Hd, Hf, Hi.
  apply runs_bind_raise. apply runs_raise.
  eexists. split; [exact H1|].
  apply no_transfer_app; [exact Hn|]. repeat constructor.
Qed.

Lemma get_value_unsupported w dest :
  lib w = k -> (forall d, dest = Some d -> flags_C d = true) ->
  runs (get_value rt name dest) w
       (Raise (InputError (lit "Unsupported value type " ++ repr_str rt (kv_type v))))
       (fun w' => exists h t, after w h t w' /\ no_transfer t).
Proof.
  intros Hk Hc. destruct unsupported_inv as (Hd & Hf & Hi & Hs).
  unfold get_value.
  eapply runs_pure.
  { destruct dest as [d|]; [rewrite (Hc d eq_refl)|]; reflexivity. }
  eapply runs_step; [apply after_refl| |].
  { eapply get_var_rank_runs; eauto. }
  intros w1 H1. simpl in H1.
  eapply runs_step; [exact H1| |].
  { eapply get_var_type_runs; eauto.
    rewrite (after_lib _ _ _ _ H1). exact Hk. }
  intros w2 H2. simpl in H2.
  destruct (Z.of_nat (length (kv_shape v)) =? 0) eqn:Er.
  - rewrite Hs.
    eapply runs_weaken.
    + apply runs_bind_raise.
      eapply get_value_ptr_scalar_unsupported; [exact Hk|exact H2|].
      repeat constructor.
    + intros w' (t' & Ha & Hn). eauto.
  - eapply runs_step; [exact H2| |].
    { eapply get_var_shape_runs; eauto.
      rewrite (after_lib _ _ _ _ H2). exact Hk. }
    intros w3 H3. simpl in H3.
    eapply runs_pure; [reflexivity|].
    rewrite Hd, Hi, Hs. apply runs_raise.
    eexists _, _. split; [exact H3|]. repeat constructor.
Qed.

Lemma get_value_ptr_unsupported w :
  lib w = k ->
  runs (get_value_ptr rt name) w
       (Raise (InputError (lit "Unsupported value type " ++ repr_str rt (kv_type v))))
       (fun w' => exists h t, after w h t w' /\ no_transfer t).
Proof.
  intros Hk. destruct unsupported_inv as (Hd & Hf & Hi & Hs).
  unfold get_value_ptr.
  eapply runs_step; [apply after_refl| |].
  { eapply get_var_rank_runs; eauto. }
  intros w1 H1. simpl in H1.
  destruct (Z.of_nat (length (kv_shape v)) =? 0) eqn:Er.
  - eapply runs_weaken.
    + eapply get_value_ptr_scalar_unsupported; [exact Hk|exact H1|].
      repeat constructor.
    + intros w' (t' & Ha & Hn). eauto.
  - eapply runs_step; [exact H1| |].
    { eapply get_var_type_runs; eauto.
      rewrite (after_lib _ _ _ _ H1). exact Hk. }
    intros w2 H2. simpl in H2.
    eapply runs_step; [exact H2| |].
    { eapply get_var_shape_runs; eauto.
      rewrite (after_lib _ _ _ _ H2). exact Hk. }
    intros w3 H3. simpl in H3.
    eapply runs_pure; [reflexivity|].
    rewrite Hd, Hf, Hi. apply runs_bind_raise. apply runs_raise.
    eexists _, _. split; [exact H3|]. repeat constructor.
Qed.

Lemma set_value_unsupported w values :
  lib w = k -> flags_C values = true ->
  runs (set_value rt name values) w
       (Raise (InputError (lit "Unsupported value type")))
       (fun w' => exists h t, after w h t w' /\ no_transfer t).
Proof.
  intros Hk Hc. destruct unsupported_inv as (Hd & Hf & Hi & Hs).
  unfold set_value.
  eapply runs_pure; [rewrite Hc; reflexivity|].
  eapply runs_step; [apply after_refl| |].
  { eapply get_var_type_runs; eauto. }
  intros w1 H1. simpl in H1.
  rewrite Hd, Hi. apply runs_raise.
  eexists _, _. split; [exact H1|]. repeat constructor.
Qed.

End Unsupported.

(** C5.  On a kernel that follows the convention, a variable whose type
    string starts, in any letter case, with none of "double", "float",
    "int" and "string" is refused by [get_value], [get_value_ptr] and
    [set_value] with the unsupported-type error (the spec's
    UnsupportedTypeError is the source's [InputError] with this message),
    and the native calls made on the way are catalog queries only: none of
    [get_value], [get_value_ptr] and [set_value] is called. *)
Theorem unsupported_type_rejected (rt : Runtime) (k : Kernel) (name : list Z)
    (v : KVar) (w : World) :
  serves k name v -> lib w = k -> unsupported (kv_type v) = true ->
  (forall dest, (forall d, dest = Some d -> flags_C d = true) ->
     exists w' h t,
       get_value rt name dest w =
         (Raise (InputError (lit "Unsupported value type " ++ repr_str rt (kv_type v))),
          w') /\ after w h t w' /\ no_transfer t) /\
  (exists w' h t,
     get_value_ptr rt name w =
       (Raise (InputError (lit "Unsupported value type " ++ repr_str rt (kv_type v))),
        w') /\ after w h t w' /\ no_transfer t) /\
  (forall values, flags_C values = true ->
     exists w' h t,
       set_value rt name values w =
         (Raise (InputError (lit "Unsupported value type")), w') /\
       after w h t w' /\ no_transfer t).
Proof.
  intros Hs Hk Hu. split; [|split].
  - intros dest Hc.
    destruct (get_value_unsupported rt k name v Hs Hu w dest Hk Hc)
      as (w' & E & h & t & Ha & Hn). eauto 6.
  - destruct (get_value_ptr_unsupported rt k name v Hs Hu w Hk)
      as (w' & E & h & t & Ha & Hn). eauto 6.
  - intros values Hc.
    destruct (set_value_unsupported rt k name v Hs Hu w values Hk Hc)
      as (w' & E & h & t & Ha & Hn). eauto 6.
Qed.

Lemma unsupported_type_rejected_witness :
  exists w' h t,
    get_value_ptr Demo.runtime (lit "FLAG") Demo.world =
      (Raise (InputError (lit "Unsupported value type 'LOGICAL'")), w') /\
    after Demo.world h t w' /\ no_transfer t.
Proof.
  refine (proj1 (proj2 (unsupported_type_rejected Demo.runtime Demo.kernel (lit "FLAG")
            {| kv_type := lit "LOGICAL"; kv_shape := []; kv_nbytes := 4; kv_addr := 4 |}
            Demo.world _ _ _))).
  - split; try reflexivity.
    + exists 51. split; [reflexivity | vm_compute; discriminate].
  - reflexivity.
  - reflexivity.
Defined.

(** ** The shape of an aliased view *)

Lemma leading_zeros_firstn l : firstn (leading_zeros l) l = repeat 0 (leading_zeros l).
Proof.
  induction l as [|x l IH]; simpl; [reflexivity|].
  destruct (Z.eqb_spec x 0) as [->|_]; simpl; [f_equal; exact IH | reflexivity].
Qed.

Lemma leading_zeros_le l : (leading_zeros l <= length l)%nat.
Proof.
  induction l as [|x l IH]; simpl; [lia|]. destruct (x =? 0); simpl; lia.
Qed.

Lemma rev_repeat_zeros n : rev (repeat 0 n) = repeat 0 n.
Proof.
  induction n as [|n IH]; simpl; [reflexivity|].
  rewrite IH. clear IH. induction n as [|n IH]; simpl; [reflexivity|].
  f_equal. exact IH.
Qed.

(** The last [leading_zeros (rev l)] entries of [l] are zeros. *)
Lemma trailing_zeros l :
  skipn (length l - leading_zeros (rev l)) l = repeat 0 (leading_zeros (rev l)).
Proof.
  pose proof (firstn_rev (leading_zeros (rev l)) l) as H.
  rewrite leading_zeros_firstn in H.
  apply (f_equal (@rev Z)) in H. rewrite rev_involutive, rev_repeat_zeros in H.
  symmetry. exact H.
Qed.

(** [np.trim_zeros] removes the zeros at both ends and nothing else. *)
Lemma trim_zeros_decompose l :
  exists a b, l = repeat 0 a ++ trim_zeros l ++ repeat 0 b.
Proof.
  unfold trim_zeros.
  set (a := leading_zeros l). set (tz := leading_zeros (rev l)).
  set (n := (length l - tz - a)%nat).
  exists a, (tz - (a + n - (length l - tz)))%nat.
  rewrite <- (firstn_skipn a l) at 1. unfold a at 1. rewrite leading_zeros_firstn.
  fold a. f_equal.
  rewrite <- (firstn_skipn n (skipn a l)) at 1. f_equal.
  rewrite skipn_skipn.
  pose proof (leading_zeros_le l). pose proof (leading_zeros_le (rev l)) as Hr.
  rewrite length_rev in Hr. fold a in H. fold tz in Hr.
  replace (n + a)%nat with ((a + n - (length l - tz)) + (length l - tz))%nat by lia.
  rewrite <- skipn_skipn. unfold tz at 2. rewrite trailing_zeros. fold tz.
  apply skipn_repeat_zeros.
Qed.

Section AliasShape.

Variable rt : Runtime.

Lemma numeric_dispatch {A} var_type dt (e : exn) (f : dtype -> M A) w :
  numeric_dtype var_type = Some dt ->
  bind (if startswith (lower var_type) (lit "double") then ret float64
        else if startswith (lower var_type) (lit "float") then ret float32
        else if startswith (lower var_type) (lit "int") then ret int32
        else raise e) f w = f dt w.
Proof.
  unfold numeric_dtype. intros H.
  destruct (startswith _ (lit "double")); [inversion H; reflexivity|].
  destruct (startswith _ (lit "float")); [inversion H; reflexivity|].
  destruct (startswith _ (lit "int")); [inversion H; reflexivity|].
  discriminate H.
Qed.

Lemma runs_ext {A} (m m' : M A) w r P : m w = m' w -> runs m' w r P -> runs m w r P.
Proof. unfold runs. intros ->. auto. Qed.

(** The native "get value pointer" call, through the invoker, and the
    array built over the address it returns. *)
Lemma alias_runs k name v dt sh w :
  serves k name v -> lib w = k -> Forall (fun d => 0 < d) sh ->
  runs (f <- lib_attr ep_get_value_ptr ;;
        args <- _execute_function rt f [ABytes name; ANdptr None]
                  (Some (lit "for variable " ++ name)) ;;
        contents dt sh (arg_ndptr (args !! 1%nat))) w
       (Ok {| data := kv_addr v; nd_dtype := dt; shape := sh; flags_C := true |})
       (after w (heap w) [(ep_get_value_ptr, 0)]).
Proof.
  intros Hs Hk Hsh.
  eapply runs_bind; [eapply lib_attr_runs; [exact Hk | apply (sv_exports _ _ _ Hs)]|].
  intros w1 <-.
  eapply runs_bind.
  { apply execute_function_ok with (outs := [ABytes name; ANdptr (Some (kv_addr v))])
                                   (h := heap w).
    rewrite Hk. unfold native. rewrite (sv_succeeds _ _ _ Hs). simpl.
    unfold native_var. rewrite (sv_lookup _ _ _ Hs). reflexivity. }
  intros w1 H1. simpl. unfold contents.
  replace (existsb (fun d => d <=? 0) sh) with false; [apply runs_ret; exact H1|].
  symmetry. clear -Hsh. induction Hsh as [|d sh Hd _ IH]; simpl; [reflexivity|].
  rewrite IH. cbv beta in Hd. destruct (Z.leb_spec d 0); [lia | reflexivity].
Qed.

Lemma get_value_ptr_array_runs k name v dt w :
  serves k name v -> lib w = k -> kv_shape v <> [] ->
  numeric_dtype (kv_type v) = Some dt ->
  Forall (fun d => 0 < d) (trim_zeros (kv_shape v)) ->
  runs (get_value_ptr rt name) w
       (Ok {| data := kv_addr v; nd_dtype := dt; shape := trim_zeros (kv_shape v);
              flags_C := true |})
       (after w (heap w ++ [kv_shape v])
          [(ep_get_var_rank, 0); (ep_get_var_type, 0); (ep_get_var_rank, 0);
           (ep_get_var_shape, 0); (ep_get_value_ptr, 0)]).
Proof.
  intros Hs Hk Hr Hdt Hsh. unfold get_value_ptr.
  eapply runs_step; [apply after_refl| eapply get_var_rank_runs; eauto |].
  intros w1 H1. simpl in H1.
  destruct (Z.eqb_spec (Z.of_nat (length (kv_shape v))) 0) as [E|_].
  { destruct (kv_shape v); [congruence | simpl in E; lia]. }
  eapply runs_step; [exact H1| eapply get_var_type_runs; eauto |].
  { rewrite (after_lib _ _ _ _ H1). exact Hk. }
  intros w2 H2. simpl in H2.
  eapply runs_step; [exact H2| eapply get_var_shape_runs; eauto |].
  { rewrite (after_lib _ _ _ _ H2). exact Hk. }
  intros w3 H3. simpl in H3.
  assert (Hh1 : heap w1 = heap w) by apply (after_heap _ _ _ _ H1).
  assert (Hh2 : heap w2 = heap w) by (rewrite <- Hh1; apply (after_heap _ _ _ _ H2)).
  rewrite Hh2 in H3.
  assert (Hh3 : heap w3 = heap w ++ [kv_shape v]) by apply (after_heap _ _ _ _ H3).
  eapply runs_pure.
  { unfold read_block, gets. simpl. rewrite Hh3, Hh2.
    rewrite lookup_app_r by lia. rewrite Nat.sub_diag. reflexivity. }
  simpl. eapply runs_ext; [apply numeric_dispatch; exact Hdt|].
  eapply runs_weaken.
  - eapply alias_runs; eauto. rewrite (after_lib _ _ _ _ H3). exact Hk.
  - intros w4 H4. rewrite Hh3 in H4.
    exact (after_trans _ _ _ _ _ _ _ H3 H4).
Qed.

End AliasShape.

(** C7, as amended.  On a kernel that follows the convention, for a
    variable of rank at least 1 and of a numeric type, [get_value_ptr]
    returns a view over the kernel's storage whose shape is the catalog
    shape with the zero dimensions at both its ends removed, at the front as
    well as at the back, whenever the dimensions that remain are positive:
    the catalog shape is the shape of the view between two runs of zeros. *)
Theorem alias_shape_trimmed_at_both_ends (rt : Runtime) (k : Kernel)
    (name : list Z) (v : KVar) (dt : dtype) (w : World) :
  serves k name v -> lib w = k -> kv_shape v <> [] ->
  numeric_dtype (kv_type v) = Some dt ->
  Forall (fun d => 0 < d) (trim_zeros (kv_shape v)) ->
  exists view w',
    get_value_ptr rt name w = (Ok view, w') /\
    data view = kv_addr v /\ nd_dtype view = dt /\
    shape view = trim_zeros (kv_shape v) /\
    (exists a b, kv_shape v = repeat 0 a ++ shape view ++ repeat 0 b) /\
    Forall (fun d => 0 < d) (shape view).
Proof.
  intros Hs Hk Hr Hdt Hsh.
  destruct (get_value_ptr_array_runs rt k name v dt w Hs Hk Hr Hdt Hsh) as (w' & E & _).
  eexists _, w'. split; [exact E|]. simpl.
  repeat split; auto using trim_zeros_decompose.
Qed.

Lemma alias_shape_trimmed_at_both_ends_witness :
  exists view w',
    get_value_ptr Demo.runtime (lit "EDGE") Demo.world = (Ok view, w') /\
    data view = 3%nat /\ nd_dtype view = float64 /\
    shape view = [5] /\
    (exists a b, [0; 5] = repeat 0 a ++ shape view ++ repeat 0 b) /\
    Forall (fun d => 0 < d) (shape view).
Proof.
  refine (alias_shape_trimmed_at_both_ends Demo.runtime Demo.kernel (lit "EDGE")
            {| kv_type := lit "DOUBLE (5,0)"; kv_shape := [0; 5]; kv_nbytes := 0;
               kv_addr := 3 |} float64 Demo.world _ _ _ _ _).
  - split; try reflexivity.
    exists 51. split; [reflexivity | vm_compute; discriminate].
  - reflexivity.
  - discriminate.
  - reflexivity.
  - repeat constructor.
Defined.

(** C7, as the claim states it, fails: the catalog reports the shape (0, 5)
    for the variable EDGE, whose only trailing-zero trimming is (0, 5)
    itself, and the view that [get_value_ptr] returns has the shape (5). *)
Lemma alias_shape_keeps_no_leading_zero :
  fst (get_value_ptr Demo.runtime (lit "EDGE") Demo.world) =
    Ok {| data := 3; nd_dtype := float64; shape := [5]; flags_C := true |} /\
  (kv_shape <$> Demo.vars (lit "EDGE")) = Some [0; 5] /\
  trim_trailing_zeros [0; 5] = [0; 5] /\
  [5] <> trim_trailing_zeros [0; 5].
Proof.
  split; [vm_compute; reflexivity|].
  repeat split; try reflexivity. discriminate.
Qed.

(** ** Decoding fixed-width text *)

Lemma concat_rows_length (rows : list (list Z)) len :
  Forall (fun row => Z.of_nat (length row) = len) rows ->
  Z.of_nat (length (concat rows)) = Z.of_nat (length rows) * len.
Proof.
  induction 1 as [|row rows Hr _ IH]; simpl; [reflexivity|].
  rewrite length_app. lia.
Qed.

Lemma for_each_pure {A B} (xs : list A) (f : A -> res B) (ys : list B) w :
  Forall2 (fun x y => f x = Ok y) xs ys ->
  for_each xs (fun x => lift (f x)) w = (Ok ys, w).
Proof.
  induction 1 as [|x y xs ys Hxy _ IH]; simpl; [reflexivity|].
  unfold bind, lift at 1. rewrite Hxy, IH. reflexivity.
Qed.

(** Row [i] of the table is cut out by the slice of the generator. *)
Lemma rows_sliced (rows : list (list Z)) len pre s :
  0 < len ->
  Z.of_nat (length pre) = Z.of_nat s * len ->
  Forall (fun row => Z.of_nat (length row) = len /\
                     forallb is_ascii (upto_nul row) = true) rows ->
  Forall2 (fun i y =>
             decode_ascii (upto_nul (slice (pre ++ concat rows) (Z.of_nat i * len)
                                           ((Z.of_nat i + 1) * len))) = Ok y)
          (seq s (length rows)) (map upto_nul rows).
Proof.
  intros Hlen. revert pre s.
  induction rows as [|row rows IH]; intros pre s Hpre Hrows; simpl; [constructor|].
  inversion Hrows as [|? ? [Hw Ha] Hrest]; subst. constructor.
  - unfold slice.
    replace (Z.to_nat (Z.of_nat s * Z.of_nat (length row))) with (length pre) by lia.
    rewrite drop_app_length.
    replace (Z.to_nat _) with (length row) by lia.
    rewrite firstn_app, Nat.sub_diag, firstn_all. simpl. rewrite app_nil_r.
    unfold decode_ascii. rewrite Ha. reflexivity.
  - specialize (IH (pre ++ row) (S s)). rewrite <- app_assoc in IH.
    apply IH; [rewrite length_app; lia | exact Hrest].
Qed.

Lemma overwrite_same_length (new old : list Z) :
  length new = length old -> overwrite new old = new.
Proof.
  intros H. unfold overwrite.
  rewrite firstn_all2 by lia. rewrite skipn_all2 by lia. apply app_nil_r.
Qed.

Section Names.

Variable rt : Runtime.

(** Both tables are read in the same way. *)
Lemma names_run k len rows count_ep names_ep w :
  lists_names k len -> lib w = k ->
  Forall (fun row => Z.of_nat (length row) = len /\
                     forallb is_ascii (upto_nul row) = true) rows ->
  Z.of_nat (length rows) < 2 ^ 31 ->
  (forall n h, native k n count_ep [AInt 0] h =
                 (0, [AInt (wrap32 (Z.of_nat (length rows)))], h)) ->
  (forall n buf h, native k n names_ep [ABuf buf] h =
                     (0, [ABuf (overwrite (concat rows) buf)], h)) ->
  runs (len_address <- get_constant_int BMI_LENVARADDRESS ;;
        nr_vars <- (f <- lib_attr count_ep ;;
                    args <- _execute_function rt f [AInt 0] None ;;
                    ret (arg_int (args !! 0%nat))) ;;
        let len_names := nr_vars * len_address in
        names <- create_string_buffer len_names ;;
        f <- lib_attr names_ep ;;
        args <- _execute_function rt f [ABuf names] None ;;
        decode_names (arg_buf (args !! 0%nat)) len_address nr_vars) w
       (Ok (map upto_nul rows))
       (after w (heap w) [(count_ep, 0); (names_ep, 0)]).
Proof.
  intros Hl Hk Hrows Hfit Hcount Hnames.
  pose proof (ln_width_fits _ _ Hl) as Hlen.
  eapply runs_pure.
  { unfold get_constant_int. rewrite Hk, (ln_width _ _ Hl). reflexivity. }
  rewrite (wrap32_small len) by lia.
  eapply runs_step; [apply after_refl| |].
  { eapply runs_bind; [eapply lib_attr_runs; [exact Hk | apply (ln_exports _ _ Hl)]|].
    intros w1 <-. eapply runs_bind.
    - apply execute_function_ok. rewrite Hk. apply Hcount.
    - intros w1 H1. apply runs_ret. exact H1. }
  intros w1 H1. simpl in H1. simpl arg_int.
  rewrite (wrap32_small (Z.of_nat (length rows))) by lia.
  assert (Hk1 : lib w1 = k) by (rewrite (after_lib _ _ _ _ H1); exact Hk).
  assert (Hall : Forall (fun row => Z.of_nat (length row) = len) rows).
  { eapply Forall_impl; [exact Hrows|]. intros row (H & _). exact H. }
  pose proof (concat_rows_length rows len Hall) as Hcat.
  eapply runs_pure.
  { unfold create_string_buffer.
    destruct (Z.ltb_spec (Z.of_nat (length rows) * len) 0); [lia | reflexivity]. }
  eapply runs_bind; [eapply lib_attr_runs; [exact Hk1 | apply (ln_exports _ _ Hl)]|].
  intros w2 <-.
  eapply runs_bind.
  { apply execute_function_ok. rewrite Hk1. apply Hnames. }
  intros w2 H2. simpl arg_buf.
  rewrite overwrite_same_length by (rewrite repeat_length; lia).
  unfold decode_names. rewrite Nat2Z.id.
  exists w2. split.
  - apply for_each_pure.
    apply (rows_sliced rows len [] 0%nat); [lia | simpl; lia | exact Hrows].
  - rewrite (after_heap _ _ _ _ H1) in H2.
    exact (after_trans _ _ _ _ _ _ _ H1 H2).
Qed.

Lemma get_input_var_names_runs k len w :
  lists_names k len -> lib w = k ->
  runs (get_input_var_names rt) w (Ok (map upto_nul (k_input_names k)))
       (after w (heap w) [(ep_get_input_item_count, 0); (ep_get_input_var_names, 0)]).
Proof.
  intros Hl Hk.
  apply (names_run k len (k_input_names k) ep_get_input_item_count
           ep_get_input_var_names w Hl Hk (ln_inputs _ _ Hl) (ln_inputs_fit _ _ Hl)).
  - intros n h. unfold native. rewrite (ln_succeeds _ _ Hl). reflexivity.
  - intros n buf h. unfold native. rewrite (ln_succeeds _ _ Hl). reflexivity.
Qed.

Lemma get_output_var_names_runs k len w :
  lists_names k len -> lib w = k ->
  runs (get_output_var_names rt) w (Ok (map upto_nul (k_output_names k)))
       (after w (heap w) [(ep_get_output_item_count, 0); (ep_get_output_var_names, 0)]).
Proof.
  intros Hl Hk.
  apply (names_run k len (k_output_names k) ep_get_output_item_count
           ep_get_output_var_names w Hl Hk (ln_outputs _ _ Hl) (ln_outputs_fit _ _ Hl)).
  - intros n h. unfold native. rewrite (ln_succeeds _ _ Hl). reflexivity.
  - intros n buf h. unfold native. rewrite (ln_succeeds _ _ Hl). reflexivity.
Qed.

End Names.

(** ** Stripping the padding *)

Lemma drop_while_all p x y : forallb p x = true -> drop_while p (x ++ y) = drop_while p y.
Proof.
  induction x as [|c x IH]; simpl; intros H; [reflexivity|].
  apply andb_prop in H as [-> H]. auto.
Qed.

Lemma drop_while_length p l : (length (drop_while p l) <= length l)%nat.
Proof.
  induction l as [|c l IH]; simpl; [lia|]. destruct (p c); simpl; lia.
Qed.

Lemma drop_while_fixed p s y :
  s <> [] -> drop_while p s = s -> drop_while p (s ++ y) = s ++ y.
Proof.
  destruct s as [|c s]; [congruence|]. simpl. intros _ H.
  destruct (p c); [|reflexivity].
  pose proof (drop_while_length p s) as Hl. rewrite H in Hl. simpl in Hl. lia.
Qed.

Lemma drop_while_end_all p s x :
  forallb p x = true -> drop_while_end p (s ++ x) = drop_while_end p s.
Proof.
  intros H. unfold drop_while_end. rewrite rev_app_distr.
  rewrite drop_while_all; [reflexivity|].
  rewrite forallb_forall in *. intros c Hc. apply H. apply in_rev. exact Hc.
Qed.

Lemma drop_while_end_fixed p s : drop_while p (rev s) = rev s -> drop_while_end p s = s.
Proof. unfold drop_while_end. intros ->. apply rev_involutive. Qed.

Lemma is_text_app x y : is_text (x ++ y) = is_text x && is_text y.
Proof. apply forallb_app. Qed.

Lemma is_text_rev s : is_text s = true -> is_text (rev s) = true.
Proof.
  unfold is_text. rewrite !forallb_forall. intros H c Hc. apply H, in_rev, Hc.
Qed.

Lemma text_no_leading_nul s : is_text s = true -> drop_while is_nul s = s.
Proof.
  destruct s as [|c s]; simpl; [reflexivity|]. intros H.
  apply andb_prop in H as [H _]. apply andb_prop in H as [_ H].
  apply negb_true_iff in H. rewrite H. reflexivity.
Qed.

Lemma rstrip_nul_text s n : is_text s = true -> rstrip_nul (s ++ repeat 0 n) = s.
Proof.
  intros H. unfold rstrip_nul. rewrite drop_while_end_all.
  - apply drop_while_end_fixed, text_no_leading_nul, is_text_rev, H.
  - clear. induction n; simpl; auto.
Qed.

Lemma spaces_text n : is_text (repeat 32 n) = true.
Proof. induction n; simpl; auto. Qed.

Lemma spaces_space n : forallb is_space (repeat 32 n) = true.
Proof. induction n; simpl; auto. Qed.

Lemma rstrip_nul_padded s a b :
  is_text s = true -> rstrip_nul (padded s a b) = s ++ repeat 32 a.
Proof.
  intros H. unfold padded. rewrite app_assoc. apply rstrip_nul_text.
  rewrite is_text_app, H, spaces_text. reflexivity.
Qed.

Lemma strip_spaces s a : trimmed s -> strip (s ++ repeat 32 a) = s.
Proof.
  intros (_ & Hl & Hr). unfold strip. destruct s as [|c s].
  - simpl. rewrite <- (app_nil_r (repeat 32 a)).
    rewrite drop_while_all by apply spaces_space. reflexivity.
  - rewrite drop_while_fixed by (congruence || exact Hl).
    rewrite drop_while_end_all by apply spaces_space.
    apply drop_while_end_fixed, Hr.
Qed.

Lemma fit_text w s : (length s <= w)%nat -> fit w s = s ++ repeat 0 (w - length s).
Proof. intros H. unfold fit. rewrite firstn_all2 by lia. reflexivity. Qed.

Lemma fit_length w s : length (fit w s) = w.
Proof.
  unfold fit. rewrite length_app, length_take, repeat_length. lia.
Qed.

(** A padded field is stored back as its text, and reads as its text. *)
Lemma clean_field_padded w s a b :
  trimmed s -> (length s <= w)%nat ->
  clean_field w (padded s a b) = s ++ repeat 0 (w - length s).
Proof.
  intros Ht Hw. unfold clean_field. pose proof Ht as (Htx & _).
  rewrite rstrip_nul_padded by exact Htx.
  rewrite strip_spaces by exact Ht. apply fit_text, Hw.
Qed.

Lemma padded_ascii s a b :
  is_text s = true -> forallb is_ascii (rstrip_nul (padded s a b)) = true.
Proof.
  intros H. rewrite rstrip_nul_padded by exact H.
  assert (Ht : is_text (s ++ repeat 32 a) = true)
    by (rewrite is_text_app, H, spaces_text; reflexivity).
  unfold is_text in Ht. rewrite forallb_forall in *.
  intros c Hc. specialize (Ht c Hc). apply andb_prop in Ht as [Ht _]. exact Ht.
Qed.

Lemma element_whole w cells : length cells = w -> element w 0 cells = cells.
Proof. intros <-. unfold element. simpl. apply firstn_all. Qed.

Lemma concat_fields_length (fields : list (list Z)) w :
  Forall (fun f => length f = w) fields -> length (concat fields) = (length fields * w)%nat.
Proof.
  induction 1 as [|f fields Hf _ IH]; simpl; [reflexivity|].
  rewrite length_app, IH, Hf. reflexivity.
Qed.

Lemma element_concat (done todo : list (list Z)) f w :
  Forall (fun f => length f = w) done -> length f = w ->
  element w (length done) (concat (done ++ f :: todo)) = f.
Proof.
  intros Hd Hf. unfold element. rewrite concat_app. simpl.
  rewrite drop_app_length' by (symmetry; apply concat_fields_length, Hd).
  rewrite firstn_app, Hf, Nat.sub_diag, firstn_all2 by lia. simpl. apply app_nil_r.
Qed.

Lemma set_element_concat (done todo : list (list Z)) f v w :
  Forall (fun f => length f = w) done -> length f = w ->
  set_element w (length done) v (concat (done ++ f :: todo)) =
  concat (done ++ fit w v :: todo).
Proof.
  intros Hd Hf. unfold set_element. rewrite !concat_app. simpl.
  pose proof (concat_fields_length done w Hd) as Hl.
  rewrite firstn_app, <- Hl, Nat.sub_diag, firstn_all. simpl. rewrite app_nil_r.
  f_equal. f_equal.
  rewrite app_assoc. rewrite drop_app_length'; [reflexivity|].
  rewrite length_app. lia.
Qed.

Lemma for_each_mapped {A B C} (xs : list A) (g : A -> res B) (h : B -> C)
    (ys : list B) w :
  Forall2 (fun x y => g x = Ok y) xs ys ->
  for_each xs (fun x => v <- lift (g x) ;; ret (h v)) w = (Ok (map h ys), w).
Proof.
  induction 1 as [|x y xs ys Hxy _ IH]; simpl; [reflexivity|].
  unfold bind at 1 2, lift at 1, ret at 1. rewrite Hxy.
  unfold bind at 1. rewrite IH. reflexivity.
Qed.

Section Strings.

Variable rt : Runtime.

(** The loop [for i, x in enumerate(dest): dest[i] = x.decode("ascii").strip()]
    over the fields not yet visited. *)
Lemma strip_loop dest w (todo done : list (list Z)) wd :
  nd_dtype dest = bytes_ w -> (exists n, shape dest = [n]) ->
  heap wd !! data dest = Some (concat (done ++ todo)) ->
  Forall (fun f => length f = w) done ->
  Forall (fun f => length f = w /\ forallb is_ascii (rstrip_nul f) = true) todo ->
  runs (for_each (seq (length done) (length todo)) (strip_element dest)) wd
       (Ok (repeat tt (length todo)))
       (after wd (<[data dest := concat (done ++ map (clean_field w) todo)]> (heap wd)) []).
Proof.
  intros Hdt (n & Hsh). revert done wd.
  induction todo as [|f todo IH]; intros done wd Hh Hd Ht; simpl.
  - apply runs_ret. rewrite list_insert_id by exact Hh. apply after_refl.
  - apply Forall_cons_iff in Ht as [(Hf & Ha) Ht'].
    eapply runs_bind with
      (a := tt)
      (P := after wd (<[data dest := concat ((done ++ [clean_field w f]) ++ todo)]>
                        (heap wd)) []).
    { unfold strip_element. rewrite Hdt, Hsh.
      unfold runs, bind, read_block, write_block, gets, modify, lift.
      rewrite Hh. simpl. rewrite element_concat by assumption.
      unfold decode_ascii. rewrite Ha.
      eexists. split; [reflexivity|].
      rewrite set_element_concat by assumption.
      rewrite <- app_assoc. simpl.
      unfold after. simpl. rewrite app_nil_r. tauto. }
    intros w1 H1.
    assert (Hlt : (data dest < length (heap wd))%nat)
      by (eapply lookup_lt_Some; exact Hh).
    specialize (IH (done ++ [clean_field w f]) w1).
    rewrite length_app in IH. simpl in IH. rewrite Nat.add_1_r in IH.
    eapply runs_bind.
    + apply IH.
      * rewrite (after_heap _ _ _ _ H1). apply list_lookup_insert_eq. exact Hlt.
      * apply Forall_app. split; [exact Hd|]. repeat constructor. apply fit_length.
      * exact Ht'.
    + intros w2 H2. apply runs_ret.
      rewrite (after_heap _ _ _ _ H1) in H2. rewrite list_insert_insert_eq in H2.
      rewrite <- app_assoc in H2. simpl in H2.
      exact (after_trans _ _ _ _ _ _ _ H1 H2).
Qed.

(** [dest.astype(str)] once every field holds its text. *)
Lemma astype_str_runs dest w (texts : list (list Z)) wd :
  nd_dtype dest = bytes_ w -> size (shape dest) = length texts ->
  heap wd !! data dest = Some (concat (map (fit w) texts)) ->
  Forall (fun s => is_text s = true /\ (length s <= w)%nat) texts ->
  runs (astype_str rt dest) wd
       (Ok {| data := length (heap wd); nd_dtype := str_ w; shape := shape dest;
              flags_C := true |})
       (after wd (heap wd ++ [concat (map (fit w) texts)]) []).
Proof.
  intros Hdt Hsz Hh Ht. unfold astype_str.
  eapply runs_pure; [unfold read_block, gets; rewrite Hh; reflexivity|].
  simpl. rewrite Hdt, Hsz.
  eapply runs_pure.
  { apply for_each_mapped with (ys := texts).
    assert (G : forall (done : list (list Z)),
              Forall (fun s => is_text s = true /\ (length s <= w)%nat) done ->
              Forall2 (fun i y =>
                decode_ascii (rstrip_nul
                  (element w i (concat (map (fit w) (done ++ texts))))) = Ok y)
                (seq (length done) (length texts)) texts).
    { clear Hh Hsz. induction texts as [|s texts IH]; intros done Hdone; simpl.
      - constructor.
      - apply Forall_cons_iff in Ht as [(Hs & Hl) Ht']. constructor.
        + rewrite map_app. simpl.
          replace (length done) with (length (map (fit w) done)) by apply length_map.
          rewrite element_concat.
          * rewrite fit_text by exact Hl. rewrite rstrip_nul_text by exact Hs.
            apply decode_ascii_text, Hs.
          * apply Forall_map. apply Forall_true. intros x. apply fit_length.
          * apply fit_length.
        + specialize (IH Ht' (done ++ [s])).
          rewrite length_app in IH. simpl in IH. rewrite Nat.add_1_r in IH.
          rewrite <- app_assoc in IH. simpl in IH. apply IH.
          apply Forall_app. split; [exact Hdone|]. repeat constructor; assumption. }
    apply (G []). constructor. }
  unfold runs, bind, allocate, ret. eexists. split; [reflexivity|].
  unfold after. simpl. rewrite app_nil_r. tauto.
Qed.

End Strings.

Lemma startswith_string (s : list Z) :
  startswith s (lit "string") = true ->
  startswith s (lit "double") = false /\ startswith s (lit "int") = false.
Proof.
  change (lit "string") with (115 :: lit "tring").
  change (lit "double") with (100 :: lit "ouble").
  change (lit "int") with (105 :: lit "nt").
  destruct s as [|c s]; simpl; [discriminate|].
  destruct (Z.eqb_spec c 115) as [->|]; [|discriminate]. auto.
Qed.

Lemma padded_fields_clean w (fields texts : list (list Z)) :
  Forall2 (fun field s => (exists a b, field = padded s a b) /\ trimmed s /\
                          length field = w) fields texts ->
  map (clean_field w) fields = map (fit w) texts /\
  Forall (fun f => length f = w /\ forallb is_ascii (rstrip_nul f) = true) fields /\
  Forall (fun s => is_text s = true /\ (length s <= w)%nat) texts /\
  length fields = length texts.
Proof.
  induction 1 as [|field s fields texts ((a & b & ->) & Ht & Hl) _ IH]; simpl.
  - repeat split; constructor.
  - destruct IH as (IH1 & IH2 & IH3 & IH4).
    assert (Hs : (length s <= w)%nat).
    { unfold padded in Hl. rewrite length_app in Hl. lia. }
    pose proof Ht as (Htx & _).
    repeat split.
    + rewrite IH1. f_equal. rewrite clean_field_padded by assumption.
      symmetry. apply fit_text, Hs.
    + constructor; [|exact IH2]. split; [exact Hl|]. apply padded_ascii, Htx.
    + constructor; [|exact IH3]. split; assumption.
    + f_equal. exact IH4.
Qed.

Section StringValues.

Variable rt : Runtime.
Variables (k : Kernel) (name : list Z) (v : KVar).
Hypothesis Hserves : serves k name v.

(** The native "get value" call into a fresh destination of the size of
    the storage. *)
Lemma fill_runs w0 w base src old a ta :
  lib w0 = k -> after w0 (base ++ [old]) ta w -> a = length base ->
  base !! kv_addr v = Some src -> length old = length src ->
  runs (f <- lib_attr ep_get_value ;;
        _execute_function rt f [ABytes name; APtr a] None) w
       (Ok [ABytes name; APtr a])
       (after w0 (base ++ [src]) (ta ++ [(ep_get_value, 0)])).
Proof.
  intros Hk Ha -> Hsrc Hlen.
  assert (Hk' : lib w = k) by (rewrite (after_lib _ _ _ _ Ha); exact Hk).
  eapply runs_weaken.
  - apply query_runs with (k := k) (h := base ++ [src]);
      [exact Hk' | apply (sv_exports _ _ _ Hserves) |].
    unfold native. rewrite (sv_succeeds _ _ _ Hserves). simpl.
    unfold native_var. rewrite (sv_lookup _ _ _ Hserves). simpl.
    rewrite (after_heap _ _ _ _ Ha).
    rewrite lookup_app_l by (eapply lookup_lt_Some; exact Hsrc). rewrite Hsrc.
    rewrite lookup_app_r by lia. rewrite Nat.sub_diag. simpl.
    rewrite insert_app_r_alt by lia. rewrite Nat.sub_diag. simpl.
    rewrite overwrite_same_length by (symmetry; exact Hlen). reflexivity.
  - intros w1 H1. exact (after_trans _ _ _ _ _ _ _ Ha H1).
Qed.

Lemma junk_length (g : nat -> Z) n : length (map g (seq 0 n)) = n.
Proof. rewrite length_map. apply length_seq. Qed.

(** A string variable of rank at least 1, read without a destination. *)
Lemma get_value_strings_runs w n0 rest width (fields texts : list (list Z)) :
  lib w = k ->
  startswith (lower (kv_type v)) (lit "string") = true ->
  kv_shape v = n0 :: rest -> n0 = Z.of_nat (length texts) -> 0 < n0 ->
  0 <= wrap32 (kv_nbytes v) / n0 ->
  width = Z.to_nat (wrap32 (kv_nbytes v) / n0 + 1) ->
  heap w !! kv_addr v = Some (concat fields) ->
  Forall2 (fun field s => (exists a b, field = padded s a b) /\ trimmed s /\
                          length field = width) fields texts ->
  runs (get_value rt name None) w
       (Ok {| data := S (S (length (heap w))); nd_dtype := str_ width;
              shape := [n0]; flags_C := true |})
       (fun w' => heap w' !! S (S (length (heap w))) =
                    Some (concat (map (fit width) texts)) /\
                  heap w' !! kv_addr v = Some (concat fields)).
Proof.
  intros Hk Hty Hsh Hn0 Hpos Hilen Hwidth Hsrc Hfields.
  destruct (startswith_string _ Hty) as (Hd & Hi).
  destruct (padded_fields_clean _ _ _ Hfields) as (Hclean & Hf & Ht & Hlen).
  assert (Hfl : Forall (fun f => length f = width) fields)
    by (eapply Forall_impl; [exact Hf | intros f (H & _); exact H]).
  pose proof (concat_fields_length _ _ Hfl) as Hcat.
  unfold get_value.
  eapply runs_pure; [reflexivity|].
  eapply runs_step; [apply after_refl| eapply get_var_rank_runs; eauto |].
  intros w1 H1. simpl in H1.
  eapply runs_step; [exact H1| eapply get_var_type_runs; eauto |].
  { rewrite (after_lib _ _ _ _ H1). exact Hk. }
  intros w2 H2. simpl in H2. rewrite (after_heap _ _ _ _ H1) in H2.
  destruct (Z.eqb_spec (Z.of_nat (length (kv_shape v))) 0) as [E|_].
  { rewrite Hsh in E. simpl in E. lia. }
  eapply runs_step; [exact H2| eapply get_var_shape_runs; eauto |].
  { rewrite (after_lib _ _ _ _ H2). exact Hk. }
  intros w3 H3. simpl in H3. rewrite (after_heap _ _ _ _ H2) in H3.
  pose proof (after_heap _ _ _ _ H3) as Hh3.
  eapply runs_pure.
  { unfold read_block, gets. simpl. rewrite Hh3, (after_heap _ _ _ _ H2).
    rewrite lookup_app_r by lia. rewrite Nat.sub_diag. reflexivity. }
  simpl. rewrite Hd, Hi, Hty, Hsh. simpl.
  destruct (Z.eqb_spec n0 0) as [E|_]; [lia|].
  eapply runs_step; [exact H3| eapply get_var_nbytes_runs; eauto |].
  { rewrite (after_lib _ _ _ _ H3). exact Hk. }
  intros w4 H4. simpl in H4. rewrite Hh3 in H4.
  eapply runs_pure with (a := bytes_ width).
  { unfold lift, dtype_S.
    destruct (Z.ltb_spec (wrap32 (kv_nbytes v) / n0 + 1) 0); [lia|].
    destruct (Z.eqb_spec (wrap32 (kv_nbytes v) / n0 + 1) 0); [lia|].
    rewrite Hwidth. reflexivity. }
  set (dest := {| data := S (length (heap w)); nd_dtype := bytes_ width;
                  shape := [n0]; flags_C := true |}).
  set (old := map (junk w4 (S (length (heap w)))) (seq 0 (length fields * width))).
  eapply runs_bind with (a := dest)
    (P := after w ((heap w ++ [kv_shape v]) ++ [old])
            [(ep_get_var_rank, 0); (ep_get_var_type, 0); (ep_get_var_rank, 0);
             (ep_get_var_shape, 0); (ep_get_var_nbytes, 0)]).
  { unfold np_empty, negative_dim. simpl. rewrite orb_false_r.
    destruct (Z.ltb_spec n0 0); [lia|].
    unfold runs, bind, allocate, ret. cbn beta iota.
    rewrite (after_heap _ _ _ _ H4). rewrite length_app. simpl.
    rewrite Nat.add_1_r. eexists. split; [reflexivity|].
    destruct H4 as (? & ? & ? & ? & ? & ? & ? & ? & ? & ?).
    unfold after. simpl. unfold size. simpl. rewrite Z.mul_1_r, Hn0, Nat2Z.id.
    subst old. rewrite Hlen. tauto. }
  intros w5 H5.
  apply runs_bind_assoc. eapply runs_bind.
  { apply (fill_runs w w5 (heap w ++ [kv_shape v]) (concat fields) old
                     (S (length (heap w))) _ Hk H5).
    - rewrite length_app. simpl. lia.
    - rewrite lookup_app_l by (eapply lookup_lt_Some; exact Hsrc). exact Hsrc.
    - subst old. rewrite junk_length. symmetry. exact Hcat. }
  intros w6 H6.
  assert (Ha : S (length (heap w)) = length (heap w ++ [kv_shape v]))
    by (rewrite length_app; simpl; lia).
  assert (Hh6 : heap w6 !! data dest = Some (concat ([] ++ fields))).
  { rewrite (after_heap _ _ _ _ H6). simpl. rewrite Ha.
    rewrite lookup_app_r by lia. rewrite Nat.sub_diag. reflexivity. }
  eapply runs_bind.
  { rewrite Hn0, Nat2Z.id, <- Hlen.
    apply (strip_loop dest width fields [] w6); eauto. }
  intros w7 H7. simpl in H7. rewrite Hclean in H7.
  rewrite (after_heap _ _ _ _ H6) in H7. rewrite Ha in H7.
  rewrite insert_app_r_alt in H7 by lia. rewrite Nat.sub_diag in H7. simpl in H7.
  pose proof (after_heap _ _ _ _ H7) as Hh7.
  assert (Hl7 : length (heap w7) = S (S (length (heap w))))
    by (rewrite Hh7, !length_app; simpl; lia).
  rewrite <- Hl7. change [n0] with (shape dest).
  eapply runs_weaken.
  - apply astype_str_runs with (w := width) (texts := texts).
    + reflexivity.
    + simpl. unfold size. simpl. rewrite Z.mul_1_r, Hn0. apply Nat2Z.id.
    + rewrite Hh7. simpl. rewrite Ha.
      rewrite lookup_app_r by lia. rewrite Nat.sub_diag. reflexivity.
    + exact Ht.
  - intros w8 H8. pose proof (after_heap _ _ _ _ H8) as Hh8.
    rewrite Hh8. split.
    + rewrite lookup_app_r by lia. rewrite Nat.sub_diag. reflexivity.
    + rewrite Hh7. rewrite <- !app_assoc.
      rewrite lookup_app_l by (eapply lookup_lt_Some; exact Hsrc). exact Hsrc.
Qed.

(** A string variable of rank 0, read without a destination. *)
Lemma get_value_string_runs w width field s :
  lib w = k ->
  startswith (lower (kv_type v)) (lit "string") = true ->
  kv_shape v = [] -> 0 <= wrap32 (kv_nbytes v) ->
  width = Z.to_nat (wrap32 (kv_nbytes v) + 1) ->
  heap w !! kv_addr v = Some field ->
  (exists a b, field = padded s a b) -> trimmed s -> length field = width ->
  runs (get_value rt name None) w
       (Ok {| data := S (length (heap w)); nd_dtype := str_ width;
              shape := [1]; flags_C := true |})
       (fun w' => heap w' !! S (length (heap w)) = Some (fit width s) /\
                  heap w' !! kv_addr v = Some field).
Proof.
  intros Hk Hty Hsh Hilen Hwidth Hsrc Hpad Htr Hfl.
  assert (Hfields : Forall2 (fun field s => (exists a b, field = padded s a b) /\
                               trimmed s /\ length field = width) [field] [s])
    by (constructor; [auto | constructor]).
  destruct (padded_fields_clean _ _ _ Hfields) as (Hclean & Hf & Ht & _).
  simpl in Hclean. injection Hclean as Hclean1.
  unfold get_value.
  eapply runs_pure; [reflexivity|].
  eapply runs_step; [apply after_refl| eapply get_var_rank_runs; eauto |].
  intros w1 H1. simpl in H1.
  eapply runs_step; [exact H1| eapply get_var_type_runs; eauto |].
  { rewrite (after_lib _ _ _ _ H1). exact Hk. }
  intros w2 H2. simpl in H2. rewrite (after_heap _ _ _ _ H1) in H2.
  rewrite Hsh. simpl. rewrite Hty.
  eapply runs_step; [exact H2| eapply get_var_nbytes_runs; eauto |].
  { rewrite (after_lib _ _ _ _ H2). exact Hk. }
  intros w3 H3. simpl in H3. rewrite (after_heap _ _ _ _ H2) in H3.
  set (dest := {| data := length (heap w); nd_dtype := bytes_ width;
                  shape := [1]; flags_C := true |}).
  set (old := map (junk w3 (length (heap w))) (seq 0 width)).
  eapply runs_bind with (a := dest)
    (P := after w (heap w ++ [old])
            [(ep_get_var_rank, 0); (ep_get_var_type, 0); (ep_get_var_nbytes, 0)]).
  { eapply runs_pure with (a := bytes_ width).
    { unfold lift, dtype_S.
      destruct (Z.ltb_spec (wrap32 (kv_nbytes v) + 1) 0); [lia|].
      destruct (Z.eqb_spec (wrap32 (kv_nbytes v) + 1) 0); [lia|].
      rewrite Hwidth. reflexivity. }
    unfold np_empty, negative_dim. simpl.
    unfold runs, bind, allocate, ret. cbn beta iota.
    rewrite (after_heap _ _ _ _ H3). eexists. split; [reflexivity|].
    destruct H3 as (? & ? & ? & ? & ? & ? & ? & ? & ? & ?).
    unfold after. simpl. unfold size. simpl.
    subst old. rewrite Nat.add_0_r. tauto. }
  intros w4 H4.
  apply runs_bind_assoc. eapply runs_bind.
  { apply (fill_runs w w4 (heap w) field old (length (heap w)) _ Hk H4);
      [reflexivity | exact Hsrc |].
    subst old. rewrite junk_length. symmetry. exact Hfl. }
  intros w5 H5. simpl.
  assert (Hh5 : heap w5 !! data dest = Some (concat ([] ++ [field]))).
  { rewrite (after_heap _ _ _ _ H5). simpl.
    rewrite lookup_app_r by lia. rewrite Nat.sub_diag, app_nil_r. reflexivity. }
  eapply runs_bind with (a := tt)
    (P := after w5 (<[data dest := concat ([] ++ map (clean_field width) [field])]>
                      (heap w5)) []).
  { destruct (strip_loop dest width [field] [] w5 eq_refl (ex_intro _ 1 eq_refl)
                Hh5 ltac:(constructor) Hf) as (w6 & E & Ha).
    simpl in E. unfold bind, ret in E.
    exists w6. split; [|exact Ha].
    destruct (strip_element dest 0 w5) as [[[]|e] w'] eqn:E'; inversion E; reflexivity. }
  intros w6 H6. simpl in H6. rewrite Hclean1, app_nil_r in H6.
  rewrite (after_heap _ _ _ _ H5) in H6.
  rewrite insert_app_r_alt in H6 by lia. rewrite Nat.sub_diag in H6. simpl in H6.
  pose proof (after_heap _ _ _ _ H6) as Hh6.
  assert (Hl6 : length (heap w6) = S (length (heap w)))
    by (rewrite Hh6, length_app; simpl; lia).
  rewrite <- Hl6. change [1] with (shape dest).
  eapply runs_weaken.
  - apply astype_str_runs with (w := width) (texts := [s]).
    + reflexivity.
    + reflexivity.
    + rewrite Hh6. simpl.
      rewrite lookup_app_r by lia. rewrite Nat.sub_diag, app_nil_r. reflexivity.
    + exact Ht.
  - intros w7 H7. pose proof (after_heap _ _ _ _ H7) as Hh7.
    rewrite Hh7. split.
    + rewrite lookup_app_r by lia. rewrite Nat.sub_diag. simpl.
      rewrite app_nil_r. reflexivity.
    + rewrite Hh6. rewrite <- !app_assoc.
      rewrite lookup_app_l by (eapply lookup_lt_Some; exact Hsrc). exact Hsrc.
Qed.

End StringValues.

Lemma item_concat_fit w (texts : list (list Z)) i s :
  Forall (fun s => is_text s = true /\ (length s <= w)%nat) texts ->
  texts !! i = Some s ->
  item w i (concat (map (fit w) texts)) = s.
Proof.
  intros Ht Hi. pose proof (take_drop_middle _ _ _ Hi) as Hsplit.
  assert (Hs : is_text s = true /\ (length s <= w)%nat).
  { rewrite Forall_forall in Ht. apply Ht.
    eapply list_elem_of_lookup_2. exact Hi. }
  destruct Hs as (Hs & Hl).
  rewrite <- Hsplit. rewrite map_app. simpl. unfold item.
  replace i with (length (map (fit w) (take i texts))) at 1.
  - rewrite element_concat.
    + rewrite fit_text by exact Hl. apply rstrip_nul_text, Hs.
    + apply Forall_map. apply Forall_true. intros x. apply fit_length.
    + apply fit_length.
  - rewrite length_map, length_take. apply lookup_lt_Some in Hi. lia.
Qed.

Section TextBuffers.

Variable rt : Runtime.

(** A text that the kernel writes into a character buffer of the length
    it exports comes back as it is. *)
Lemma text_buffer_runs k w c ep len text :
  lib w = k -> k_exports k ep = true -> (forall n, k_script k n ep = 0) ->
  k_constants k c = Some len ->
  is_text text = true -> Z.of_nat (length text) <= wrap32 len ->
  (forall buf h, native_body k ep [ABuf buf] h = (0, [ABuf (overwrite text buf)], h)) ->
  runs (n <- get_constant_int c ;;
        buffer <- create_string_buffer n ;;
        f <- lib_attr ep ;;
        args <- _execute_function rt f [ABuf buffer] None ;;
        lift (decode_ascii (upto_nul (arg_buf (args !! 0%nat))))) w
       (Ok text) (after w (heap w) [(ep, 0)]).
Proof.
  intros Hk Hx Hs Hc Ht Hl Hn.
  eapply runs_pure.
  { unfold get_constant_int. rewrite Hk, Hc. reflexivity. }
  eapply runs_pure.
  { unfold create_string_buffer.
    destruct (Z.ltb_spec (wrap32 len) 0); [lia | reflexivity]. }
  eapply runs_bind; [eapply lib_attr_runs; eauto|].
  intros w1 <-. eapply runs_bind.
  { apply execute_function_ok. rewrite Hk. unfold native. rewrite Hs. apply Hn. }
  intros w1 H1. simpl. apply runs_lift_ok; [|exact H1].
  apply field_decodes; [exact Ht | lia].
Qed.

End TextBuffers.

(** C8.  Fixed-width text is decoded without its padding.  Each name that
    [get_input_var_names] and [get_output_var_names] return is its row of
    the table cut at the first null byte, so a row that holds a text
    followed by null bytes decodes to exactly that text; the component
    name, the version and a type string that the kernel writes into a
    null-padded buffer come back as they are; and every element of a string
    [get_value] result, of rank 0 or of higher rank, is the text of its
    field without the spaces and the null bytes that pad it. *)
Theorem fixed_width_text_trimmed (rt : Runtime) (k : Kernel) (w : World) :
  lib w = k ->
  (forall len, lists_names k len ->
     fst (get_input_var_names rt w) = Ok (map upto_nul (k_input_names k)) /\
     fst (get_output_var_names rt w) = Ok (map upto_nul (k_output_names k))) /\
  (forall s n, is_text s = true ->
     upto_nul (s ++ repeat 0 n) = s /\ decode_ascii (upto_nul (s ++ repeat 0 n)) = Ok s) /\
  (forall len,
     k_exports k ep_get_component_name = true ->
     (forall n, k_script k n ep_get_component_name = 0) ->
     k_constants k BMI_LENCOMPONENTNAME = Some len ->
     is_text (k_component_name k) = true ->
     Z.of_nat (length (k_component_name k)) <= wrap32 len ->
     fst (get_component_name rt w) = Ok (k_component_name k)) /\
  (forall len,
     k_exports k ep_get_version = true ->
     (forall n, k_script k n ep_get_version = 0) ->
     k_constants k BMI_LENVERSION = Some len ->
     is_text (k_version k) = true ->
     Z.of_nat (length (k_version k)) <= wrap32 len ->
     fst (get_version rt w) = Ok (k_version k)) /\
  (forall name v, serves k name v -> fst (get_var_type rt name w) = Ok (kv_type v)) /\
  (forall name v field s,
     serves k name v ->
     startswith (lower (kv_type v)) (lit "string") = true ->
     kv_shape v = [] -> 0 <= wrap32 (kv_nbytes v) ->
     heap w !! kv_addr v = Some field ->
     (exists a b, field = padded s a b) -> trimmed s ->
     length field = Z.to_nat (wrap32 (kv_nbytes v) + 1) ->
     exists r w' cells,
       get_value rt name None w = (Ok r, w') /\
       nd_dtype r = str_ (length field) /\ shape r = [1] /\
       heap w' !! data r = Some cells /\ item (length field) 0 cells = s) /\
  (forall name v n0 rest width fields texts,
     serves k name v ->
     startswith (lower (kv_type v)) (lit "string") = true ->
     kv_shape v = n0 :: rest -> n0 = Z.of_nat (length texts) -> 0 < n0 ->
     0 <= wrap32 (kv_nbytes v) / n0 ->
     width = Z.to_nat (wrap32 (kv_nbytes v) / n0 + 1) ->
     heap w !! kv_addr v = Some (concat fields) ->
     Forall2 (fun field s => (exists a b, field = padded s a b) /\ trimmed s /\
                             length field = width) fields texts ->
     exists r w' cells,
       get_value rt name None w = (Ok r, w') /\
       nd_dtype r = str_ width /\ shape r = [n0] /\
       heap w' !! data r = Some cells /\
       forall i s, texts !! i = Some s -> item width i cells = s).
Proof.
  intros Hk. split; [|split; [|split; [|split; [|split; [|split]]]]].
  - intros len Hl. split.
    + destruct (get_input_var_names_runs rt k len w Hl Hk) as (w' & -> & _). reflexivity.
    + destruct (get_output_var_names_runs rt k len w Hl Hk) as (w' & -> & _). reflexivity.
  - intros s n Hs. rewrite upto_nul_padded by exact Hs.
    split; [reflexivity | apply decode_ascii_text, Hs].
  - intros len Hx Hs Hc Ht Hl.
    destruct (text_buffer_runs rt k w BMI_LENCOMPONENTNAME ep_get_component_name len
                (k_component_name k) Hk Hx Hs Hc Ht Hl) as (w' & E & _).
    + reflexivity.
    + unfold get_component_name. rewrite E. reflexivity.
  - intros len Hx Hs Hc Ht Hl.
    destruct (text_buffer_runs rt k w BMI_LENVERSION ep_get_version len
                (k_version k) Hk Hx Hs Hc Ht Hl) as (w' & E & _).
    + reflexivity.
    + unfold get_version. rewrite E. reflexivity.
  - intros name v Hs.
    destruct (get_var_type_runs rt k name v w Hs Hk) as (w' & -> & _). reflexivity.
  - intros name v field s Hs Hty Hsh Hn Hsrc Hpad Htr Hlen.
    destruct (get_value_string_runs rt k name v Hs w (length field) field s
                Hk Hty Hsh Hn Hlen Hsrc Hpad Htr eq_refl) as (w' & E & Hr & _).
    eexists _, w', _. split; [exact E|]. simpl.
    repeat split; [exact Hr|].
    assert (Hfl : (length s <= length field)%nat).
    { destruct Hpad as (a & b & ->). unfold padded. rewrite length_app. lia. }
    rewrite <- (app_nil_r (fit (length field) s)).
    apply (item_concat_fit (length field) [s] 0 s); [|reflexivity].
    destruct Htr as (Htx & _). repeat constructor; assumption.
  - intros name v n0 rest width fields texts Hs Hty Hsh Hn0 Hpos Hil Hw Hsrc Hf.
    destruct (get_value_strings_runs rt k name v Hs w n0 rest width fields texts
                Hk Hty Hsh Hn0 Hpos Hil Hw Hsrc Hf) as (w' & E & Hr & _).
    eexists _, w', _. split; [exact E|]. simpl.
    repeat split; [exact Hr|].
    intros i s Hi. apply item_concat_fit; [|exact Hi].
    apply (padded_fields_clean _ _ _ Hf).
Qed.

Lemma fixed_width_text_trimmed_witness :
  fst (get_input_var_names Demo.runtime Demo.world) = Ok [lit "ABC"; lit "HEAD"] /\
  fst (get_component_name Demo.runtime Demo.world) = Ok (lit "GW") /\
  (exists r w' cells,
     get_value Demo.runtime (lit "TITLE") None Demo.world = (Ok r, w') /\
     nd_dtype r = str_ 5 /\ shape r = [1] /\
     heap w' !! data r = Some cells /\ item 5 0 cells = lit "ABC") /\
  (exists r w' cells,
     get_value Demo.runtime (lit "BOUND") None Demo.world = (Ok r, w') /\
     nd_dtype r = str_ 5 /\ shape r = [2] /\
     heap w' !! data r = Some cells /\
     forall i s, [lit "ABC"; lit "DE"] !! i = Some s -> item 5 i cells = s).
Proof.
  destruct (fixed_width_text_trimmed Demo.runtime Demo.kernel Demo.world eq_refl)
    as (H1 & _ & H3 & _ & _ & H6 & H7).
  split; [|split; [|split]].
  - refine (proj1 (H1 8 _)).
    split; try reflexivity; repeat constructor.
  - apply (H3 2); try reflexivity; try (vm_compute; discriminate).
  - refine (H6 (lit "TITLE")
              {| kv_type := lit "STRING LEN=4"; kv_shape := []; kv_nbytes := 4;
                 kv_addr := 2 |} (lit "ABC " ++ [0]) (lit "ABC") _ _ _ _ _ _ _ _);
      try reflexivity.
    + split; try reflexivity.
      exists 51. split; [reflexivity | vm_compute; discriminate].
    + vm_compute. discriminate.
    + exists 1%nat, 1%nat. reflexivity.
    + repeat split.
  - refine (H7 (lit "BOUND")
              {| kv_type := lit "STRING LEN=4 (2)"; kv_shape := [2]; kv_nbytes := 8;
                 kv_addr := 5 |} 2 [] 5%nat
              [lit "ABC " ++ [0]; lit "DE  " ++ [0]] [lit "ABC"; lit "DE"]
              _ _ _ _ _ _ _ _ _); try reflexivity.
    + split; try reflexivity.
      exists 51. split; [reflexivity | vm_compute; discriminate].
    + vm_compute. discriminate.
    + constructor; [|constructor; [|constructor]].
      * split; [exists 1%nat, 1%nat; reflexivity | repeat split].
      * split; [exists 2%nat, 1%nat; reflexivity | repeat split].
Defined.

(** ** Failures of the native call *)

Section Failures.

Variable rt : Runtime.

(** The message of the error starts with the rendered call, which starts
    with the name of the entry point. *)
Lemma message_names_entry_point ep args rest :
  contains (lit "BMI exception in " ++ repr_function_call rt (ep_name ep) args ++ rest)
           (ep_name ep).
Proof.
  exists (lit "BMI exception in "), (lit "(" ++ join_args rt args ++ lit ")" ++ rest).
  unfold repr_function_call. rewrite <- !app_assoc. reflexivity.
Qed.

(** The sibling path: when the length constants are there and the
    function [get_last_bmi_error] is not, the retrieval is abandoned, this
    is logged, and the original error is raised. *)
Lemma execute_function_without_error_function ep args detail w st outs h len :
  native (lib w) (length (trace w)) ep args (heap w) = (st, outs, h) -> st <> 0 ->
  k_constants (lib w) BMI_LENERRMESSAGE = Some len -> 0 <= wrap32 len ->
  k_exports (lib w) ep_get_last_bmi_error = false ->
  exists w',
    _execute_function rt ep args detail w =
      (Raise (XMIError (lit "BMI exception in " ++ repr_function_call rt (ep_name ep) outs)),
       w') /\
    last (log w') = Some (log_error (lit "Couldn't extract error message")) /\
    trace w' = trace w ++ [(ep, st)].
Proof.
  intros Hn Hst Hc Hlen Hx. apply Z.eqb_neq in Hst.
  unfold _execute_function, bind, gets, when, try_finally, try_except_AttributeError,
    foreign_call, timer_start_fn, timer_stop_fn, logger_debug, logger_error,
    get_constant_int, create_string_buffer, lib_attr, raise, modify, ret.
  destruct (Z.ltb_spec (wrap32 len) 0) as [|_]; [lia|].
  destruct (timing w) eqn:Et, (debug w) eqn:Ed; simpl;
    rewrite Hn; simpl; rewrite ?Ed, Hst; simpl; rewrite Hc; simpl;
    destruct (Z.ltb_spec (wrap32 len) 0) as [|_]; try lia; simpl; rewrite Hx; simpl;
    rewrite ?Et; simpl;
    (eexists; split; [reflexivity|]; simpl; split; [apply last_snoc | reflexivity]).
Qed.

End Failures.

(** C4: the defect.  When a native call returns a nonzero status and the
    library does not export the length constant of the error text, reading
    that constant raises [ValueError] inside the retrieval of the
    diagnostic; the handler only catches [AttributeError], so the
    [ValueError] leaves the invoker: no [XMIError] that names the entry
    point is raised, and nothing is logged. *)
Theorem diagnostic_failure_masks_error (rt : Runtime) (ep : EntryPoint)
    (args : list CArg) (detail : option (list Z)) (w : World) :
  fst (fst (native (lib w) (length (trace w)) ep args (heap w))) <> 0 ->
  k_constants (lib w) BMI_LENERRMESSAGE = None ->
  debug w = false ->
  exists w',
    _execute_function rt ep args detail w = (Raise ValueError, w') /\
    log w' = log w.
Proof.
  intros Hst Hc Hd.
  destruct (native (lib w) (length (trace w)) ep args (heap w)) as [[st outs] h] eqn:Hn.
  simpl in Hst. apply Z.eqb_neq in Hst.
  unfold _execute_function, bind, gets, when, try_finally, try_except_AttributeError,
    foreign_call, timer_start_fn, timer_stop_fn, logger_debug, logger_error,
    get_constant_int, create_string_buffer, lib_attr, raise, modify, ret.
  destruct (timing w) eqn:Et; simpl; rewrite Hn; simpl; rewrite Hd, Hst; simpl;
    rewrite Hc; simpl; rewrite ?Et; simpl;
    (eexists; split; reflexivity).
Qed.

Lemma diagnostic_failure_masks_error_witness :
  exists w',
    _execute_function Demo.runtime ep_initialize [ABytes []] None
      (Demo.with_lib (Demo.plain (Demo.failing ep_initialize)) Demo.world) =
      (Raise ValueError, w') /\
    log w' = [].
Proof.
  apply (diagnostic_failure_masks_error Demo.runtime ep_initialize [ABytes []] None
           (Demo.with_lib (Demo.plain (Demo.failing ep_initialize)) Demo.world)).
  - vm_compute. discriminate.
  - reflexivity.
  - reflexivity.
Defined.

(** ** Numeric values *)

Lemma startswith_head (s p : list Z) c :
  startswith s (c :: p) = true -> exists r, s = c :: r.
Proof.
  destruct s as [|a s]; simpl; [discriminate|].
  destruct (Z.eqb_spec a c) as [->|]; [eauto | discriminate].
Qed.

Lemma declared_numeric var_type dt :
  declared_dtype var_type = Some dt ->
  numeric_dtype var_type = Some dt /\
  startswith (lower var_type) (lit "string") = false.
Proof.
  unfold declared_dtype, numeric_dtype.
  change (lit "string") with (115 :: lit "tring").
  destruct (startswith _ (lit "double")) eqn:Ed.
  - intros H. split; [exact H|].
    change (lit "double") with (100 :: lit "ouble") in Ed.
    apply startswith_head in Ed as (r & ->). reflexivity.
  - destruct (startswith _ (lit "int")) eqn:Ei; [|discriminate].
    change (lit "int") with (105 :: lit "nt") in Ei.
    change (lit "float") with (102 :: lit "loat").
    apply startswith_head in Ei as (r & ->). simpl. auto.
Qed.

Lemma numeric_not_string var_type dt :
  numeric_dtype var_type = Some dt ->
  startswith (lower var_type) (lit "string") = false.
Proof.
  unfold numeric_dtype.
  change (lit "string") with (115 :: lit "tring").
  change (lit "double") with (100 :: lit "ouble").
  change (lit "float") with (102 :: lit "loat").
  change (lit "int") with (105 :: lit "nt").
  destruct (startswith _ (100 :: _)) eqn:Ed;
    [apply startswith_head in Ed as (r & ->); reflexivity|].
  destruct (startswith _ (102 :: _)) eqn:Ef;
    [apply startswith_head in Ef as (r & ->); reflexivity|].
  destruct (startswith _ (105 :: _)) eqn:Ei;
    [apply startswith_head in Ei as (r & ->); reflexivity|].
  discriminate.
Qed.

Lemma numeric_itemcells var_type dt :
  numeric_dtype var_type = Some dt -> itemcells dt = 1%nat.
Proof.
  unfold numeric_dtype. intros H.
  repeat (destruct (startswith _ _); [inversion H; reflexivity|]). discriminate H.
Qed.

Section NumericValues.

Variable rt : Runtime.
Variables (k : Kernel) (name : list Z) (v : KVar).
Hypothesis Hserves : serves k name v.

Lemma get_value_ptr_scalar_runs w0 w h t dt :
  lib w0 = k -> after w0 h t w -> numeric_dtype (kv_type v) = Some dt ->
  runs (get_value_ptr_scalar rt name) w
       (Ok {| data := kv_addr v; nd_dtype := dt; shape := [1]; flags_C := true |})
       (after w0 h (t ++ [(ep_get_var_type, 0); (ep_get_value_ptr, 0)])).
Proof.
  intros Hk Ha Hdt.
  assert (Hk' : lib w = k) by (rewrite (after_lib _ _ _ _ Ha); exact Hk).
  pose proof (after_heap _ _ _ _ Ha) as Hh. subst h.
  unfold get_value_ptr_scalar.
  eapply runs_step; [exact Ha| eapply get_var_type_runs; eauto |].
  intros w1 H1.
  eapply runs_ext; [apply numeric_dispatch; exact Hdt|].
  eapply runs_weaken.
  - eapply alias_runs; eauto.
    + rewrite (after_lib _ _ _ _ H1). exact Hk.
    + repeat constructor.
  - intros w2 H2. rewrite (after_heap _ _ _ _ H1) in H2.
    pose proof (after_trans _ _ _ _ _ _ _ H1 H2) as H3.
    rewrite <- app_assoc in H3. exact H3.
Qed.

(** A numeric variable of rank 0, read without a destination: a copy of
    the first cell of the storage, in a new block. *)
Lemma get_value_scalar_runs w dt cells :
  lib w = k -> kv_shape v = [] -> numeric_dtype (kv_type v) = Some dt ->
  heap w !! kv_addr v = Some cells ->
  runs (get_value rt name None) w
       (Ok {| data := length (heap w); nd_dtype := dt; shape := [1]; flags_C := true |})
       (fun w' => heap w' = heap w ++ [firstn 1 cells] /\ lib w' = k).
Proof.
  intros Hk Hsh Hnum Hsrc. pose proof (numeric_not_string _ _ Hnum) as Hstr.
  unfold get_value.
  eapply runs_pure; [reflexivity|].
  eapply runs_step; [apply after_refl| eapply get_var_rank_runs; eauto |].
  intros w1 H1. simpl in H1.
  eapply runs_step; [exact H1| eapply get_var_type_runs; eauto |].
  { rewrite (after_lib _ _ _ _ H1). exact Hk. }
  intros w2 H2. simpl in H2. rewrite (after_heap _ _ _ _ H1) in H2.
  rewrite Hsh. simpl. rewrite Hstr.
  eapply runs_bind; [eapply get_value_ptr_scalar_runs; eauto|].
  intros w3 H3. simpl in H3.
  eapply runs_bind; [eapply get_value_ptr_scalar_runs; eauto|].
  intros w4 H4. simpl in H4.
  unfold np_copy. simpl. rewrite (numeric_itemcells _ _ Hnum).
  eapply runs_pure.
  { unfold read_block, gets. rewrite (after_heap _ _ _ _ H4), Hsrc. reflexivity. }
  unfold runs, bind, allocate, ret. cbn beta iota.
  rewrite (after_heap _ _ _ _ H4). eexists. split; [reflexivity|]. simpl.
  split; [reflexivity|]. rewrite (after_lib _ _ _ _ H4). exact Hk.
Qed.

(** A numeric variable of rank at least 1, read without a destination:
    the storage, copied by the kernel into a new block of its shape. *)
Lemma get_value_array_runs w dt cells :
  lib w = k -> kv_shape v <> [] -> declared_dtype (kv_type v) = Some dt ->
  Forall (fun d => 0 <= d) (kv_shape v) ->
  heap w !! kv_addr v = Some cells -> length cells = size (kv_shape v) ->
  runs (get_value rt name None) w
       (Ok {| data := S (length (heap w)); nd_dtype := dt; shape := kv_shape v;
              flags_C := true |})
       (fun w' => heap w' = heap w ++ [kv_shape v; cells] /\ lib w' = k).
Proof.
  intros Hk Hsh Hdt Hdims Hsrc Hlen.
  unfold get_value.
  eapply runs_pure; [reflexivity|].
  eapply runs_step; [apply after_refl| eapply get_var_rank_runs; eauto |].
  intros w1 H1. simpl in H1.
  eapply runs_step; [exact H1| eapply get_var_type_runs; eauto |].
  { rewrite (after_lib _ _ _ _ H1). exact Hk. }
  intros w2 H2. simpl in H2. rewrite (after_heap _ _ _ _ H1) in H2.
  destruct (Z.eqb_spec (Z.of_nat (length (kv_shape v))) 0) as [E|_].
  { destruct (kv_shape v); [congruence | simpl in E; lia]. }
  eapply runs_step; [exact H2| eapply get_var_shape_runs; eauto |].
  { rewrite (after_lib _ _ _ _ H2). exact Hk. }
  intros w3 H3. simpl in H3. rewrite (after_heap _ _ _ _ H2) in H3.
  pose proof (after_heap _ _ _ _ H3) as Hh3.
  eapply runs_pure.
  { unfold read_block, gets. simpl. rewrite Hh3, (after_heap _ _ _ _ H2).
    rewrite lookup_app_r by lia. rewrite Nat.sub_diag. reflexivity. }
  simpl.
  assert (Hneg : negative_dim (kv_shape v) = false).
  { unfold negative_dim. clear -Hdims.
    induction Hdims as [|d sh Hd _ IH]; simpl; [reflexivity|].
    rewrite IH. cbv beta in Hd. destruct (Z.ltb_spec d 0); [lia | reflexivity]. }
  assert (Ha : S (length (heap w)) = length (heap w ++ [kv_shape v]))
    by (rewrite length_app; simpl; lia).
  assert (Htail : forall dt0, itemcells dt0 = 1%nat ->
    runs (dest <- np_empty (kv_shape v) dt0 ;;
          f <- lib_attr ep_get_value ;;
          _execute_function rt f [ABytes name; APtr (data dest)] None ;;;
          ret dest) w3
      (Ok {| data := S (length (heap w)); nd_dtype := dt0; shape := kv_shape v;
             flags_C := true |})
      (fun w' => heap w' = heap w ++ [kv_shape v; cells] /\ lib w' = k)).
  { intros dt0 Hic.
    set (old := map (junk w3 (S (length (heap w)))) (seq 0 (size (kv_shape v) * 1))).
    eapply runs_bind with
      (a := {| data := S (length (heap w)); nd_dtype := dt0; shape := kv_shape v;
               flags_C := true |})
      (P := after w ((heap w ++ [kv_shape v]) ++ [old])
              [(ep_get_var_rank, 0); (ep_get_var_type, 0); (ep_get_var_rank, 0);
               (ep_get_var_shape, 0)]).
    { unfold np_empty. rewrite Hneg.
      unfold runs, bind, allocate, ret. cbn beta iota.
      rewrite Hh3, <- Ha. eexists. split; [reflexivity|].
      destruct H3 as (? & ? & ? & ? & ? & ? & ? & ? & ? & ?).
      unfold after. simpl. subst old.
      rewrite Hic. tauto. }
    intros w4 H4. simpl.
    apply runs_bind_assoc. eapply runs_bind.
    { apply (fill_runs rt k name v Hserves w w4 (heap w ++ [kv_shape v]) cells old
               (S (length (heap w))) _ Hk H4).
      - exact Ha.
      - rewrite lookup_app_l by (eapply lookup_lt_Some; exact Hsrc). exact Hsrc.
      - subst old. rewrite junk_length. lia. }
    intros w5 H5. apply runs_ret.
    rewrite (after_heap _ _ _ _ H5), (after_lib _ _ _ _ H5), <- app_assoc. auto. }
  unfold declared_dtype in Hdt.
  destruct (startswith (lower (kv_type v)) (lit "double")).
  - inversion Hdt; subst dt. apply Htail. reflexivity.
  - destruct (startswith (lower (kv_type v)) (lit "int")); [|discriminate Hdt].
    inversion Hdt; subst dt. apply Htail. reflexivity.
Qed.

(** [set_value] with a contiguous source of the declared element type:
    the kernel copies the source over its storage. *)
Lemma set_value_runs w X xs old :
  lib w = k -> flags_C X = true ->
  declared_dtype (kv_type v) = Some (nd_dtype X) ->
  heap w !! data X = Some xs -> heap w !! kv_addr v = Some old ->
  length xs = length old ->
  runs (set_value rt name X) w (Ok tt)
       (fun w' => heap w' = <[kv_addr v := xs]> (heap w) /\ lib w' = k).
Proof.
  intros Hk Hc Hdt Hx Hold Hlen.
  unfold set_value.
  eapply runs_pure; [rewrite Hc; reflexivity|].
  eapply runs_step; [apply after_refl| eapply get_var_type_runs; eauto |].
  intros w1 H1. simpl in H1.
  assert (Hk1 : lib w1 = k) by (rewrite (after_lib _ _ _ _ H1); exact Hk).
  assert (Htail :
    runs (f <- lib_attr ep_set_value ;;
          _execute_function rt f [ABytes name; APtr (data X)] None ;;;
          ret tt) w1 (Ok tt)
         (fun w' => heap w' = <[kv_addr v := xs]> (heap w) /\ lib w' = k)).
  { apply runs_bind_assoc. eapply runs_bind.
    - apply query_runs with (k := k) (h := <[kv_addr v := xs]> (heap w));
        [exact Hk1 | apply (sv_exports _ _ _ Hserves) |].
      unfold native. rewrite (sv_succeeds _ _ _ Hserves). simpl.
      unfold native_var. rewrite (sv_lookup _ _ _ Hserves). simpl.
      rewrite (after_heap _ _ _ _ H1), Hx, Hold.
      rewrite overwrite_same_length by exact Hlen. reflexivity.
    - intros w2 H2. apply runs_ret.
      rewrite (after_heap _ _ _ _ H2), (after_lib _ _ _ _ H2). auto. }
  unfold declared_dtype in Hdt.
  destruct (startswith (lower (kv_type v)) (lit "double")).
  - injection Hdt as Hd. rewrite <- Hd.
    eapply runs_pure; [reflexivity|]. exact Htail.
  - destruct (startswith (lower (kv_type v)) (lit "int")); [|discriminate Hdt].
    injection Hdt as Hd. rewrite <- Hd.
    eapply runs_pure; [reflexivity|]. exact Htail.
Qed.

End NumericValues.

(** C2.  The round trip through kernel memory.  On a kernel that follows
    the convention, for a variable whose type string starts with "double"
    or with "int", and a C-contiguous array [X] of the demanded element
    type and of the shape under which the wrapper presents the variable,
    [set_value] succeeds and the [get_value] that follows returns an array
    of the same element type and shape whose cells are the cells of [X]. *)
Theorem set_then_get_round_trip (rt : Runtime) (k : Kernel) (name : list Z)
    (v : KVar) (w : World) (X : ndarray) (xs old : list Z) :
  serves k name v -> lib w = k ->
  flags_C X = true ->
  declared_dtype (kv_type v) = Some (nd_dtype X) ->
  shape X = presented_shape (kv_shape v) ->
  Forall (fun d => 0 <= d) (kv_shape v) ->
  heap w !! data X = Some xs -> length xs = size (shape X) ->
  heap w !! kv_addr v = Some old -> length old = size (kv_shape v) ->
  exists w1 r w2,
    set_value rt name X w = (Ok tt, w1) /\
    get_value rt name None w1 = (Ok r, w2) /\
    nd_dtype r = nd_dtype X /\ shape r = shape X /\
    heap w2 !! data r = Some xs.
Proof.
  intros Hs Hk Hc Hdt Hsh Hdims Hx Hlx Hold Hlo.
  assert (Hsize : size (shape X) = size (kv_shape v))
    by (rewrite Hsh; destruct (kv_shape v); reflexivity).
  destruct (set_value_runs rt k name v Hs w X xs old Hk Hc Hdt Hx Hold)
    as (w1 & E1 & Hh1 & Hk1); [lia|].
  assert (Hlt : (kv_addr v < length (heap w))%nat)
    by (eapply lookup_lt_Some; exact Hold).
  assert (Hsrc : heap w1 !! kv_addr v = Some xs)
    by (rewrite Hh1; apply list_lookup_insert_eq; exact Hlt).
  exists w1. destruct (kv_shape v) as [|n0 rest] eqn:Hkv.
  - destruct (get_value_scalar_runs rt k name v Hs w1 (nd_dtype X) xs Hk1 Hkv
                (proj1 (declared_numeric _ _ Hdt)) Hsrc) as (w2 & E2 & Hh2 & _).
    eexists _, w2. split; [exact E1|]. split; [exact E2|]. simpl.
    split; [reflexivity|]. split; [symmetry; exact Hsh|].
    rewrite Hh2. rewrite lookup_app_r by lia. rewrite Nat.sub_diag. simpl.
    rewrite firstn_all2; [reflexivity|]. rewrite Hlx, Hsh. reflexivity.
  - assert (Hne : kv_shape v <> []) by (rewrite Hkv; discriminate).
    assert (Hd' : Forall (fun d => 0 <= d) (kv_shape v)) by (rewrite Hkv; exact Hdims).
    assert (Hl' : length xs = size (kv_shape v)) by (rewrite Hkv; lia).
    destruct (get_value_array_runs rt k name v Hs w1 (nd_dtype X) xs Hk1 Hne Hdt Hd'
                Hsrc Hl') as (w2 & E2 & Hh2 & _).
    eexists _, w2. split; [exact E1|]. split; [exact E2|]. simpl.
    split; [reflexivity|]. split; [rewrite Hkv; symmetry; exact Hsh|].
    rewrite Hh2. rewrite lookup_app_r by lia.
    replace (S (length (heap w1)) - length (heap w1))%nat with 1%nat by lia.
    reflexivity.
Qed.

Lemma set_then_get_round_trip_witness :
  exists w1 r w2,
    set_value Demo.runtime (lit "HEAD") Demo.doubles Demo.world = (Ok tt, w1) /\
    get_value Demo.runtime (lit "HEAD") None w1 = (Ok r, w2) /\
    nd_dtype r = float64 /\ shape r = [2; 3] /\
    heap w2 !! data r = Some [31; 32; 33; 41; 42; 43].
Proof.
  refine (set_then_get_round_trip Demo.runtime Demo.kernel (lit "HEAD")
            {| kv_type := lit "DOUBLE (3,2)"; kv_shape := [2; 3]; kv_nbytes := 48;
               kv_addr := 0 |} Demo.world Demo.doubles
            [31; 32; 33; 41; 42; 43] [11; 12; 13; 21; 22; 23]
            _ _ _ _ _ _ _ _ _ _); try reflexivity.
  - split; try reflexivity.
    exists 51. split; [reflexivity | vm_compute; discriminate].
  - repeat constructor; discriminate.
Defined.

(** ** Ownership of the arrays that [get_value] returns *)

Lemma yields_bind_l {A} d (m : M A) (f : A -> M ndarray) :
  preserves heap_grows m -> (forall a, yields d (f a)) -> yields d (bind m f).
Proof.
  intros Hm Hf w r w' H.
  apply bind_inv in H as [(a & w1 & E1 & E2)|(e & _ & E)]; [|discriminate E].
  destruct (Hf a w1 r w' E2) as [Hd|Hfresh]; [left; exact Hd|].
  right. specialize (Hm _ _ _ E1). unfold heap_grows in Hm. lia.
Qed.

Lemma yields_bind_r d (m : M ndarray) (f : ndarray -> M ndarray) :
  yields d m -> (forall a, passes a (f a)) -> yields d (bind m f).
Proof.
  intros Hm Hf w r w' H.
  apply bind_inv in H as [(a & w1 & E1 & E2)|(e & _ & E)]; [|discriminate E].
  rewrite (Hf a w1 r w' E2). exact (Hm _ _ _ E1).
Qed.

Lemma passes_bind {A B} (a : B) (m : M A) (f : A -> M B) :
  (forall x, passes a (f x)) -> passes a (bind m f).
Proof.
  intros Hf w r w' H.
  apply bind_inv in H as [(x & w1 & _ & E2)|(e & _ & E)]; [|discriminate E].
  exact (Hf x w1 r w' E2).
Qed.

Lemma passes_ret {A} (a : A) : passes a (ret a).
Proof. intros w r w' H. inversion H. reflexivity. Qed.

Lemma yields_ret d a : Some (data a) = d -> yields d (ret a).
Proof. intros Hd w r w' H. unfold ret in H. injection H as <- _. left. exact Hd. Qed.

Lemma yields_raise d e : yields d (raise e).
Proof. intros w r w' H. discriminate H. Qed.

Lemma yields_np_empty d sh dt : yields d (np_empty sh dt).
Proof.
  intros w r w' H. unfold np_empty in H. destruct (negative_dim sh); [discriminate H|].
  unfold bind, allocate, ret in H. inversion H. right. simpl. lia.
Qed.

Lemma yields_np_copy d a : yields d (np_copy a).
Proof.
  intros w r w' H. unfold np_copy, bind, read_block, gets, allocate, ret in H.
  inversion H. right. simpl. lia.
Qed.

Lemma yields_astype_str rt d dest : yields d (astype_str rt dest).
Proof.
  intros w r w' H. unfold astype_str in H.
  apply bind_inv in H as [(cells & w1 & E1 & H)|(e & _ & E)]; [|discriminate E].
  unfold read_block, gets in E1. inversion E1; subst w1 cells; clear E1.
  destruct (nd_dtype dest).
  1-3, 5: unfold bind, allocate, ret in H; inversion H; right; simpl; lia.
  apply bind_inv in H as [(items & w1 & E1 & H)|(e & _ & E)]; [|discriminate E].
  assert (Hg : heap_grows w w1).
  { revert E1. apply preserves_for_each; [exact _|]. intros i. repeat frame_step. }
  unfold bind, allocate, ret in H. inversion H. right. simpl.
  unfold heap_grows in Hg. lia.
Qed.

Ltac passes_step :=
  lazymatch goal with
  | |- forall _, passes _ _ => intros ?
  | |- passes _ (bind _ _) => apply passes_bind
  | |- passes _ (ret _) => apply passes_ret
  end.

Ltac yields_step :=
  cbv beta iota;
  lazymatch goal with
  | |- forall _, yields _ _ => intros ?
  | |- yields _ (bind _ _) =>
      first [ apply yields_bind_r; [|solve [repeat passes_step]]
            | apply yields_bind_l; [solve [repeat frame_step]|] ]
  | |- yields _ (ret _) => apply yields_ret; reflexivity
  | |- yields _ (raise _) => apply yields_raise
  | |- yields _ (np_empty _ _) => apply yields_np_empty
  | |- yields _ (np_copy _) => apply yields_np_copy
  | |- yields _ (astype_str _ _) => apply yields_astype_str
  | |- yields _ (if ?c then _ else _) => destruct c
  | |- yields _ (match ?x with _ => _ end) => destruct x
  end.

Section Ownership.

Variable rt : Runtime.

(** Whatever [get_value] returns is the destination that the caller
    supplied or an array in newly allocated memory. *)
Lemma get_value_yields name dest : yields (data <$> dest) (get_value rt name dest).
Proof.
  unfold get_value. destruct dest as [d|]; simpl; repeat yields_step.
Qed.

Variables (k : Kernel) (name : list Z) (v : KVar).
Hypothesis Hserves : serves k name v.

Lemma points_to_bind {A} a (m : M A) (f : A -> M ndarray) :
  preserves same_setup m -> (forall x, points_to k a (f x)) ->
  points_to k a (bind m f).
Proof.
  intros Hm Hf w r w' Hk H.
  apply bind_inv in H as [(x & w1 & E1 & E2)|(e & _ & E)]; [|discriminate E].
  apply (Hf x w1 r w'); [|exact E2].
  destruct (Hm _ _ _ E1) as (Hl & _). rewrite Hl. exact Hk.
Qed.

(** The address that the kernel stores in the pointer is the address of
    the storage of the variable. *)
Lemma alias_points_to dt sh detail :
  points_to k (kv_addr v)
    (f <- lib_attr ep_get_value_ptr ;;
     args <- _execute_function rt f [ABytes name; ANdptr None] detail ;;
     contents dt sh (arg_ndptr (args !! 1%nat))).
Proof.
  intros w r w' Hk H.
  apply bind_inv in H as [(f & w1 & E1 & H)|(e & _ & E)]; [|discriminate E].
  unfold lib_attr in E1.
  destruct (k_exports (lib w) ep_get_value_ptr); inversion E1; subst f w1; clear E1.
  apply bind_inv in H as [(args & w2 & E2 & H)|(e & _ & E)]; [|discriminate E].
  apply execute_function_ok_inv in E2 as (h & En & _).
  rewrite Hk in En. unfold native in En. rewrite (sv_succeeds _ _ _ Hserves) in En.
  simpl in En. unfold native_var in En. rewrite (sv_lookup _ _ _ Hserves) in En.
  inversion En; subst args h; clear En. simpl in H.
  unfold contents in H. destruct (existsb _ sh); [discriminate H|].
  inversion H. reflexivity.
Qed.

Lemma get_value_ptr_scalar_points_to :
  points_to k (kv_addr v) (get_value_ptr_scalar rt name).
Proof.
  unfold get_value_ptr_scalar.
  apply points_to_bind; [solve [repeat frame_step]|]. intros var_type.
  apply points_to_bind; [solve [repeat frame_step]|]. intros arraytype.
  apply alias_points_to.
Qed.

Lemma get_value_ptr_points_to : points_to k (kv_addr v) (get_value_ptr rt name).
Proof.
  unfold get_value_ptr.
  apply points_to_bind; [solve [repeat frame_step]|]. intros rank.
  destruct (rank =? 0); [apply get_value_ptr_scalar_points_to|].
  apply points_to_bind; [solve [repeat frame_step]|]. intros var_type.
  apply points_to_bind; [solve [repeat frame_step]|]. intros shape_array.
  apply points_to_bind; [solve [repeat frame_step]|]. intros dims.
  apply points_to_bind; [solve [repeat frame_step]|]. intros arraytype.
  apply alias_points_to.
Qed.

End Ownership.

(** C1.  What [get_value] returns is an owned copy.  On a kernel that
    follows the convention, with a destination that, if the caller supplies
    one, is not the kernel's own storage, the array that [get_value] returns
    never has its data at the address of an aliased view of the variable,
    whenever that view is obtained from [get_value_ptr]: writing through
    the view leaves the cells of the result as they are, and writing into
    the result leaves the cells of the view as they are.  Without a
    destination the result lives in memory that did not exist before the
    call.  In particular, for a numeric variable of rank 0 and no
    destination, [get_value] does return, and returns a one-element array
    in a new block that holds a copy of the first cell of the storage. *)
Theorem get_value_returns_owned_copy (rt : Runtime) (k : Kernel) (name : list Z)
    (v : KVar) (w : World) :
  serves k name v -> lib w = k -> (kv_addr v < length (heap w))%nat ->
  (forall dest r w',
     (forall d, dest = Some d -> data d <> kv_addr v) ->
     get_value rt name dest w = (Ok r, w') ->
     data r <> kv_addr v /\
     (dest = None -> (length (heap w) <= data r)%nat) /\
     (forall w0 alias w'',
        lib w0 = k -> get_value_ptr rt name w0 = (Ok alias, w'') ->
        data alias = kv_addr v /\ data alias <> data r /\
        forall (h : list (list Z)) cells,
          <[data alias := cells]> h !! data r = h !! data r /\
          <[data r := cells]> h !! data alias = h !! data alias)) /\
  (forall dt cells,
     kv_shape v = [] -> numeric_dtype (kv_type v) = Some dt ->
     heap w !! kv_addr v = Some cells ->
     exists r w',
       get_value rt name None w = (Ok r, w') /\
       data r = length (heap w) /\ nd_dtype r = dt /\ shape r = [1] /\
       heap w' !! data r = Some (firstn 1 cells) /\
       heap w' !! kv_addr v = Some cells).
Proof.
  intros Hs Hk Hlt. split.
  - intros dest r w' Hdest E.
    assert (Hne : data r <> kv_addr v).
    { destruct (get_value_yields rt name dest w r w' E) as [Hd|Hfresh]; [|lia].
      destruct dest as [d|]; [|discriminate Hd].
      simpl in Hd. injection Hd as Hd. rewrite Hd. apply (Hdest d eq_refl). }
    split; [exact Hne|]. split.
    + intros ->. destruct (get_value_yields rt name None w r w' E) as [Hd|Hfresh];
        [discriminate Hd | exact Hfresh].
    + intros w0 alias w'' Hk0 Ea.
      pose proof (get_value_ptr_points_to rt k name v Hs w0 alias w'' Hk0 Ea) as Hp.
      split; [exact Hp|]. split; [congruence|].
      intros h cells. split; apply list_lookup_insert_ne; congruence.
  - intros dt cells Hsh Hdt Hsrc.
    destruct (get_value_scalar_runs rt k name v Hs w dt cells Hk Hsh Hdt Hsrc)
      as (w' & E & Hh & _).
    eexists _, w'. split; [exact E|]. simpl.
    repeat split.
    + rewrite Hh. rewrite lookup_app_r by lia. rewrite Nat.sub_diag. reflexivity.
    + rewrite Hh. rewrite lookup_app_l by exact Hlt. exact Hsrc.
Qed.

Lemma get_value_returns_owned_copy_witness :
  (exists r w',
     get_value Demo.runtime (lit "MXITER") None Demo.world = (Ok r, w') /\
     data r = 8%nat /\ nd_dtype r = int32 /\ shape r = [1] /\
     heap w' !! data r = Some [25] /\ heap w' !! 1%nat = Some [25]) /\
  (forall r w',
     get_value Demo.runtime (lit "HEAD") (Some Demo.doubles) Demo.world = (Ok r, w') ->
     data r <> 0%nat).
Proof.
  destruct (get_value_returns_owned_copy Demo.runtime Demo.kernel (lit "MXITER")
              {| kv_type := lit "INTEGER"; kv_shape := []; kv_nbytes := 4; kv_addr := 1 |}
              Demo.world) as (_ & H2).
  { split; try reflexivity.
    exists 51. split; [reflexivity | vm_compute; discriminate]. }
  { reflexivity. }
  { vm_compute. lia. }
  destruct (get_value_returns_owned_copy Demo.runtime Demo.kernel (lit "HEAD")
              {| kv_type := lit "DOUBLE (3,2)"; kv_shape := [2; 3]; kv_nbytes := 48;
                 kv_addr := 0 |} Demo.world) as (H1 & _).
  { split; try reflexivity.
    exists 51. split; [reflexivity | vm_compute; discriminate]. }
  { reflexivity. }
  { vm_compute. lia. }
  split.
  - apply (H2 int32 [25]); reflexivity.
  - intros r w' E.
    refine (proj1 (H1 (Some Demo.doubles) r w' _ E)).
    intros d Hd. injection Hd as <-. discriminate.
Defined.

(** ** The message of the invoker's error *)

Lemma ensures_bind {A B} (m : M A) (f : A -> M B) (P : A -> Prop) (Q : res B -> Prop) :
  ensures m (fun r => match r with Ok a => P a | Raise e => Q (Raise e) end) ->
  (forall a, P a -> ensures (f a) Q) -> ensures (bind m f) Q.
Proof.
  intros Hm Hf w r w' H.
  apply bind_inv in H as [(a & w1 & E1 & E2)|(e & E1 & ->)].
  - exact (Hf a (Hm _ _ _ E1) w1 r w' E2).
  - exact (Hm _ _ _ E1).
Qed.

Lemma ensures_try_except {A} (body handler : M A) (Q : res A -> Prop) :
  ensures body (fun r => match r with Raise AttributeError => True | _ => Q r end) ->
  ensures handler Q -> ensures (try_except_AttributeError body handler) Q.
Proof.
  intros Hb Hh w r w' H. unfold try_except_AttributeError in H.
  destruct (body w) as [[a|e] w1] eqn:E.
  - inversion H; subst. exact (Hb _ _ _ E).
  - destruct e; try solve [inversion H; subst; exact (Hb _ _ _ E)].
    exact (Hh _ _ _ H).
Qed.

Lemma ensures_try_finally {A} (body : M A) (cleanup : M unit) (Q : res A -> Prop) :
  ensures body Q ->
  ensures cleanup (fun r => match r with Ok _ => True | Raise e => Q (Raise e) end) ->
  ensures (try_finally body cleanup) Q.
Proof.
  intros Hb Hc w r w' H. unfold try_finally in H.
  destruct (body w) as [r1 w1] eqn:E1. destruct (cleanup w1) as [[u|e] w2] eqn:E2;
    inversion H; subst.
  - exact (Hb _ _ _ E1).
  - exact (Hc _ _ _ E2).
Qed.

(** A step that always returns. *)
Lemma ensures_returns {A} (m : M A) (R : exn -> Prop) :
  (forall w, exists a w', m w = (Ok a, w')) ->
  ensures m (fun r => match r with Ok _ => True | Raise e => R e end).
Proof.
  intros Hm w r w' H. destruct (Hm w) as (a & w1 & E). rewrite E in H.
  inversion H; subst. exact I.
Qed.

(** A step that raises built-in exceptions only. *)
Lemma ensures_builtin {A B} (m : M A) (f : A -> M B) (Q : res B -> Prop) :
  ensures m not_XMIError ->
  (forall e, not_XMIError (@Raise A e) -> Q (Raise e)) ->
  (forall a, ensures (f a) Q) -> ensures (bind m f) Q.
Proof.
  intros Hm HQ Hf. apply ensures_bind with (P := fun _ => True); [|auto].
  intros w r w' H. specialize (Hm _ _ _ H). destruct r; [exact I|]. apply HQ, Hm.
Qed.

Ltac builtin_case :=
  let e := fresh "e" in
  let He := fresh "He" in
  intros e He; destruct e; simpl in *; try exact I; try contradiction;
  let m := fresh "m" in
  let Hm := fresh "Hm" in
  intros m Hm; discriminate Hm.

Section Message.

Variable rt : Runtime.

Lemma get_constant_int_builtin c : ensures (get_constant_int c) not_XMIError.
Proof.
  intros w r w' H. unfold get_constant_int in H.
  destruct (k_constants (lib w) c); inversion H; exact I.
Qed.

Lemma create_string_buffer_builtin n : ensures (create_string_buffer n) not_XMIError.
Proof.
  intros w r w' H. unfold create_string_buffer, raise, ret in H.
  destruct (n <? 0); inversion H; exact I.
Qed.

Lemma lib_attr_builtin ep : ensures (lib_attr ep) not_XMIError.
Proof.
  intros w r w' H. unfold lib_attr in H.
  destruct (k_exports (lib w) ep); inversion H; exact I.
Qed.

Lemma foreign_call_builtin ep args : ensures (foreign_call ep args) not_XMIError.
Proof.
  intros w r w' H. unfold foreign_call in H.
  destruct (native _ _ _ _ _) as [[? ?] ?]. inversion H. exact I.
Qed.

Lemma decode_builtin b : ensures (lift (decode b)) not_XMIError.
Proof.
  intros w r w' H. unfold lift, decode, decode_ascii in H.
  destruct (forallb is_ascii b); inversion H; exact I.
Qed.

(** Every [XMIError] that leaves the invoker carries a message that
    contains the name of the entry point that failed. *)
Lemma execute_function_error_names_entry_point ep args detail :
  ensures (_execute_function rt ep args detail)
          (fun r => forall m, r = Raise (XMIError m) -> contains m (ep_name ep)).
Proof.
  unfold _execute_function.
  apply ensures_bind with (P := fun _ => True);
    [apply ensures_returns; intros w0; eexists _, _; reflexivity|].
  intros t _.
  apply ensures_bind with (P := fun _ => True).
  { apply ensures_returns. intros w0. destruct t; eexists _, _; reflexivity. }
  intros _ _. apply ensures_try_finally.
  2:{ apply ensures_returns. intros w0.
      unfold bind, gets, when. destruct (timing w0); eexists _, _; reflexivity. }
  apply ensures_bind with (P := fun _ => True).
  { apply ensures_returns. intros w0. unfold foreign_call.
    destruct (native _ _ _ _ _) as [[? ?] ?]. eexists _, _. reflexivity. }
  intros r _.
  apply ensures_bind with (P := fun _ => True);
    [apply ensures_returns; intros w0; eexists _, _; reflexivity|].
  intros d _.
  apply ensures_bind with (P := fun _ => True).
  { apply ensures_returns. intros w0. destruct d; eexists _, _; reflexivity. }
  intros _ _. destruct (negb (fst r =? 0)).
  2:{ intros w0 r0 w0' E. inversion E; subst. intros m0 Hm0. discriminate Hm0. }
  apply ensures_bind with (P := fun msg => contains msg (ep_name ep)).
  2:{ intros msg Hc w0 r0 w0' E. inversion E; subst. intros m0 Hm0.
      injection Hm0 as <-. exact Hc. }
  set (names := fun r : res (list Z) =>
                  match r with
                  | Ok msg => contains msg (ep_name ep)
                  | Raise e =>
                      forall m, @Raise (list CArg) e = Raise (XMIError m) ->
                                contains m (ep_name ep)
                  end).
  apply ensures_try_except with (Q := names).
  - apply ensures_builtin; [apply get_constant_int_builtin | builtin_case | intros len_err_msg].
    apply ensures_builtin; [apply create_string_buffer_builtin | builtin_case | intros err_msg].
    apply ensures_builtin; [apply lib_attr_builtin | builtin_case | intros f1].
    apply ensures_builtin; [apply foreign_call_builtin | builtin_case | intros r1].
    apply ensures_builtin; [apply get_constant_int_builtin | builtin_case | intros len_name].
    apply ensures_builtin; [apply create_string_buffer_builtin | builtin_case | intros cname].
    apply ensures_builtin; [apply lib_attr_builtin | builtin_case | intros f2].
    apply ensures_builtin; [apply foreign_call_builtin | builtin_case | intros r2].
    apply ensures_builtin; [apply decode_builtin | builtin_case | intros cn].
    apply ensures_builtin; [apply decode_builtin | builtin_case | intros em].
    intros w0 r0 w0' E. unfold ret in E.
    apply (f_equal fst) in E. cbn [fst] in E. subst r0. unfold names.
    rewrite <- app_assoc. apply message_names_entry_point.
  - intros w0 r0 w0' E. unfold bind, logger_error, modify, ret in E.
    apply (f_equal fst) in E. cbn [fst] in E. subst r0. unfold names.
    rewrite <- (app_nil_r (repr_function_call _ _ _)). apply message_names_entry_point.
Qed.

End Message.

(** * Further properties *)

(** ** Relations that a computation keeps *)

(** The combinators of the monad keep every reflexive and transitive
    relation between the worlds that their parts keep. *)
Section Keeping.

Context (R : World -> World -> Prop) `{!PreOrder R}.

Lemma keeps_ret {A} (a : A) : preserves R (ret a).
Proof. intros w r w' H. inversion H. reflexivity. Qed.

Lemma keeps_raise {A} e : preserves R (@raise A e).
Proof. intros w r w' H. inversion H. reflexivity. Qed.

Lemma keeps_lift {A} (x : res A) : preserves R (lift x).
Proof. intros w r w' H. inversion H. reflexivity. Qed.

Lemma keeps_gets {A} (f : World -> A) : preserves R (gets f).
Proof. intros w r w' H. inversion H. reflexivity. Qed.

Lemma keeps_bind {A B} (m : M A) (f : A -> M B) :
  preserves R m -> (forall a, preserves R (f a)) -> preserves R (bind m f).
Proof.
  intros Hm Hf w r w' H. apply bind_inv in H as [(a & w1 & E1 & E2)|(e & E1 & _)].
  - transitivity w1; [eapply Hm | eapply Hf]; eauto.
  - eapply Hm; eauto.
Qed.

Lemma keeps_when (c : bool) (m : M unit) : preserves R m -> preserves R (when c m).
Proof. destruct c; simpl; auto using keeps_ret. Qed.

Lemma keeps_try_except {A} (body handler : M A) :
  preserves R body -> preserves R handler ->
  preserves R (try_except_AttributeError body handler).
Proof.
  intros Hb Hh w r w' H. unfold try_except_AttributeError in H.
  destruct (body w) as [[a|e] w1] eqn:E.
  - inversion H; subst. eapply Hb; eauto.
  - destruct e; try solve [inversion H; subst; eapply Hb; eauto].
    transitivity w1; [eapply Hb | eapply Hh]; eauto.
Qed.

Lemma keeps_try_finally {A} (body : M A) (cleanup : M unit) :
  preserves R body -> preserves R cleanup -> preserves R (try_finally body cleanup).
Proof.
  intros Hb Hc w r w' H. unfold try_finally in H.
  destruct (body w) as [r1 w1] eqn:E1. destruct (cleanup w1) as [[u|e] w2] eqn:E2;
    inversion H; subst; (transitivity w1; [eapply Hb | eapply Hc]; eauto).
Qed.

Lemma keeps_for_each {A B} (xs : list A) (body : A -> M B) :
  (forall x, preserves R (body x)) -> preserves R (for_each xs body).
Proof.
  intros Hb. induction xs as [|x xs IH]; simpl.
  - apply keeps_ret.
  - apply keeps_bind; [apply Hb|]. intros y.
    apply keeps_bind; [exact IH|]. intros ys. apply keeps_ret.
Qed.

End Keeping.

(** The steps of the wrapper that leave the world as it is. *)
Lemma keeps_lib_attr R `{!PreOrder R} ep : preserves R (lib_attr ep).
Proof.
  intros w r w' H. unfold lib_attr in H.
  destruct (k_exports (lib w) ep); inversion H; reflexivity.
Qed.

Lemma keeps_get_constant_int R `{!PreOrder R} c : preserves R (get_constant_int c).
Proof.
  intros w r w' H. unfold get_constant_int in H.
  destruct (k_constants (lib w) c); inversion H; reflexivity.
Qed.

Lemma keeps_create_string_buffer R `{!PreOrder R} n :
  preserves R (create_string_buffer n).
Proof.
  unfold create_string_buffer. destruct (n <? 0); auto using keeps_raise, keeps_ret.
Qed.

#[export] Instance only_calls_preorder : PreOrder only_calls.
Proof.
  split.
  - intros w. exists []. split; [|constructor].
    destruct w. cbn. rewrite app_nil_r. reflexivity.
  - intros w1 w2 w3 (t1 & E1 & H1) (t2 & E2 & H2). exists (t1 ++ t2).
    split; [|apply no_transfer_app; assumption].
    subst. cbn. rewrite app_assoc. reflexivity.
Qed.

(** The two calls that fetch the diagnostic write into the buffer they
    are given and nowhere else. *)
Lemma only_calls_text_call ep args :
  ep = ep_get_last_bmi_error \/ ep = ep_get_component_name ->
  preserves only_calls (foreign_call ep args).
Proof.
  intros Hep w r w' H. unfold foreign_call, native in H.
  exists [(ep, fst (fst (native (lib w) (length (trace w)) ep args (heap w))))].
  unfold native.
  destruct Hep as [-> | ->]; cbn in *;
    destruct (k_script (lib w) (length (trace w)) _ =? 0); cbn in *;
    inversion H; subst; (split; [reflexivity | repeat constructor]).
Qed.

(** The lemmas on what the steps of the wrapper keep. *)
Create HintDb keeps.
#[export] Hint Resolve only_calls_text_call : keeps.

(** Decomposing a computation into the steps above. *)
Ltac keep_step :=
  lazymatch goal with
  | |- forall _, preserves _ _ => intros ?
  | |- preserves _ (bind _ _) => apply keeps_bind
  | |- preserves _ (ret _) => apply keeps_ret
  | |- preserves _ (raise _) => apply keeps_raise
  | |- preserves _ (lift _) => apply keeps_lift
  | |- preserves _ (gets _) => apply keeps_gets
  | |- preserves _ (when _ _) => apply keeps_when
  | |- preserves _ (try_except_AttributeError _ _) => apply keeps_try_except
  | |- preserves _ (try_finally _ _) => apply keeps_try_finally
  | |- preserves _ (for_each _ _) => apply keeps_for_each
  | |- preserves _ (lib_attr _) => apply keeps_lib_attr
  | |- preserves _ (create_string_buffer _) => apply keeps_create_string_buffer
  | |- preserves _ (get_constant_int _) => apply keeps_get_constant_int
  | |- preserves _ (if ?c then _ else _) => destruct c
  | |- preserves _ (match ?x with _ => _ end) => destruct x
  | |- preserves _ _ => solve [eauto 3 with keeps typeclass_instances]
  end; try exact _.

Lemma keeps_bind_lib_attr R `{!PreOrder R} {B} ep (f : EntryPoint -> M B) :
  preserves R (f ep) -> preserves R (bind (lib_attr ep) f).
Proof.
  intros Hf w r w' H. unfold bind, lib_attr in H.
  destruct (k_exports (lib w) ep).
  - eapply Hf; eauto.
  - inversion H. reflexivity.
Qed.

(** The entry point that [lib_attr] resolves is the one that was asked for. *)
Ltac keep_call :=
  lazymatch goal with
  | |- preserves _ (bind (lib_attr _) _) => apply keeps_bind_lib_attr
  | |- _ => keep_step
  end; try exact _.

Lemma world_eq (a b : World) :
  _state a = _state b -> heap a = heap b -> trace a = trace b -> log a = log b ->
  ledger a = ledger b -> cwd a = cwd b -> stderr a = stderr b -> timing a = timing b ->
  debug a = debug b -> working_directory a = working_directory b -> lib a = lib b ->
  junk a = junk b -> a = b.
Proof. destruct a, b. cbn. intros. subst. reflexivity. Qed.

Ltac world_eq :=
  apply world_eq; cbn; rewrite <- ?app_assoc, ?app_nil_r; reflexivity.

(** ** The invoker: what a call leaves behind *)

Section InvokerRecords.

Variable rt : Runtime.

(** The world after a call through the invoker: the memory is as the
    kernel left it, the trace holds the call and the calls that fetched the
    diagnostic, the log holds at most the debug record and the record of
    an abandoned diagnostic, the ledger holds the bracket of the timer, and
    nothing else has changed. *)
Lemma execute_function_world ep args detail w r w' st outs h :
  native (lib w) (length (trace w)) ep args (heap w) = (st, outs, h) ->
  _execute_function rt ep args detail w = (r, w') ->
  exists t rest,
    w' = set_ledger (ledger w ++ (if timing w
                                  then [timer_start (ep_name ep); timer_stop (ep_name ep)]
                                  else []))
           (set_log (log w ++ (if debug w
                               then [log_debug (repr_function_call rt (ep_name ep) outs) st]
                               else []) ++ rest)
              (set_trace (trace w ++ (ep, st) :: t) (set_heap h w))) /\
    no_transfer t /\
    (rest = [] \/ st <> 0 /\ rest = [log_error (lit "Couldn't extract error message")]) /\
    (st = 0 -> t = [] /\ rest = [] /\ r = Ok outs) /\
    (st <> 0 -> exists e, r = Raise e).
Proof.
  intros Hn H. unfold _execute_function in H.
  apply bind_inv in H as [(tm & w0 & E0 & H)|(e & E0 & _)]; [|discriminate E0].
  unfold gets in E0. inversion E0; subst w0 tm; clear E0.
  apply bind_inv in H as [(u & w1 & E1 & H)|(e & E1 & _)];
    [|unfold when, timer_start_fn, modify, ret in E1; destruct (timing w); discriminate E1].
  unfold try_finally in H.
  match type of H with context [bind (foreign_call ep args) ?K] => set (body := K) in * end.
  destruct (bind (foreign_call ep args) body w1) as [r1 w2] eqn:EB.
  apply bind_inv in EB as [(a & w3 & E3 & EB)|(e & E3 & _)];
    [|revert E3; unfold foreign_call; destruct (native (lib w1) _ _ _ _) as [[? ?] ?]; discriminate].
  subst body. cbn beta in EB.
  apply bind_inv in EB as [(d & w4 & E4 & EB)|(e & E4 & _)]; [|discriminate E4].
  unfold gets in E4. inversion E4; subst w4 d; clear E4.
  apply bind_inv in EB as [(u' & w5 & E5 & EB)|(e & E5 & _)];
    [|unfold when, logger_debug, modify, ret in E5; destruct (debug w3); discriminate E5].
  assert (Hw1 : w1 = if timing w then set_ledger (ledger w ++ [timer_start (ep_name ep)]) w
                     else w).
  { revert E1. unfold when, timer_start_fn, modify, ret.
    destruct (timing w); intros E; inversion E; reflexivity. }
  assert (Hw3 : a = (st, outs) /\
                w3 = set_heap h (set_trace (trace w ++ [(ep, st)]) w1)).
  { revert E3. unfold foreign_call.
    replace (lib w1) with (lib w) by (rewrite Hw1; destruct (timing w); reflexivity).
    replace (trace w1) with (trace w) by (rewrite Hw1; destruct (timing w); reflexivity).
    replace (heap w1) with (heap w) by (rewrite Hw1; destruct (timing w); reflexivity).
    rewrite Hn. intros E. inversion E. auto. }
  destruct Hw3 as [-> Hw3]. cbn [fst snd] in *.
  assert (Hw5 : w5 = if debug w
                     then set_log (log w3 ++ [log_debug (repr_function_call rt (ep_name ep) outs) st]) w3
                     else w3).
  { revert E5. unfold when, logger_debug, modify, ret.
    replace (debug w3) with (debug w)
      by (rewrite Hw3, Hw1; destruct (timing w); reflexivity).
    destruct (debug w); intros E; inversion E; reflexivity. }
  clear E1 E3 E5.
  assert (Hfin : forall t rest, 
     w2 = set_log (log w5 ++ rest) (set_trace (trace w5 ++ t) w5) ->
     w' = set_ledger (ledger w ++ (if timing w
                                  then [timer_start (ep_name ep); timer_stop (ep_name ep)]
                                  else []))
           (set_log (log w ++ (if debug w
                               then [log_debug (repr_function_call rt (ep_name ep) outs) st]
                               else []) ++ rest)
              (set_trace (trace w ++ (ep, st) :: t) (set_heap h w))) /\ r = r1).
  { intros t rest Hw2. revert H.
    unfold bind, gets, when, timer_stop_fn, modify, ret.
    rewrite Hw2, Hw5, Hw3, Hw1.
    destruct (timing w) eqn:Et, (debug w) eqn:Ed; cbn; rewrite ?Et; cbn;
      intros H; inversion H; subst; (split; [world_eq | reflexivity]). }
  destruct (Z.eqb_spec st 0) as [->|Hst]; cbn [negb] in EB.
  - unfold ret in EB. inversion EB; subst r1 w2. exists [], [].
    destruct (Hfin [] []) as [Hw' ->].
    { apply world_eq; cbn; rewrite ?app_nil_r; reflexivity. }
    split; [exact Hw'|]. split; [constructor|]. split; [auto|]. split; [auto|].
    intros Hne. destruct Hne. reflexivity.
  - match type of EB with
    | context [try_except_AttributeError ?b ?hd] => set (diag := b) in EB; set (handler := hd) in EB
    end.
    assert (Hdiag : preserves only_calls diag) by (subst diag; repeat keep_call).
    assert (Hte : exists r2 w6 t rest, try_except_AttributeError diag handler w5 = (r2, w6) /\
              w6 = set_log (log w5 ++ rest) (set_trace (trace w5 ++ t) w5) /\ no_transfer t /\
              (rest = [] \/ rest = [log_error (lit "Couldn't extract error message")])).
    { unfold try_except_AttributeError.
      destruct (diag w5) as [[m|e] w7] eqn:ED; apply Hdiag in ED as (t & -> & Hnt).
      - exists (Ok m), (set_trace (trace w5 ++ t) w5), t, []. split; [reflexivity|].
        split; [world_eq|]. auto.
      - destruct e;
          try solve [eexists _, (set_trace (trace w5 ++ t) w5), t, [];
                     split; [reflexivity|]; split; [world_eq|]; auto].
        subst handler. unfold bind, logger_error, modify, ret. cbn.
        eexists _, _, t, [log_error (lit "Couldn't extract error message")].
        split; [reflexivity|]. split; [world_eq|]. auto. }
    destruct Hte as (r2 & w6 & t & rest & E6 & Hw6 & Hnt & Hrest).
    assert (Hr1 : w2 = w6 /\ exists e, r1 = Raise e).
    { revert EB. unfold bind. rewrite E6. destruct r2 as [m|e]; unfold raise;
        intros E; inversion E; eauto. }
    destruct Hr1 as (-> & e & ->).
    destruct (Hfin t rest Hw6) as [Hw' ->].
    exists t, rest. split; [exact Hw'|]. split; [exact Hnt|].
    split; [destruct Hrest; auto|]. split; [intros; contradiction|]. eauto.
Qed.

End InvokerRecords.

(** X1.  The invoker brackets every call with the timer: when timing is
    on, a start and a stop sample under the name of the entry point are
    added to the ledger, in this order, whether the call returns or raises
    (the stop is in the [finally] clause); when timing is off the ledger is
    left alone.  The calls that fetch the diagnostic of a failure are made
    directly and are not timed. *)
Theorem invoker_brackets_every_call (rt : Runtime) (ep : EntryPoint)
    (args : list CArg) (detail : option (list Z)) (w : World) :
  ledger (snd (_execute_function rt ep args detail w)) =
    ledger w ++ (if timing w
                 then [timer_start (ep_name ep); timer_stop (ep_name ep)]
                 else []).
Proof.
  destruct (native (lib w) (length (trace w)) ep args (heap w)) as [[st outs] h] eqn:Hn.
  destruct (_execute_function rt ep args detail w) as [r w'] eqn:E.
  destruct (execute_function_world rt _ _ _ _ _ _ _ _ _ Hn E) as (t & rest & -> & _).
  reflexivity.
Qed.

(** X2.  The invoker logs each call once.  When debug logging is enabled
    the call and its status are recorded, also when the status is not
    zero; the only other record a call can leave is the error record of a
    diagnostic that could not be fetched, and only after a nonzero status.
    The calls that fetch the diagnostic are not logged, and they are
    queries: a failure never triggers a transfer of values. *)
Theorem invoker_logs_each_call_once (rt : Runtime) (ep : EntryPoint)
    (args : list CArg) (detail : option (list Z)) (w : World) (st : Z)
    (outs : list CArg) (h : list (list Z)) :
  native (lib w) (length (trace w)) ep args (heap w) = (st, outs, h) ->
  exists rest t,
    log (snd (_execute_function rt ep args detail w)) =
      log w ++ (if debug w
                then [log_debug (repr_function_call rt (ep_name ep) outs) st]
                else []) ++ rest /\
    (rest = [] \/
     st <> 0 /\ rest = [log_error (lit "Couldn't extract error message")]) /\
    trace (snd (_execute_function rt ep args detail w)) = trace w ++ (ep, st) :: t /\
    no_transfer t /\ (st = 0 -> t = []).
Proof.
  intros Hn.
  destruct (_execute_function rt ep args detail w) as [r w'] eqn:E.
  destruct (execute_function_world rt _ _ _ _ _ _ _ _ _ Hn E)
    as (t & rest & -> & Hnt & Hrest & H0 & _).
  exists rest, t. cbn. repeat split; auto. intros Hst. apply H0. exact Hst.
Qed.

Lemma invoker_logs_each_call_once_witness :
  exists rest t,
    log (snd (_execute_function Demo.runtime ep_get_var_rank
                [ABytes (lit "HEAD"); AInt 0] None Cases.verbose)) =
      [] ++ [log_debug (lit "get_var_rank(HEAD, &c_int)") 0] ++ rest /\
    (rest = [] \/
     0 <> 0 /\ rest = [log_error (lit "Couldn't extract error message")]) /\
    trace (snd (_execute_function Demo.runtime ep_get_var_rank
                  [ABytes (lit "HEAD"); AInt 0] None Cases.verbose)) =
      [] ++ (ep_get_var_rank, 0) :: t /\
    no_transfer t /\ (0 = 0 -> t = []).
Proof.
  apply (invoker_logs_each_call_once Demo.runtime ep_get_var_rank
           [ABytes (lit "HEAD"); AInt 0] None Cases.verbose 0
           [ABytes (lit "HEAD"); AInt 2] Cases.memory).
  reflexivity.
Defined.

(** ** Running a computation by equations *)

Lemma bind_eq {A B} (m : M A) (f : A -> M B) w a w1 x :
  m w = (Ok a, w1) -> f a w1 = x -> bind m f w = x.
Proof. unfold bind. intros -> H. exact H. Qed.

Lemma try_finally_eq {A} (body : M A) (cleanup : M unit) w r w1 w2 :
  body w = (r, w1) -> cleanup w1 = (Ok tt, w2) -> try_finally body cleanup w = (r, w2).
Proof. unfold try_finally. intros -> ->. reflexivity. Qed.

Lemma try_except_ok {A} (body handler : M A) w a w1 :
  body w = (Ok a, w1) -> try_except_AttributeError body handler w = (Ok a, w1).
Proof. unfold try_except_AttributeError. intros ->. reflexivity. Qed.

Lemma cd_eq {A} dir (body : M A) w r w1 :
  body (set_cwd dir w) = (r, w1) -> cd dir body w = (r, set_cwd (cwd w) w1).
Proof. unfold cd. intros ->. reflexivity. Qed.

(** ** The invoker: the error of a failed call *)

(** X3.  The error of a failed call.  When a call returns a nonzero
    status on a library that exports the two length constants and the two
    functions of the diagnostic, and these hold texts that fit their
    buffers, the invoker raises [XMIError] with the message
    "BMI exception in <call>: Message from <component> '<last error>'",
    followed by ", details : '<detail>'" when the caller gave a detail.
    The two diagnostic calls follow the failed call in the trace; they are
    made directly, so that they leave no record in the log. *)
Theorem invoker_reports_kernel_message (rt : Runtime) (ep : EntryPoint)
    (args : list CArg) (detail : option (list Z)) (w : World) (st : Z)
    (outs : list CArg) (h : list (list Z)) (len_err len_name : Z) :
  native (lib w) (length (trace w)) ep args (heap w) = (st, outs, h) -> st <> 0 ->
  k_constants (lib w) BMI_LENERRMESSAGE = Some len_err ->
  k_constants (lib w) BMI_LENCOMPONENTNAME = Some len_name ->
  k_exports (lib w) ep_get_last_bmi_error = true ->
  k_exports (lib w) ep_get_component_name = true ->
  k_script (lib w) (S (length (trace w))) ep_get_last_bmi_error = 0 ->
  k_script (lib w) (S (S (length (trace w)))) ep_get_component_name = 0 ->
  is_text (k_last_error (lib w)) = true ->
  Z.of_nat (length (k_last_error (lib w))) <= wrap32 len_err ->
  is_text (k_component_name (lib w)) = true ->
  Z.of_nat (length (k_component_name (lib w))) <= wrap32 len_name ->
  exists w',
    _execute_function rt ep args detail w =
      (Raise (XMIError
         ((lit "BMI exception in " ++ repr_function_call rt (ep_name ep) outs)
          ++ lit ": Message from " ++ k_component_name (lib w) ++ lit " "
          ++ lit "'" ++ k_last_error (lib w) ++ lit "'"
          ++ match detail with
             | Some d => lit ", details : '" ++ d ++ lit "'"
             | None => []
             end)), w') /\
    trace w' = trace w ++ [(ep, st); (ep_get_last_bmi_error, 0); (ep_get_component_name, 0)] /\
    heap w' = h /\
    log w' = log w ++ (if debug w
                       then [log_debug (repr_function_call rt (ep_name ep) outs) st]
                       else []).
Proof.
  intros Hn Hst Hce Hcn Hxe Hxn Hse Hsn Hte Hle Htn Hln. apply Z.eqb_neq in Hst.
  assert (Hde : decode (upto_nul (overwrite (k_last_error (lib w))
                                    (repeat 0 (Z.to_nat (wrap32 len_err))))) =
                Ok (k_last_error (lib w))) by (apply field_decodes; [assumption|lia]).
  assert (Hdn : decode (upto_nul (overwrite (k_component_name (lib w))
                                    (repeat 0 (Z.to_nat (wrap32 len_name))))) =
                Ok (k_component_name (lib w))) by (apply field_decodes; [assumption|lia]).
  assert (Hbe : create_string_buffer (wrap32 len_err) =
                ret (repeat 0 (Z.to_nat (wrap32 len_err)))).
  { unfold create_string_buffer. destruct (Z.ltb_spec (wrap32 len_err) 0); [lia|reflexivity]. }
  assert (Hbn : create_string_buffer (wrap32 len_name) =
                ret (repeat 0 (Z.to_nat (wrap32 len_name)))).
  { unfold create_string_buffer. destruct (Z.ltb_spec (wrap32 len_name) 0); [lia|reflexivity]. }
  assert (Hse' : forall l : list (EntryPoint * Z), length l = S (length (trace w)) ->
            k_script (lib w) (length l) ep_get_last_bmi_error = 0) by (intros l ->; exact Hse).
  assert (Hsn' : forall l : list (EntryPoint * Z), length l = S (S (length (trace w))) ->
            k_script (lib w) (length l) ep_get_component_name = 0) by (intros l ->; exact Hsn).
  destruct (timing w) eqn:Et, (debug w) eqn:Ed.
  all: eexists; split;
    [ unfold _execute_function;
      eapply bind_eq; [reflexivity|]; cbn beta; rewrite Et;
      eapply bind_eq; [reflexivity|]; cbn beta;
      eapply try_finally_eq;
      [ eapply bind_eq; [unfold foreign_call; cbn [lib trace heap set_ledger]; rewrite Hn; reflexivity|];
        cbn beta; cbn [fst snd];
        eapply bind_eq; [reflexivity|]; cbn beta;
        cbn [debug set_heap set_trace set_ledger]; rewrite Ed;
        eapply bind_eq; [reflexivity|]; cbn beta;
        rewrite Hst; cbn [negb];
        eapply bind_eq; [|reflexivity];
        apply try_except_ok;
        eapply bind_eq;
          [unfold get_constant_int; cbn [lib set_heap set_trace set_log set_ledger];
           rewrite Hce; reflexivity|]; cbn beta;
        rewrite Hbe; eapply bind_eq; [reflexivity|]; cbn beta;
        eapply bind_eq;
          [unfold lib_attr; cbn [lib set_heap set_trace set_log set_ledger];
           rewrite Hxe; reflexivity|]; cbn beta;
        eapply bind_eq;
          [unfold foreign_call, native;
           cbn [lib trace heap set_heap set_trace set_log set_ledger];
           rewrite Hse' by (rewrite length_app; cbn; lia);
           reflexivity|]; cbn beta; cbn [fst snd];
        eapply bind_eq;
          [unfold get_constant_int; cbn [lib set_heap set_trace set_log set_ledger];
           rewrite Hcn; reflexivity|]; cbn beta;
        rewrite Hbn; eapply bind_eq; [reflexivity|]; cbn beta;
        eapply bind_eq;
          [unfold lib_attr; cbn [lib set_heap set_trace set_log set_ledger];
           rewrite Hxn; reflexivity|]; cbn beta;
        eapply bind_eq;
          [unfold foreign_call, native;
           cbn [lib trace heap set_heap set_trace set_log set_ledger];
           rewrite Hsn' by (rewrite !length_app; cbn; lia);
           reflexivity|]; cbn beta; cbn [fst snd arg_buf lookup list_lookup];
        rewrite Hdn, Hde;
        eapply bind_eq; [reflexivity|]; cbn beta;
        eapply bind_eq; [reflexivity|]; cbn beta;
        reflexivity
      | eapply bind_eq; [reflexivity|]; cbn beta;
        cbn [timing set_heap set_trace set_log set_ledger]; rewrite Et; reflexivity ]
    | cbn; rewrite <- ?app_assoc, ?app_nil_r; auto ].
Qed.

Lemma invoker_reports_kernel_message_witness :
  exists w',
    _execute_function Demo.runtime ep_get_value_ptr
      [ABytes (lit "HEAD"); ANdptr None] (Some (lit "for variable HEAD"))
      (Demo.with_lib (Cases.refusing ep_get_value_ptr 1 Cases.kernel) Cases.verbose) =
      (Raise (XMIError (lit "BMI exception in get_value_ptr(HEAD, &ndpointer): Message from GW 'no such variable', details : 'for variable HEAD'")),
       w') /\
    trace w' = [(ep_get_value_ptr, 1); (ep_get_last_bmi_error, 0);
                (ep_get_component_name, 0)] /\
    log w' = [log_debug (lit "get_value_ptr(HEAD, &ndpointer)") 1].
Proof.
  destruct (invoker_reports_kernel_message Demo.runtime ep_get_value_ptr
              [ABytes (lit "HEAD"); ANdptr None] (Some (lit "for variable HEAD"))
              (Demo.with_lib (Cases.refusing ep_get_value_ptr 1 Cases.kernel) Cases.verbose)
              1 [ABytes (lit "HEAD"); ANdptr None] Cases.memory 32 2)
    as (w' & E & Ht & _ & Hl);
    try reflexivity; try discriminate.
  exists w'. split; [exact E|]. split; [exact Ht | exact Hl].
Defined.

(** ** The lifecycle: round trip, missing entry points, directory *)

Section LifecycleRuns.

Variable rt : Runtime.

(** A transition whose native call answers 0. *)
Lemma transition_world dir ep args s w outs h :
  k_exports (lib w) ep = true ->
  native (lib w) (length (trace w)) ep args (heap w) = (0, outs, h) ->
  exists w',
    cd dir (f <- lib_attr ep ;;
            _execute_function rt f args None ;;;
            modify (set_state s)) w = (Ok tt, w') /\
    _state w' = s /\ heap w' = h /\ trace w' = trace w ++ [(ep, 0)] /\
    cwd w' = cwd w /\ lib w' = lib w /\ stderr w' = stderr w /\
    working_directory w' = working_directory w.
Proof.
  intros Hx Hn.
  destruct (execute_function_ok rt ep args None (set_cwd dir w) outs h Hn)
    as (w1 & E & Ha).
  destruct Ha as (_ & Hh & Ht & _ & He & Hl & _ & _ & Hwd & _).
  exists (set_cwd (cwd w) (set_state s w1)). split.
  - apply cd_eq.
    eapply bind_eq; [unfold lib_attr; cbn [lib set_cwd]; rewrite Hx; reflexivity|].
    cbn beta. eapply bind_eq; [exact E|]. reflexivity.
  - cbn. auto 10.
Qed.

End LifecycleRuns.

(** X4.  The lifecycle can be run again and again.  On a library that
    exports [initialize] and [finalize] and whose calls return 0, a wrapper
    in the Uninitialized state is initialised, finalised and initialised
    again: each step succeeds, the state goes to Initialized, back to
    Uninitialized and to Initialized again, the two native calls are made
    in this order and once each, and the process is back in the directory
    it started from. *)
Theorem initialize_then_finalize (rt : Runtime) (w : World) (cfg : list Z) :
  _state w = UNINITIALIZED ->
  k_exports (lib w) ep_initialize = true ->
  k_exports (lib w) ep_finalize = true ->
  (forall n ep, k_script (lib w) n ep = 0) ->
  exists w1 w2 w3,
    initialize rt cfg w = (Ok tt, w1) /\ _state w1 = INITIALIZED /\
    finalize rt w1 = (Ok tt, w2) /\ _state w2 = UNINITIALIZED /\
    trace w2 = trace w ++ [(ep_initialize, 0); (ep_finalize, 0)] /\
    cwd w2 = cwd w /\
    initialize rt cfg w2 = (Ok tt, w3) /\ _state w3 = INITIALIZED.
Proof.
  intros Hs Hxi Hxf Hk.
  assert (Hrun : forall w0 s ep args, lib w0 = lib w ->
            (ep = ep_initialize \/ ep = ep_finalize) ->
            exists w', cd (working_directory w0)
                         (f <- lib_attr ep ;; _execute_function rt f args None ;;;
                          modify (set_state s)) w0 = (Ok tt, w') /\
              _state w' = s /\ heap w' = heap w0 /\ trace w' = trace w0 ++ [(ep, 0)] /\
              cwd w' = cwd w0 /\ lib w' = lib w).
  { intros w0 s ep args Hl Hep.
    destruct (transition_world rt (working_directory w0) ep args s w0 args (heap w0))
      as (w' & E & H1 & H2 & H3 & H4 & H5 & _).
    - rewrite Hl. destruct Hep as [-> | ->]; assumption.
    - unfold native. rewrite Hl, Hk. destruct Hep as [-> | ->]; reflexivity.
    - exists w'. rewrite H5. auto 10. }
  destruct (Hrun w INITIALIZED ep_initialize [ABytes cfg] eq_refl)
    as (w1 & E1 & S1 & H1 & T1 & C1 & L1); [auto|].
  destruct (Hrun w1 UNINITIALIZED ep_finalize [] L1)
    as (w2 & E2 & S2 & H2 & T2 & C2 & L2); [auto|].
  destruct (Hrun w2 INITIALIZED ep_initialize [ABytes cfg] L2)
    as (w3 & E3 & S3 & _); [auto|].
  exists w1, w2, w3.
  split; [unfold initialize, bind, gets; rewrite Hs; exact E1|].
  split; [exact S1|].
  split; [unfold finalize, bind, gets; rewrite S1; exact E2|].
  split; [exact S2|].
  split; [rewrite T2, T1, <- app_assoc; reflexivity|].
  split; [congruence|].
  split; [unfold initialize, bind, gets; rewrite S2; exact E3 | exact S3].
Qed.

Lemma initialize_then_finalize_witness :
  exists w1 w2 w3,
    initialize Demo.runtime [] Demo.world = (Ok tt, w1) /\ _state w1 = INITIALIZED /\
    finalize Demo.runtime w1 = (Ok tt, w2) /\ _state w2 = UNINITIALIZED /\
    trace w2 = trace Demo.world ++ [(ep_initialize, 0); (ep_finalize, 0)] /\
    cwd w2 = cwd Demo.world /\
    initialize Demo.runtime [] w2 = (Ok tt, w3) /\ _state w3 = INITIALIZED.
Proof.
  apply (initialize_then_finalize Demo.runtime Demo.world []); reflexivity.
Defined.

(** X5.  A library that lacks an entry point.  Resolving the function is
    the first thing a method does, inside the scope of the working
    directory: [initialize], [initialize_mpi] and [finalize] on a library
    without their entry point raise [AttributeError] and leave the world
    exactly as it was (the state, the directory, the trace: no native call
    is made); the teardown of an Initialized wrapper then reports this
    error on the error stream.  Likewise [get_value], [get_value_ptr] and
    [get_var_shape] on a library without [get_var_rank]. *)
Theorem missing_entry_point_changes_nothing (rt : Runtime) (w : World) :
  (forall cfg, _state w = UNINITIALIZED -> k_exports (lib w) ep_initialize = false ->
     initialize rt cfg w = (Raise AttributeError, w)) /\
  (forall value, _state w = UNINITIALIZED ->
     k_exports (lib w) ep_initialize_mpi = false ->
     initialize_mpi rt value w = (Raise AttributeError, w)) /\
  (_state w = INITIALIZED -> k_exports (lib w) ep_finalize = false ->
     finalize rt w = (Raise AttributeError, w) /\
     teardown rt w = (Ok tt, set_stderr (stderr w ++ [AttributeError]) w)) /\
  (forall name dest, k_exports (lib w) ep_get_var_rank = false ->
     (forall d, dest = Some d -> flags_C d = true) ->
     get_value rt name dest w = (Raise AttributeError, w) /\
     get_value_ptr rt name w = (Raise AttributeError, w) /\
     get_var_shape rt name w = (Raise AttributeError, w)).
Proof.
  assert (Hcd : forall ep args s, k_exports (lib w) ep = false ->
            cd (working_directory w)
               (f <- lib_attr ep ;; _execute_function rt f args None ;;;
                modify (set_state s)) w = (Raise AttributeError, w)).
  { intros ep args s Hx. unfold cd, bind, lib_attr. cbn [lib set_cwd]. rewrite Hx.
    rewrite set_cwd_restore. reflexivity. }
  split; [|split; [|split]].
  - intros cfg Hs Hx. unfold initialize, bind, gets. rewrite Hs. apply Hcd, Hx.
  - intros value Hs Hx. unfold initialize_mpi, bind, gets. rewrite Hs. apply Hcd, Hx.
  - intros Hs Hx.
    assert (Hf : finalize rt w = (Raise AttributeError, w))
      by (unfold finalize, bind, gets; rewrite Hs; apply Hcd, Hx).
    split; [exact Hf|].
    unfold teardown, __del__, bind, gets. rewrite Hs, Hf. reflexivity.
  - intros name dest Hx Hc.
    assert (Hr : get_var_rank rt name w = (Raise AttributeError, w))
      by (unfold get_var_rank, bind, lib_attr; rewrite Hx; reflexivity).
    split; [|split].
    + unfold get_value.
      erewrite bind_eq; [reflexivity | | unfold bind; rewrite Hr; reflexivity].
      destruct dest as [d|]; [rewrite (Hc d eq_refl)|]; reflexivity.
    + unfold get_value_ptr, bind. rewrite Hr. reflexivity.
    + unfold get_var_shape, bind. rewrite Hr. reflexivity.
Qed.

Lemma missing_entry_point_changes_nothing_witness :
  initialize Demo.runtime []
    (Demo.with_lib (Cases.without ep_initialize Demo.kernel) Demo.world) =
    (Raise AttributeError,
     Demo.with_lib (Cases.without ep_initialize Demo.kernel) Demo.world) /\
  get_value Demo.runtime (lit "HEAD") None
    (Demo.with_lib (Cases.without ep_get_var_rank Demo.kernel) Demo.world) =
    (Raise AttributeError,
     Demo.with_lib (Cases.without ep_get_var_rank Demo.kernel) Demo.world).
Proof.
  destruct (missing_entry_point_changes_nothing Demo.runtime
              (Demo.with_lib (Cases.without ep_initialize Demo.kernel) Demo.world))
    as (H1 & _).
  destruct (missing_entry_point_changes_nothing Demo.runtime
              (Demo.with_lib (Cases.without ep_get_var_rank Demo.kernel) Demo.world))
    as (_ & _ & _ & H4).
  split.
  - apply H1; reflexivity.
  - apply (H4 (lit "HEAD") None); [reflexivity | discriminate].
Defined.


(** ** Methods that do not consult the lifecycle state *)

Lemma ignores_ret {A} (a : A) : ignores_state (ret a).
Proof. intros s w. reflexivity. Qed.

Lemma ignores_raise {A} e : ignores_state (@raise A e).
Proof. intros s w. reflexivity. Qed.

Lemma ignores_lift {A} (x : res A) : ignores_state (lift x).
Proof. intros s w. reflexivity. Qed.

Lemma ignores_gets {A} (f : World -> A) :
  (forall s w, f (set_state s w) = f w) -> ignores_state (gets f).
Proof. intros Hf s w. unfold gets. rewrite Hf. reflexivity. Qed.

Lemma ignores_modify (g : World -> World) :
  (forall s w, g (set_state s w) = set_state s (g w)) -> ignores_state (modify g).
Proof. intros Hg s w. unfold modify. rewrite Hg. reflexivity. Qed.

Lemma ignores_bind {A B} (m : M A) (f : A -> M B) :
  ignores_state m -> (forall a, ignores_state (f a)) -> ignores_state (bind m f).
Proof.
  intros Hm Hf s w. unfold bind. rewrite Hm.
  destruct (m w) as [[a|e] w1]; cbn [fst snd]; [apply Hf | reflexivity].
Qed.

Lemma ignores_when (c : bool) (m : M unit) : ignores_state m -> ignores_state (when c m).
Proof. destruct c; simpl; auto using ignores_ret. Qed.

Lemma ignores_try_except {A} (body handler : M A) :
  ignores_state body -> ignores_state handler ->
  ignores_state (try_except_AttributeError body handler).
Proof.
  intros Hb Hh s w. unfold try_except_AttributeError. rewrite Hb.
  destruct (body w) as [[a|e] w1]; cbn [fst snd]; [reflexivity|].
  destruct e; try reflexivity. apply Hh.
Qed.

Lemma ignores_try_finally {A} (body : M A) (cleanup : M unit) :
  ignores_state body -> ignores_state cleanup ->
  ignores_state (try_finally body cleanup).
Proof.
  intros Hb Hc s w. unfold try_finally. rewrite Hb.
  destruct (body w) as [r w1]; cbn [fst snd]. rewrite Hc.
  destruct (cleanup w1) as [[u|e] w2]; reflexivity.
Qed.

Lemma ignores_for_each {A B} (xs : list A) (body : A -> M B) :
  (forall x, ignores_state (body x)) -> ignores_state (for_each xs body).
Proof.
  intros Hb. induction xs as [|x xs IH]; simpl.
  - apply ignores_ret.
  - apply ignores_bind; [apply Hb|]. intros y.
    apply ignores_bind; [exact IH|]. intros ys. apply ignores_ret.
Qed.

Lemma ignores_allocate (cells : World -> nat -> list Z) :
  (forall s w n, cells (set_state s w) n = cells w n) -> ignores_state (allocate cells).
Proof. intros Hc s w. unfold allocate. cbn [heap set_state]. rewrite Hc. reflexivity. Qed.

Lemma ignores_lib_attr ep : ignores_state (lib_attr ep).
Proof. intros s w. unfold lib_attr. cbn [lib set_state]. destruct (k_exports _ _); reflexivity. Qed.

Lemma ignores_get_constant_int c : ignores_state (get_constant_int c).
Proof.
  intros s w. unfold get_constant_int. cbn [lib set_state].
  destruct (k_constants _ _); reflexivity.
Qed.

Lemma ignores_create_string_buffer n : ignores_state (create_string_buffer n).
Proof.
  unfold create_string_buffer. destruct (n <? 0); auto using ignores_raise, ignores_ret.
Qed.

Lemma ignores_foreign_call ep args : ignores_state (foreign_call ep args).
Proof.
  intros s w. unfold foreign_call. cbn [lib trace heap set_state].
  destruct (native _ _ _ _ _) as [[st outs] h]. reflexivity.
Qed.

(** The lemmas on the methods that ignore the state. *)
Create HintDb blind.

(** Decomposing a computation into steps that ignore the state. *)
Ltac blind_step :=
  lazymatch goal with
  | |- forall _, ignores_state _ => intros ?
  | |- ignores_state (bind _ _) => apply ignores_bind
  | |- ignores_state (ret _) => apply ignores_ret
  | |- ignores_state (raise _) => apply ignores_raise
  | |- ignores_state (lift _) => apply ignores_lift
  | |- ignores_state (gets _) => apply ignores_gets; intros; reflexivity
  | |- ignores_state (read_block _) => apply ignores_gets; intros; reflexivity
  | |- ignores_state (modify _) => apply ignores_modify; intros; reflexivity
  | |- ignores_state (write_block _ _) => apply ignores_modify; intros; reflexivity
  | |- ignores_state (logger_debug _ _) => apply ignores_modify; intros; reflexivity
  | |- ignores_state (logger_error _) => apply ignores_modify; intros; reflexivity
  | |- ignores_state (timer_start_fn _) => apply ignores_modify; intros; reflexivity
  | |- ignores_state (timer_stop_fn _) => apply ignores_modify; intros; reflexivity
  | |- ignores_state (when _ _) => apply ignores_when
  | |- ignores_state (try_except_AttributeError _ _) => apply ignores_try_except
  | |- ignores_state (try_finally _ _) => apply ignores_try_finally
  | |- ignores_state (for_each _ _) => apply ignores_for_each
  | |- ignores_state (allocate _) => apply ignores_allocate; intros; reflexivity
  | |- ignores_state (lib_attr _) => apply ignores_lib_attr
  | |- ignores_state (foreign_call _ _) => apply ignores_foreign_call
  | |- ignores_state (create_string_buffer _) => apply ignores_create_string_buffer
  | |- ignores_state (get_constant_int _) => apply ignores_get_constant_int
  | |- ignores_state (if ?c then _ else _) => destruct c
  | |- ignores_state (match ?x with _ => _ end) => destruct x
  | |- ignores_state _ => solve [eauto 3 with blind]
  end.

Section Blind.

Variable rt : Runtime.

Lemma ignores_execute_function ep args detail :
  ignores_state (_execute_function rt ep args detail).
Proof. unfold _execute_function. repeat blind_step. Qed.

Hint Resolve ignores_execute_function : blind.

Lemma ignores_np_empty sh dt : ignores_state (np_empty sh dt).
Proof. unfold np_empty. repeat blind_step. Qed.

Lemma ignores_np_zeros sh dt : ignores_state (np_zeros sh dt).
Proof. unfold np_zeros. repeat blind_step. Qed.

Lemma ignores_np_copy a : ignores_state (np_copy a).
Proof. unfold np_copy. repeat blind_step. Qed.

Lemma ignores_contents dt sh p : ignores_state (contents dt sh p).
Proof. unfold contents. repeat blind_step. Qed.

Hint Resolve ignores_np_empty ignores_np_zeros ignores_np_copy ignores_contents : blind.

Lemma ignores_get_var_type name : ignores_state (get_var_type rt name).
Proof. unfold get_var_type. repeat blind_step. Qed.

Lemma ignores_get_var_rank name : ignores_state (get_var_rank rt name).
Proof. unfold get_var_rank. repeat blind_step. Qed.

Lemma ignores_get_var_nbytes name : ignores_state (get_var_nbytes rt name).
Proof. unfold get_var_nbytes. repeat blind_step. Qed.

Hint Resolve ignores_get_var_type ignores_get_var_rank ignores_get_var_nbytes : blind.

Lemma ignores_get_var_shape name : ignores_state (get_var_shape rt name).
Proof. unfold get_var_shape. repeat blind_step. Qed.

Lemma ignores_get_value_ptr_scalar name : ignores_state (get_value_ptr_scalar rt name).
Proof. unfold get_value_ptr_scalar. repeat blind_step. Qed.

Hint Resolve ignores_get_var_shape ignores_get_value_ptr_scalar : blind.

Lemma ignores_get_value_ptr name : ignores_state (get_value_ptr rt name).
Proof. unfold get_value_ptr. repeat blind_step. Qed.

Lemma ignores_setitem0 dest from v : ignores_state (setitem0 rt dest from v).
Proof. unfold setitem0. repeat blind_step. Qed.

Lemma ignores_getitem0 src : ignores_state (getitem0 src).
Proof. unfold getitem0. repeat blind_step. Qed.

Lemma ignores_strip_element dest i : ignores_state (strip_element dest i).
Proof. unfold strip_element. repeat blind_step. Qed.

Lemma ignores_astype_str dest : ignores_state (astype_str rt dest).
Proof. unfold astype_str. repeat blind_step. Qed.

Hint Resolve ignores_setitem0 ignores_getitem0 ignores_strip_element
  ignores_astype_str : blind.

Lemma ignores_get_value name dest : ignores_state (get_value rt name dest).
Proof. unfold get_value. repeat blind_step. Qed.

Lemma ignores_set_value name values : ignores_state (set_value rt name values).
Proof. unfold set_value. repeat blind_step. Qed.

Lemma ignores_names : 
  ignores_state (get_input_var_names rt) /\ ignores_state (get_output_var_names rt).
Proof.
  unfold get_input_var_names, get_output_var_names, get_input_item_count,
    get_output_item_count, decode_names. split; repeat blind_step.
Qed.

End Blind.

(** X7.  Only the lifecycle methods read the lifecycle state.  The value
    methods [get_value], [get_value_ptr] and [set_value] and the catalog
    queries carry no guard: run in the Uninitialized state they make the
    same native calls, return the same result and change the world in the
    same way as in the Initialized state, and they leave the state as it
    is. *)
Theorem only_the_lifecycle_reads_the_state (rt : Runtime) (name : list Z)
    (dest : option ndarray) (values : ndarray) :
  ignores_state (get_value rt name dest) /\
  ignores_state (get_value_ptr rt name) /\
  ignores_state (set_value rt name values) /\
  ignores_state (get_var_type rt name) /\
  ignores_state (get_var_rank rt name) /\
  ignores_state (get_var_shape rt name) /\
  ignores_state (get_var_nbytes rt name) /\
  ignores_state (get_input_var_names rt) /\
  ignores_state (get_output_var_names rt) /\
  (forall w,
     fst (get_value rt name dest (set_state UNINITIALIZED w)) =
     fst (get_value rt name dest (set_state INITIALIZED w)) /\
     fst (set_value rt name values (set_state UNINITIALIZED w)) =
     fst (set_value rt name values (set_state INITIALIZED w))).
Proof.
  pose proof (ignores_get_value rt name dest) as Hg.
  pose proof (ignores_set_value rt name values) as Hs.
  repeat split;
    auto using ignores_get_value_ptr, ignores_get_var_type, ignores_get_var_rank,
      ignores_get_var_shape, ignores_get_var_nbytes;
    try apply ignores_names.
  - rewrite !Hg. reflexivity.
  - rewrite !Hs. reflexivity.
Qed.

(** ** Integer data symbols *)

Lemma wrap32_range z : - 2 ^ 31 <= wrap32 z < 2 ^ 31.
Proof. unfold wrap32. pose proof (Z.mod_pos_bound (z + 2 ^ 31) (2 ^ 32)). lia. Qed.

Lemma Const_eqb_eq a b : Const_eqb a b = true <-> a = b.
Proof. destruct a, b; simpl; split; congruence. Qed.

(** X8.  Integer data symbols.  [set_int] on a symbol that the library
    does not export raises [ValueError] and changes nothing, as
    [get_constant_int] does.  On an exported symbol it succeeds, and
    [get_constant_int] then returns the value that was set, reduced to a
    signed 32-bit integer (the value itself when it is in range); the
    other symbols, the memory, the trace and the lifecycle state are
    untouched. *)
Theorem set_int_then_get_constant_int (name : Const) (value : Z) (w : World) :
  (k_constants (lib w) name = None ->
     set_int name value w = (Raise ValueError, w) /\
     get_constant_int name w = (Raise ValueError, w)) /\
  (forall z, k_constants (lib w) name = Some z ->
     exists w',
       set_int name value w = (Ok tt, w') /\
       get_constant_int name w' = (Ok (wrap32 value), w') /\
       (- 2 ^ 31 <= value < 2 ^ 31 -> get_constant_int name w' = (Ok value, w')) /\
       (forall c, c <> name ->
          get_constant_int c w' = (fst (get_constant_int c w), w')) /\
       _state w' = _state w /\ heap w' = heap w /\ trace w' = trace w).
Proof.
  split.
  - intros Hc. unfold set_int, get_constant_int. rewrite Hc. auto.
  - intros z Hc. unfold set_int. rewrite Hc. eexists. split; [reflexivity|].
    assert (Hget : get_constant_int name
                     (set_lib (store_constant name (wrap32 value) (lib w)) w) =
                   (Ok (wrap32 value),
                    set_lib (store_constant name (wrap32 value) (lib w)) w)).
    { unfold get_constant_int. cbn.
      rewrite (proj2 (Const_eqb_eq name name) eq_refl).
      rewrite (wrap32_small (wrap32 value)) by apply wrap32_range. reflexivity. }
    split; [exact Hget|].
    split; [intros Hv; rewrite Hget, wrap32_small by exact Hv; reflexivity|].
    split; [|cbn; auto].
    intros c Hne. unfold get_constant_int. cbn.
    destruct (Const_eqb c name) eqn:E; [apply Const_eqb_eq in E; contradiction|].
    destruct (k_constants (lib w) c); reflexivity.
Qed.

Lemma set_int_then_get_constant_int_witness :
  exists w',
    set_int BMI_LENVARTYPE (2 ^ 32 + 64) Demo.world = (Ok tt, w') /\
    get_constant_int BMI_LENVARTYPE w' = (Ok 64, w') /\
    get_constant_int BMI_LENVARADDRESS w' = (Ok 8, w').
Proof.
  destruct (set_int_then_get_constant_int BMI_LENVARTYPE (2 ^ 32 + 64) Demo.world)
    as (_ & H).
  destruct (H 51 eq_refl) as (w' & E & Hg & _ & Ho & _).
  exists w'. split; [exact E|]. split; [exact Hg|].
  apply (Ho BMI_LENVARADDRESS). discriminate.
Defined.

(** ** Catalog and aliases *)

Lemma leading_zeros_positive l : Forall (fun d => 0 < d) l -> leading_zeros l = 0%nat.
Proof.
  intros [|d r Hd _]; simpl; [reflexivity|].
  destruct (Z.eqb_spec d 0); [lia | reflexivity].
Qed.

Lemma trim_zeros_positive l : Forall (fun d => 0 < d) l -> trim_zeros l = l.
Proof.
  intros H. unfold trim_zeros.
  rewrite (leading_zeros_positive l H).
  rewrite (leading_zeros_positive (rev l)) by (apply Forall_rev; exact H).
  simpl. rewrite !Nat.sub_0_r. apply firstn_all.
Qed.

(** X9.  On a kernel that follows the convention, [get_var_rank] returns
    the number of dimensions of the variable, and [get_var_shape] asks for
    the rank first and then returns a new int32 array of that length, in a
    block that did not exist before the call, which holds the dimensions
    as the kernel reports them. *)
Theorem get_var_shape_returns_dimensions (rt : Runtime) (k : Kernel)
    (name : list Z) (v : KVar) (w : World) :
  serves k name v -> lib w = k ->
  fst (get_var_rank rt name w) = Ok (Z.of_nat (length (kv_shape v))) /\
  exists w',
    get_var_shape rt name w =
      (Ok {| data := length (heap w); nd_dtype := int32;
             shape := [Z.of_nat (length (kv_shape v))]; flags_C := true |}, w') /\
    heap w' = heap w ++ [kv_shape v] /\
    trace w' = trace w ++ [(ep_get_var_rank, 0); (ep_get_var_shape, 0)].
Proof.
  intros Hs Hk. split.
  - destruct (get_var_rank_runs rt k name v w Hs Hk) as (w' & E & _).
    rewrite E. reflexivity.
  - destruct (get_var_shape_runs rt k name v w Hs Hk) as (w' & E & Ha).
    exists w'. split; [exact E|].
    split; [exact (after_heap _ _ _ _ Ha) | exact (after_trace _ _ _ _ Ha)].
Qed.

Lemma get_var_shape_returns_dimensions_witness :
  fst (get_var_rank Demo.runtime (lit "IBOUND") Demo.world) = Ok 3 /\
  exists w',
    get_var_shape Demo.runtime (lit "IBOUND") Demo.world =
      (Ok {| data := 8; nd_dtype := int32; shape := [3]; flags_C := true |}, w') /\
    heap w' = heap Demo.world ++ [[4; 0; 0]] /\
    trace w' = trace Demo.world ++ [(ep_get_var_rank, 0); (ep_get_var_shape, 0)].
Proof.
  refine (get_var_shape_returns_dimensions Demo.runtime Demo.kernel (lit "IBOUND")
            {| kv_type := lit "INTEGER (4)"; kv_shape := [4; 0; 0]; kv_nbytes := 16;
               kv_addr := 6 |} Demo.world _ _).
  - split; try reflexivity.
    exists 51. split; [reflexivity | vm_compute; discriminate].
  - reflexivity.
Defined.

(** X10.  The aliased view of a scalar.  On a kernel that follows the
    convention, [get_value_ptr] on a variable of rank 0 whose type string
    starts with "double", "float" or "int" returns a one-element view, of
    shape (1,) and of the matching element type, over the storage of the
    variable; the shape is not queried and no memory is allocated. *)
Theorem scalar_alias_is_one_element_view (rt : Runtime) (k : Kernel)
    (name : list Z) (v : KVar) (dt : dtype) (w : World) :
  serves k name v -> lib w = k -> kv_shape v = [] ->
  numeric_dtype (kv_type v) = Some dt ->
  exists w',
    get_value_ptr rt name w =
      (Ok {| data := kv_addr v; nd_dtype := dt; shape := [1]; flags_C := true |}, w') /\
    heap w' = heap w /\
    trace w' = trace w ++ [(ep_get_var_rank, 0); (ep_get_var_type, 0);
                           (ep_get_value_ptr, 0)].
Proof.
  intros Hs Hk Hsh Hdt.
  assert (Hr : runs (get_value_ptr rt name) w
                 (Ok {| data := kv_addr v; nd_dtype := dt; shape := [1]; flags_C := true |})
                 (after w (heap w) [(ep_get_var_rank, 0); (ep_get_var_type, 0);
                                    (ep_get_value_ptr, 0)])).
  { unfold get_value_ptr.
    eapply runs_step; [apply after_refl | eapply get_var_rank_runs; eauto |].
    intros w1 H1. simpl in H1. rewrite Hsh. simpl.
    exact (get_value_ptr_scalar_runs rt k name v Hs w w1 (heap w)
             [(ep_get_var_rank, 0)] dt Hk H1 Hdt). }
  destruct Hr as (w' & E & Ha). exists w'. split; [exact E|].
  split; [exact (after_heap _ _ _ _ Ha) | exact (after_trace _ _ _ _ Ha)].
Qed.

Lemma scalar_alias_is_one_element_view_witness :
  exists w',
    get_value_ptr Demo.runtime (lit "MXITER") Demo.world =
      (Ok {| data := 1; nd_dtype := int32; shape := [1]; flags_C := true |}, w') /\
    heap w' = heap Demo.world /\
    trace w' = trace Demo.world ++ [(ep_get_var_rank, 0); (ep_get_var_type, 0);
                                    (ep_get_value_ptr, 0)].
Proof.
  refine (scalar_alias_is_one_element_view Demo.runtime Demo.kernel (lit "MXITER")
            {| kv_type := lit "INTEGER"; kv_shape := []; kv_nbytes := 4; kv_addr := 1 |}
            int32 Demo.world _ _ _ _); try reflexivity.
  split; try reflexivity.
  exists 51. split; [reflexivity | vm_compute; discriminate].
Defined.

(** X11.  An aliased view is live.  On a kernel that follows the
    convention, for a variable of rank at least 1 with positive dimensions
    and a source [X] that [set_value] accepts, the view that
    [get_value_ptr] returned before the write has the shape of the
    variable and shows the old cells, and after [set_value] the same view
    shows the cells of [X]. *)
Theorem alias_sees_later_writes (rt : Runtime) (k : Kernel) (name : list Z)
    (v : KVar) (w : World) (X : ndarray) (xs old : list Z) :
  serves k name v -> lib w = k ->
  kv_shape v <> [] -> Forall (fun d => 0 < d) (kv_shape v) ->
  flags_C X = true -> declared_dtype (kv_type v) = Some (nd_dtype X) ->
  heap w !! data X = Some xs -> heap w !! kv_addr v = Some old ->
  length xs = length old ->
  exists alias w1 w2,
    get_value_ptr rt name w = (Ok alias, w1) /\
    nd_dtype alias = nd_dtype X /\ shape alias = kv_shape v /\
    heap w1 !! data alias = Some old /\
    set_value rt name X w1 = (Ok tt, w2) /\
    heap w2 !! data alias = Some xs.
Proof.
  intros Hs Hk Hsh Hpos Hc Hdt Hx Hold Hlen.
  destruct (declared_numeric _ _ Hdt) as [Hnum _].
  destruct (get_value_ptr_array_runs rt k name v (nd_dtype X) w Hs Hk Hsh Hnum)
    as (w1 & E1 & H1).
  { rewrite trim_zeros_positive by exact Hpos. exact Hpos. }
  rewrite trim_zeros_positive in E1 by exact Hpos.
  pose proof (after_heap _ _ _ _ H1) as Hh1.
  assert (Hk1 : lib w1 = k) by (rewrite (after_lib _ _ _ _ H1); exact Hk).
  assert (Hx1 : heap w1 !! data X = Some xs).
  { rewrite Hh1, lookup_app_l by (eapply lookup_lt_Some; exact Hx). exact Hx. }
  assert (Ho1 : heap w1 !! kv_addr v = Some old).
  { rewrite Hh1, lookup_app_l by (eapply lookup_lt_Some; exact Hold). exact Hold. }
  destruct (set_value_runs rt k name v Hs w1 X xs old Hk1 Hc Hdt Hx1 Ho1 Hlen)
    as (w2 & E2 & Hh2 & _).
  eexists _, w1, w2. split; [exact E1|]. simpl.
  split; [reflexivity|]. split; [reflexivity|]. split; [exact Ho1|].
  split; [exact E2|].
  rewrite Hh2. apply list_lookup_insert_eq. eapply lookup_lt_Some; exact Ho1.
Qed.

Lemma alias_sees_later_writes_witness :
  exists alias w1 w2,
    get_value_ptr Demo.runtime (lit "HEAD") Demo.world = (Ok alias, w1) /\
    nd_dtype alias = float64 /\ shape alias = [2; 3] /\
    heap w1 !! data alias = Some [11; 12; 13; 21; 22; 23] /\
    set_value Demo.runtime (lit "HEAD") Demo.doubles w1 = (Ok tt, w2) /\
    heap w2 !! data alias = Some [31; 32; 33; 41; 42; 43].
Proof.
  refine (alias_sees_later_writes Demo.runtime Demo.kernel (lit "HEAD")
            {| kv_type := lit "DOUBLE (3,2)"; kv_shape := [2; 3]; kv_nbytes := 48;
               kv_addr := 0 |} Demo.world Demo.doubles
            [31; 32; 33; 41; 42; 43] [11; 12; 13; 21; 22; 23]
            _ _ _ _ _ _ _ _ _); try reflexivity.
  - split; try reflexivity.
    exists 51. split; [reflexivity | vm_compute; discriminate].
  - discriminate.
  - repeat constructor.
Defined.

(** X12.  Reading is repeatable and does not disturb memory.  On a kernel
    that follows the convention, two successive [get_value] calls without
    destination on a variable of rank at least 1 whose type string starts
    with "double" or "int" return two different arrays with the same
    cells, those of the storage, and every block of memory that existed
    before the two calls is unchanged after them. *)
Theorem get_value_is_repeatable (rt : Runtime) (k : Kernel) (name : list Z)
    (v : KVar) (dt : dtype) (w : World) (cells : list Z) :
  serves k name v -> lib w = k ->
  kv_shape v <> [] -> Forall (fun d => 0 <= d) (kv_shape v) ->
  declared_dtype (kv_type v) = Some dt ->
  heap w !! kv_addr v = Some cells -> length cells = size (kv_shape v) ->
  exists r1 w1 r2 w2,
    get_value rt name None w = (Ok r1, w1) /\
    get_value rt name None w1 = (Ok r2, w2) /\
    data r1 <> data r2 /\
    heap w2 !! data r1 = Some cells /\ heap w2 !! data r2 = Some cells /\
    forall a, (a < length (heap w))%nat -> heap w2 !! a = heap w !! a.
Proof.
  intros Hs Hk Hsh Hdims Hdt Hsrc Hlen.
  destruct (get_value_array_runs rt k name v Hs w dt cells Hk Hsh Hdt Hdims Hsrc Hlen)
    as (w1 & E1 & Hh1 & Hk1).
  assert (Hsrc1 : heap w1 !! kv_addr v = Some cells).
  { rewrite Hh1, lookup_app_l by (eapply lookup_lt_Some; exact Hsrc). exact Hsrc. }
  destruct (get_value_array_runs rt k name v Hs w1 dt cells Hk1 Hsh Hdt Hdims Hsrc1 Hlen)
    as (w2 & E2 & Hh2 & _).
  eexists _, w1, _, w2. split; [exact E1|]. split; [exact E2|]. simpl.
  assert (Hl1 : length (heap w1) = (length (heap w) + 2)%nat)
    by (rewrite Hh1, length_app; reflexivity).
  split; [lia|]. rewrite Hh2.
  split; [|split].
  - rewrite lookup_app_l by lia. rewrite Hh1.
    rewrite lookup_app_r by lia.
    replace (S (length (heap w)) - length (heap w))%nat with 1%nat by lia. reflexivity.
  - rewrite lookup_app_r by lia.
    replace (S (length (heap w1)) - length (heap w1))%nat with 1%nat by lia. reflexivity.
  - intros a Ha. rewrite lookup_app_l by lia. rewrite Hh1. apply lookup_app_l. exact Ha.
Qed.

Lemma get_value_is_repeatable_witness :
  exists r1 w1 r2 w2,
    get_value Demo.runtime (lit "HEAD") None Demo.world = (Ok r1, w1) /\
    get_value Demo.runtime (lit "HEAD") None w1 = (Ok r2, w2) /\
    data r1 <> data r2 /\
    heap w2 !! data r1 = Some [11; 12; 13; 21; 22; 23] /\
    heap w2 !! data r2 = Some [11; 12; 13; 21; 22; 23] /\
    forall a, (a < length (heap Demo.world))%nat -> heap w2 !! a = heap Demo.world !! a.
Proof.
  refine (get_value_is_repeatable Demo.runtime Demo.kernel (lit "HEAD")
            {| kv_type := lit "DOUBLE (3,2)"; kv_shape := [2; 3]; kv_nbytes := 48;
               kv_addr := 0 |} float64 Demo.world [11; 12; 13; 21; 22; 23]
            _ _ _ _ _ _ _); try reflexivity.
  - split; try reflexivity.
    exists 51. split; [reflexivity | vm_compute; discriminate].
  - discriminate.
  - repeat constructor; discriminate.
Defined.

(** ** Values: destinations, writes and the types that are refused *)

Lemma prefix_float s :
  startswith s (lit "float") = true ->
  startswith s (lit "double") = false /\ startswith s (lit "int") = false /\
  startswith s (lit "string") = false.
Proof.
  change (lit "float") with (102 :: lit "loat").
  intros H. apply startswith_head in H as (r & ->). auto.
Qed.

Lemma prefix_string s :
  startswith s (lit "string") = true ->
  startswith s (lit "double") = false /\ startswith s (lit "float") = false /\
  startswith s (lit "int") = false.
Proof.
  change (lit "string") with (115 :: lit "tring").
  intros H. apply startswith_head in H as (r & ->). auto.
Qed.

Lemma rank_not_zero (sh : list Z) : sh <> [] -> (Z.of_nat (length sh) =? 0) = false.
Proof. intros H. destruct sh; [congruence|]. apply Z.eqb_neq. simpl. lia. Qed.

(** The queries that open [get_value] and [get_value_ptr] for a variable
    of rank at least 1: the rank, the type, and the shape, which is read
    into a new block. *)
Ltac opening rt k name v Hs Hk Hsh w :=
  let w1 := fresh "w1" in let H1 := fresh "H1" in
  let w2 := fresh "w2" in let H2 := fresh "H2" in
  eapply runs_step; [apply after_refl | eapply (get_var_rank_runs rt k name v); eauto |];
  intros w1 H1; simpl in H1;
  eapply runs_step;
    [exact H1
    | eapply (get_var_type_runs rt k name v);
        [exact Hs | rewrite (after_lib _ _ _ _ H1); exact Hk]
    |];
  intros w2 H2; simpl in H2; rewrite (after_heap _ _ _ _ H1) in H2;
  rewrite ?(rank_not_zero _ Hsh).

Ltac shape_query rt k name v Hs Hk w H2 w3 H3 :=
  eapply runs_step;
    [exact H2
    | eapply (get_var_shape_runs rt k name v);
        [exact Hs | rewrite (after_lib _ _ _ _ H2); exact Hk]
    |];
  intros w3 H3; simpl in H3; rewrite (after_heap _ _ _ _ H2) in H3;
  eapply runs_pure;
    [unfold read_block, gets; simpl;
     rewrite (after_heap _ _ _ _ H3), (after_heap _ _ _ _ H2);
     rewrite lookup_app_r by lia; rewrite Nat.sub_diag; reflexivity|];
  simpl.

Section Values.

Variable rt : Runtime.
Variables (k : Kernel) (name : list Z) (v : KVar).
Hypothesis Hserves : serves k name v.


(** [set_value] with a contiguous source of the declared element type:
    the type query, then the native call. *)
Lemma set_value_after w X xs old :
  lib w = k -> flags_C X = true ->
  declared_dtype (kv_type v) = Some (nd_dtype X) ->
  heap w !! data X = Some xs -> heap w !! kv_addr v = Some old ->
  length xs = length old ->
  runs (set_value rt name X) w (Ok tt)
       (after w (<[kv_addr v := xs]> (heap w))
          [(ep_get_var_type, 0); (ep_set_value, 0)]).
Proof.
  intros Hk Hc Hdt Hx Hold Hlen.
  unfold set_value.
  eapply runs_pure; [rewrite Hc; reflexivity|].
  eapply runs_step; [apply after_refl| eapply get_var_type_runs; eauto |].
  intros w1 H1. simpl in H1.
  assert (Htail :
    runs (f <- lib_attr ep_set_value ;;
          _execute_function rt f [ABytes name; APtr (data X)] None ;;;
          ret tt) w1 (Ok tt)
         (after w (<[kv_addr v := xs]> (heap w))
            [(ep_get_var_type, 0); (ep_set_value, 0)])).
  { apply runs_bind_assoc. eapply runs_bind.
    - apply query_runs with (k := k) (h := <[kv_addr v := xs]> (heap w));
        [rewrite (after_lib _ _ _ _ H1); exact Hk | apply (sv_exports _ _ _ Hserves) |].
      unfold native. rewrite (sv_succeeds _ _ _ Hserves). simpl.
      unfold native_var. rewrite (sv_lookup _ _ _ Hserves). simpl.
      rewrite (after_heap _ _ _ _ H1), Hx, Hold.
      rewrite overwrite_same_length by exact Hlen. reflexivity.
    - intros w2 H2. apply runs_ret. exact (after_trans _ _ _ _ _ _ _ H1 H2). }
  unfold declared_dtype in Hdt.
  destruct (startswith (lower (kv_type v)) (lit "double")).
  - injection Hdt as Hd. rewrite <- Hd.
    eapply runs_pure; [reflexivity|]. exact Htail.
  - destruct (startswith (lower (kv_type v)) (lit "int")); [|discriminate Hdt].
    injection Hdt as Hd. rewrite <- Hd.
    eapply runs_pure; [reflexivity|]. exact Htail.
Qed.

(** A type string that [set_value] does not accept: the error follows
    the type query. *)
Lemma set_value_refused w values :
  lib w = k -> flags_C values = true ->
  startswith (lower (kv_type v)) (lit "double") = false ->
  startswith (lower (kv_type v)) (lit "int") = false ->
  runs (set_value rt name values) w
       (Raise (InputError (lit "Unsupported value type")))
       (after w (heap w) [(ep_get_var_type, 0)]).
Proof.
  intros Hk Hc Hd Hi.
  unfold set_value.
  eapply runs_pure; [rewrite Hc; reflexivity|].
  eapply runs_step; [apply after_refl| eapply get_var_type_runs; eauto |].
  intros w1 H1. simpl in H1.
  rewrite Hd, Hi. apply runs_raise. exact H1.
Qed.

(** An array whose type string starts with none of "double", "int" and
    "string" is refused by [get_value] after the shape query. *)
Lemma get_value_array_refused w dest :
  lib w = k -> kv_shape v <> [] ->
  (forall d, dest = Some d -> flags_C d = true) ->
  startswith (lower (kv_type v)) (lit "double") = false ->
  startswith (lower (kv_type v)) (lit "int") = false ->
  startswith (lower (kv_type v)) (lit "string") = false ->
  runs (get_value rt name dest) w
       (Raise (InputError (lit "Unsupported value type " ++ repr_str rt (kv_type v))))
       (after w (heap w ++ [kv_shape v])
          [(ep_get_var_rank, 0); (ep_get_var_type, 0); (ep_get_var_rank, 0);
           (ep_get_var_shape, 0)]).
Proof.
  intros Hk Hsh Hc Hd Hi Hs.
  unfold get_value.
  eapply runs_pure.
  { destruct dest as [d|]; [rewrite (Hc d eq_refl)|]; reflexivity. }
  opening rt k name v Hserves Hk Hsh w.
  shape_query rt k name v Hserves Hk w H2 w3 H3.
  rewrite Hd, Hi, Hs. apply runs_raise. exact H3.
Qed.

(** A type string that has no aliased view. *)
Lemma get_value_ptr_refused w :
  lib w = k ->
  startswith (lower (kv_type v)) (lit "double") = false ->
  startswith (lower (kv_type v)) (lit "float") = false ->
  startswith (lower (kv_type v)) (lit "int") = false ->
  runs (get_value_ptr rt name) w
       (Raise (InputError (lit "Unsupported value type " ++ repr_str rt (kv_type v))))
       (fun w' => exists h t, after w h t w' /\ no_transfer t).
Proof.
  intros Hk Hd Hf Hi.
  unfold get_value_ptr.
  eapply runs_step; [apply after_refl| eapply get_var_rank_runs; eauto |].
  intros w1 H1. simpl in H1.
  destruct (Z.of_nat (length (kv_shape v)) =? 0) eqn:Er.
  - unfold get_value_ptr_scalar.
    eapply runs_step; [exact H1 | eapply get_var_type_runs; eauto |].
    { rewrite (after_lib _ _ _ _ H1). exact Hk. }
    intros w2 H2. simpl in H2. rewrite Hd, Hf, Hi.
    apply runs_bind_raise. apply runs_raise.
    eexists _, _. split; [exact H2|]. repeat constructor.
  - eapply runs_step; [exact H1 | eapply get_var_type_runs; eauto |].
    { rewrite (after_lib _ _ _ _ H1). exact Hk. }
    intros w2 H2. simpl in H2.
    eapply runs_step; [exact H2 | eapply get_var_shape_runs; eauto |].
    { rewrite (after_lib _ _ _ _ H2). exact Hk. }
    intros w3 H3. simpl in H3.
    eapply runs_pure; [reflexivity|].
    rewrite Hd, Hf, Hi. apply runs_bind_raise. apply runs_raise.
    eexists _, _. split; [exact H3|]. repeat constructor.
Qed.

(** An array of strings whose first dimension is zero, read without a
    destination. *)
Lemma get_value_no_strings_runs w rest :
  lib w = k -> kv_shape v = 0 :: rest ->
  startswith (lower (kv_type v)) (lit "string") = true ->
  runs (get_value rt name None) w
       (Ok {| data := S (length (heap w)); nd_dtype := str_ 1; shape := [0];
              flags_C := true |})
       (after w (heap w ++ [kv_shape v; []])
          [(ep_get_var_rank, 0); (ep_get_var_type, 0); (ep_get_var_rank, 0);
           (ep_get_var_shape, 0)]).
Proof.
  intros Hk Hsh Hs.
  assert (Hne : kv_shape v <> []) by (rewrite Hsh; discriminate).
  destruct (prefix_string _ Hs) as (Hd & _ & Hi).
  unfold get_value.
  eapply runs_pure; [reflexivity|].
  opening rt k name v Hserves Hk Hne w.
  shape_query rt k name v Hserves Hk w H2 w3 H3.
  rewrite Hd, Hi, Hs, Hsh. simpl.
  unfold np_empty. simpl.
  unfold runs, bind, allocate, ret. cbn beta iota.
  rewrite (after_heap _ _ _ _ H3). eexists. split.
  - rewrite length_app. simpl. rewrite Nat.add_1_r. reflexivity.
  - destruct H3 as (? & ? & ? & ? & ? & ? & ? & ? & ? & ?).
    unfold after. simpl. rewrite <- app_assoc, <- Hsh. simpl. tauto.
Qed.

End Values.

Lemma serves_numeric_float (var_type : list Z) :
  startswith (lower var_type) (lit "float") = true ->
  numeric_dtype var_type = Some float32.
Proof.
  intros Hf. destruct (prefix_float _ Hf) as (Hd & _).
  unfold numeric_dtype. rewrite Hd, Hf. reflexivity.
Qed.



(** X14.  What [set_value] changes.  On a kernel that follows the
    convention, [set_value] with an accepted source makes two native
    calls, the type query and the write; afterwards the storage of the
    variable holds the cells of the source, every other block of memory is
    as it was, nothing has been allocated, and writing the same source
    again changes nothing. *)
Theorem set_value_writes_only_the_variable (rt : Runtime) (k : Kernel)
    (name : list Z) (v : KVar) (w : World) (X : ndarray) (xs old : list Z) :
  serves k name v -> lib w = k -> flags_C X = true ->
  declared_dtype (kv_type v) = Some (nd_dtype X) ->
  heap w !! data X = Some xs -> heap w !! kv_addr v = Some old ->
  length xs = length old ->
  exists w',
    set_value rt name X w = (Ok tt, w') /\
    heap w' !! kv_addr v = Some xs /\
    (forall a, a <> kv_addr v -> heap w' !! a = heap w !! a) /\
    length (heap w') = length (heap w) /\
    trace w' = trace w ++ [(ep_get_var_type, 0); (ep_set_value, 0)] /\
    exists w'', set_value rt name X w' = (Ok tt, w'') /\ heap w'' = heap w'.
Proof.
  intros Hs Hk Hc Hdt Hx Hold Hlen.
  destruct (set_value_after rt k name v Hs w X xs old Hk Hc Hdt Hx Hold Hlen)
    as (w' & E & Ha).
  pose proof (after_heap _ _ _ _ Ha) as Hh.
  pose proof (lookup_lt_Some _ _ _ Hold) as Hlt.
  assert (Hv' : heap w' !! kv_addr v = Some xs)
    by (rewrite Hh; apply list_lookup_insert_eq; exact Hlt).
  assert (Hx' : heap w' !! data X = Some xs).
  { destruct (Nat.eq_dec (data X) (kv_addr v)) as [Heq|Hne].
    - rewrite Heq. exact Hv'.
    - rewrite Hh, list_lookup_insert_ne by congruence. exact Hx. }
  exists w'. split; [exact E|]. split; [exact Hv'|].
  split; [intros a Hne; rewrite Hh; apply list_lookup_insert_ne; congruence|].
  split; [rewrite Hh; apply length_insert|].
  split; [exact (after_trace _ _ _ _ Ha)|].
  destruct (set_value_after rt k name v Hs w' X xs xs) as (w'' & E' & Ha'); auto.
  { rewrite (after_lib _ _ _ _ Ha). exact Hk. }
  exists w''. split; [exact E'|].
  rewrite (after_heap _ _ _ _ Ha'). apply list_insert_id. exact Hv'.
Qed.

Lemma set_value_writes_only_the_variable_witness :
  exists w',
    set_value Demo.runtime (lit "HEAD") Demo.doubles Demo.world = (Ok tt, w') /\
    heap w' !! 0%nat = Some [31; 32; 33; 41; 42; 43] /\
    (forall a, a <> 0%nat -> heap w' !! a = heap Demo.world !! a) /\
    length (heap w') = length (heap Demo.world) /\
    trace w' = trace Demo.world ++ [(ep_get_var_type, 0); (ep_set_value, 0)] /\
    exists w'', set_value Demo.runtime (lit "HEAD") Demo.doubles w' = (Ok tt, w'') /\
                heap w'' = heap w'.
Proof.
  refine (set_value_writes_only_the_variable Demo.runtime Demo.kernel (lit "HEAD")
            {| kv_type := lit "DOUBLE (3,2)"; kv_shape := [2; 3]; kv_nbytes := 48;
               kv_addr := 0 |} Demo.world Demo.doubles
            [31; 32; 33; 41; 42; 43] [11; 12; 13; 21; 22; 23]
            _ _ _ _ _ _ _); try reflexivity.
  split; try reflexivity.
  exists 51. split; [reflexivity | vm_compute; discriminate].
Defined.

(** X15.  Single-precision arrays can be aliased but neither copied
    nor written.  On a kernel that follows the convention, for a variable
    of rank at least 1 whose type string starts with "float",
    [get_value] raises the unsupported-type error after the shape query
    and [set_value] raises it after the type query, while
    [get_value_ptr] returns a float32 view over the storage. *)
Theorem single_precision_arrays_are_alias_only (rt : Runtime) (k : Kernel)
    (name : list Z) (v : KVar) (w : World) :
  serves k name v -> lib w = k -> kv_shape v <> [] ->
  startswith (lower (kv_type v)) (lit "float") = true ->
  (forall dest, (forall d, dest = Some d -> flags_C d = true) ->
     exists w',
       get_value rt name dest w =
         (Raise (InputError (lit "Unsupported value type " ++ repr_str rt (kv_type v))),
          w') /\
       trace w' = trace w ++ [(ep_get_var_rank, 0); (ep_get_var_type, 0);
                              (ep_get_var_rank, 0); (ep_get_var_shape, 0)]) /\
  (forall values, flags_C values = true ->
     exists w',
       set_value rt name values w =
         (Raise (InputError (lit "Unsupported value type")), w') /\
       trace w' = trace w ++ [(ep_get_var_type, 0)]) /\
  (Forall (fun d => 0 < d) (trim_zeros (kv_shape v)) ->
     exists view w',
       get_value_ptr rt name w = (Ok view, w') /\
       nd_dtype view = float32 /\ data view = kv_addr v).
Proof.
  intros Hs Hk Hsh Hf. destruct (prefix_float _ Hf) as (Hd & Hi & Hstr).
  split; [|split].
  - intros dest Hc.
    destruct (get_value_array_refused rt k name v Hs w dest Hk Hsh Hc Hd Hi Hstr)
      as (w' & E & Ha).
    exists w'. split; [exact E | exact (after_trace _ _ _ _ Ha)].
  - intros values Hc.
    destruct (set_value_refused rt k name v Hs w values Hk Hc Hd Hi) as (w' & E & Ha).
    exists w'. split; [exact E | exact (after_trace _ _ _ _ Ha)].
  - intros Hpos.
    destruct (get_value_ptr_array_runs rt k name v float32 w Hs Hk Hsh
                (serves_numeric_float _ Hf) Hpos) as (w' & E & _).
    eexists _, w'. split; [exact E|]. split; reflexivity.
Qed.

Lemma single_precision_arrays_are_alias_only_witness :
  (exists w',
     get_value Demo.runtime (lit "RATE") None Cases.world =
       (Raise (InputError (lit "Unsupported value type 'FLOAT (3)'")), w') /\
     trace w' = [(ep_get_var_rank, 0); (ep_get_var_type, 0);
                 (ep_get_var_rank, 0); (ep_get_var_shape, 0)]) /\
  (exists view w',
     get_value_ptr Demo.runtime (lit "RATE") Cases.world = (Ok view, w') /\
     nd_dtype view = float32 /\ data view = 8%nat).
Proof.
  destruct (single_precision_arrays_are_alias_only Demo.runtime Cases.kernel (lit "RATE")
              {| kv_type := lit "FLOAT (3)"; kv_shape := [3]; kv_nbytes := 12;
                 kv_addr := 8 |} Cases.world) as (H1 & _ & H3);
    try reflexivity; try discriminate.
  { split; try reflexivity.
    exists 51. split; [reflexivity | vm_compute; discriminate]. }
  split.
  - apply (H1 None). discriminate.
  - apply H3. repeat constructor.
Defined.

(** X16.  Strings can be read but neither aliased nor written.  On a
    kernel that follows the convention, for a variable whose type string
    starts with "string", of any rank, [get_value_ptr] and [set_value]
    raise the unsupported-type error, and the only native calls made are
    catalog queries. *)
Theorem strings_have_no_alias_and_no_setter (rt : Runtime) (k : Kernel)
    (name : list Z) (v : KVar) (w : World) :
  serves k name v -> lib w = k ->
  startswith (lower (kv_type v)) (lit "string") = true ->
  (exists w' h t,
     get_value_ptr rt name w =
       (Raise (InputError (lit "Unsupported value type " ++ repr_str rt (kv_type v))),
        w') /\ after w h t w' /\ no_transfer t) /\
  (forall values, flags_C values = true ->
     exists w',
       set_value rt name values w =
         (Raise (InputError (lit "Unsupported value type")), w') /\
       trace w' = trace w ++ [(ep_get_var_type, 0)]).
Proof.
  intros Hs Hk Hstr. destruct (prefix_string _ Hstr) as (Hd & Hf & Hi).
  split.
  - destruct (get_value_ptr_refused rt k name v Hs w Hk Hd Hf Hi)
      as (w' & E & h & t & Ha & Hn).
    exists w', h, t. auto.
  - intros values Hc.
    destruct (set_value_refused rt k name v Hs w values Hk Hc Hd Hi) as (w' & E & Ha).
    exists w'. split; [exact E | exact (after_trace _ _ _ _ Ha)].
Qed.

Lemma strings_have_no_alias_and_no_setter_witness :
  exists w' h t,
    get_value_ptr Demo.runtime (lit "TITLE") Demo.world =
      (Raise (InputError (lit "Unsupported value type 'STRING LEN=4'")), w') /\
    after Demo.world h t w' /\ no_transfer t.
Proof.
  destruct (strings_have_no_alias_and_no_setter Demo.runtime Demo.kernel (lit "TITLE")
              {| kv_type := lit "STRING LEN=4"; kv_shape := []; kv_nbytes := 4;
                 kv_addr := 2 |} Demo.world) as (H1 & _);
    try reflexivity.
  { split; try reflexivity.
    exists 51. split; [reflexivity | vm_compute; discriminate]. }
  exact H1.
Defined.

(** X17.  An empty array of strings.  On a kernel that follows the
    convention, [get_value] without destination on a string variable of
    rank at least 1 whose first dimension is 0 returns a new, empty array
    of one-character strings of shape (0,) right after the shape query:
    neither the size in bytes nor the values are asked for, so that the
    length of an element is never computed by a division by zero. *)
Theorem empty_string_array_is_not_fetched (rt : Runtime) (k : Kernel)
    (name : list Z) (v : KVar) (rest : list Z) (w : World) :
  serves k name v -> lib w = k -> kv_shape v = 0 :: rest ->
  startswith (lower (kv_type v)) (lit "string") = true ->
  exists w',
    get_value rt name None w =
      (Ok {| data := S (length (heap w)); nd_dtype := str_ 1; shape := [0];
             flags_C := true |}, w') /\
    heap w' !! S (length (heap w)) = Some [] /\
    trace w' = trace w ++ [(ep_get_var_rank, 0); (ep_get_var_type, 0);
                           (ep_get_var_rank, 0); (ep_get_var_shape, 0)].
Proof.
  intros Hs Hk Hsh Hstr.
  destruct (get_value_no_strings_runs rt k name v Hs w rest Hk Hsh Hstr)
    as (w' & E & Ha).
  exists w'. split; [exact E|].
  rewrite (after_heap _ _ _ _ Ha), (after_trace _ _ _ _ Ha).
  split; [|reflexivity].
  rewrite lookup_app_r by lia.
  replace (S (length (heap w)) - length (heap w))%nat with 1%nat by lia. reflexivity.
Qed.

Lemma empty_string_array_is_not_fetched_witness :
  exists w',
    get_value Demo.runtime (lit "WELLS") None Cases.world =
      (Ok {| data := 11; nd_dtype := str_ 1; shape := [0]; flags_C := true |}, w') /\
    heap w' !! 11%nat = Some [] /\
    trace w' = [(ep_get_var_rank, 0); (ep_get_var_type, 0);
                (ep_get_var_rank, 0); (ep_get_var_shape, 0)].
Proof.
  refine (empty_string_array_is_not_fetched Demo.runtime Cases.kernel (lit "WELLS")
            {| kv_type := lit "STRING LEN=16 (0)"; kv_shape := [0]; kv_nbytes := 0;
               kv_addr := 9 |} [] Cases.world _ _ _ _); try reflexivity.
  split; try reflexivity.
  exists 51. split; [reflexivity | vm_compute; discriminate].
Defined.

(** ** A query that fails *)

Section FailedQuery.

Variable rt : Runtime.

Lemma rank_query_keeps_memory k n args h st outs h' :
  native k n ep_get_var_rank args h = (st, outs, h') -> h' = h.
Proof.
  unfold native, native_body, native_var. intros H.
  repeat case_match; simplify_eq; reflexivity.
Qed.

Lemma get_var_rank_fails name w st :
  answers w ep_get_var_rank [ABytes name; AInt 0] st -> st <> 0 ->
  exists e w',
    get_var_rank rt name w = (Raise e, w') /\ heap w' = heap w /\ only_queries w w'.
Proof.
  intros [Hx Hn] Hst.
  destruct (native (lib w) (length (trace w)) ep_get_var_rank [ABytes name; AInt 0]
              (heap w)) as [[st' outs] h] eqn:En.
  simpl in Hn. subst st'.
  pose proof (rank_query_keeps_memory _ _ _ _ _ _ _ En) as ->.
  destruct (_execute_function rt ep_get_var_rank [ABytes name; AInt 0] None w)
    as [r w'] eqn:E.
  destruct (execute_function_world rt _ _ _ _ _ _ _ _ _ En E)
    as (t & rest & -> & Hnt & _ & _ & Hne).
  destruct (Hne Hst) as [e ->].
  eexists e, _. split; [|split].
  - unfold get_var_rank, bind, lib_attr. rewrite Hx, E. reflexivity.
  - reflexivity.
  - eexists. split; [reflexivity|]. constructor; [reflexivity | exact Hnt].
Qed.

End FailedQuery.

(** X18.  A failing first query stops the transfer.  When the native
    [get_var_rank] returns a nonzero status for a name, as it does for a
    name the kernel does not know, [get_value], [get_value_ptr] and
    [get_var_shape] raise; the memory is exactly as before, so that no
    buffer was allocated, and the trace has grown by queries only: no
    transfer of values was attempted. *)
Theorem failed_rank_query_aborts (rt : Runtime) (name : list Z) (w : World) (st : Z) :
  answers w ep_get_var_rank [ABytes name; AInt 0] st -> st <> 0 ->
  (forall dest, (forall d, dest = Some d -> flags_C d = true) ->
     exists e w', get_value rt name dest w = (Raise e, w') /\
                  heap w' = heap w /\ only_queries w w') /\
  (exists e w', get_value_ptr rt name w = (Raise e, w') /\
                heap w' = heap w /\ only_queries w w') /\
  (exists e w', get_var_shape rt name w = (Raise e, w') /\
                heap w' = heap w /\ only_queries w w').
Proof.
  intros Ha Hst.
  destruct (get_var_rank_fails rt name w st Ha Hst) as (e & w' & E & Hh & Hq).
  split; [|split].
  - intros dest Hc. exists e, w'. split; [|auto].
    unfold get_value.
    eapply bind_eq; [|unfold bind; rewrite E; reflexivity].
    destruct dest as [d|]; [rewrite (Hc d eq_refl)|]; reflexivity.
  - exists e, w'. split; [|auto]. unfold get_value_ptr, bind. rewrite E. reflexivity.
  - exists e, w'. split; [|auto]. unfold get_var_shape, bind. rewrite E. reflexivity.
Qed.

Lemma failed_rank_query_aborts_witness :
  exists e w',
    get_value Demo.runtime (lit "NOPE") None Demo.world = (Raise e, w') /\
    heap w' = heap Demo.world /\ only_queries Demo.world w'.
Proof.
  destruct (failed_rank_query_aborts Demo.runtime (lit "NOPE") Demo.world 1) as (H1 & _).
  - split; reflexivity.
  - discriminate.
  - apply (H1 None). discriminate.
Defined.

(** ** Further compositions *)

(** X19.  What the invoker never touches.  Whatever the outcome of a
    call, the invoker leaves the lifecycle state, the current directory,
    the error stream, the library and the configuration of the wrapper
    (timing, debug logging, working directory) as they were, and it
    neither allocates nor frees memory: only the kernel writes, into the
    blocks that exist. *)
Theorem invoker_touches_only_its_records (rt : Runtime) (ep : EntryPoint)
    (args : list CArg) (detail : option (list Z)) (w : World) :
  _state (snd (_execute_function rt ep args detail w)) = _state w /\
  cwd (snd (_execute_function rt ep args detail w)) = cwd w /\
  stderr (snd (_execute_function rt ep args detail w)) = stderr w /\
  lib (snd (_execute_function rt ep args detail w)) = lib w /\
  timing (snd (_execute_function rt ep args detail w)) = timing w /\
  debug (snd (_execute_function rt ep args detail w)) = debug w /\
  working_directory (snd (_execute_function rt ep args detail w)) = working_directory w /\
  length (heap (snd (_execute_function rt ep args detail w))) = length (heap w).
Proof.
  destruct (native (lib w) (length (trace w)) ep args (heap w)) as [[st outs] h] eqn:Hn.
  destruct (_execute_function rt ep args detail w) as [r w'] eqn:E.
  destruct (execute_function_world rt _ _ _ _ _ _ _ _ _ Hn E) as (t & rest & -> & _).
  cbn. repeat split. eapply native_length. exact Hn.
Qed.

(** X20.  The teardown after an explicit [finalize].  When [finalize]
    succeeds, the teardown of the wrapper in the state before it would
    have done exactly the same, and the teardown of the wrapper in the
    state after it does nothing: [__del__] returns without a native call
    and the world is unchanged, so that the kernel is finalised once. *)
Theorem teardown_after_finalize_is_silent (rt : Runtime) (w w1 : World) :
  finalize rt w = (Ok tt, w1) ->
  teardown rt w = (Ok tt, w1) /\
  __del__ rt w1 = (Ok tt, w1) /\
  teardown rt w1 = (Ok tt, w1).
Proof.
  intros E.
  apply finalize_inv in E as Hi.
  destruct Hi as [(_ & _ & Hr)|(Hs & [(_ & Hs1 & _)|(e & Hr & _)])]; try discriminate.
  assert (Hd : __del__ rt w1 = (Ok tt, w1))
    by (unfold __del__, bind, gets; rewrite Hs1; reflexivity).
  split; [|split; [exact Hd|]].
  - unfold teardown, __del__, bind, gets. rewrite Hs, E. reflexivity.
  - unfold teardown. rewrite Hd. reflexivity.
Qed.

Lemma teardown_after_finalize_is_silent_witness :
  teardown Demo.runtime Demo.started =
    (Ok tt, snd (finalize Demo.runtime Demo.started)) /\
  teardown Demo.runtime (snd (finalize Demo.runtime Demo.started)) =
    (Ok tt, snd (finalize Demo.runtime Demo.started)).
Proof.
  destruct (teardown_after_finalize_is_silent Demo.runtime Demo.started
              (snd (finalize Demo.runtime Demo.started))) as (H1 & _ & H3).
  - vm_compute. reflexivity.
  - split; [exact H1 | exact H3].
Defined.

Section ScalarDestination.

Variable rt : Runtime.
Variables (k : Kernel) (name : list Z) (v : KVar).
Hypothesis Hserves : serves k name v.

Lemma dtype_eqb_refl dt : dtype_eqb dt dt = true.
Proof. destruct dt; simpl; try reflexivity; apply Nat.eqb_refl. Qed.

(** A numeric variable of rank 0, read into a one-dimensional
    destination of its element type. *)
Lemma get_value_scalar_into_runs w dest dt c cells o olds n :
  lib w = k -> kv_shape v = [] -> numeric_dtype (kv_type v) = Some dt ->
  flags_C dest = true -> nd_dtype dest = dt -> shape dest = [n] -> 0 < n ->
  heap w !! kv_addr v = Some (c :: cells) -> heap w !! data dest = Some (o :: olds) ->
  runs (get_value rt name (Some dest)) w (Ok dest)
       (after w (<[data dest := c :: olds]> (heap w))
          [(ep_get_var_rank, 0); (ep_get_var_type, 0); (ep_get_var_type, 0);
           (ep_get_value_ptr, 0)]).
Proof.
  intros Hk Hsh Hnum Hc Hdt Hshape Hn Hsrc Hold.
  pose proof (numeric_not_string _ _ Hnum) as Hstr.
  unfold get_value.
  eapply runs_pure; [rewrite Hc; reflexivity|].
  eapply runs_step; [apply after_refl| eapply get_var_rank_runs; eauto |].
  intros w1 H1. simpl in H1.
  eapply runs_step; [exact H1| eapply get_var_type_runs; eauto |].
  { rewrite (after_lib _ _ _ _ H1). exact Hk. }
  intros w2 H2. simpl in H2. rewrite (after_heap _ _ _ _ H1) in H2.
  rewrite Hsh. simpl. rewrite Hstr.
  eapply runs_bind; [eapply get_value_ptr_scalar_runs; eauto|].
  intros w3 H3. simpl in H3.
  unfold getitem0. simpl.
  eapply runs_pure.
  { unfold bind, read_block, gets, ret. rewrite (after_heap _ _ _ _ H3), Hsrc. reflexivity. }
  simpl. unfold setitem0. rewrite Hshape.
  destruct (Z.leb_spec n 0) as [|_]; [lia|].
  rewrite Hdt, dtype_eqb_refl.
  unfold runs, bind, read_block, gets, write_block, modify, ret. cbn beta iota.
  eexists. split; [reflexivity|].
  destruct H3 as (? & Hh3 & ? & ? & ? & ? & ? & ? & ? & ?).
  unfold after. cbn. rewrite Hh3, Hold. change (size []) with 1%nat. cbn. rewrite firstn_nil. cbn. tauto.
Qed.

End ScalarDestination.

(** X21.  A numeric scalar read into a destination.  On a kernel that
    follows the convention, for a variable of rank 0 whose type string
    starts with "double", "float" or "int", [get_value] with a
    one-dimensional C-contiguous destination of the matching element type
    returns that very array with its first element set to the scalar; the
    other elements, the storage and the size of the memory are unchanged.
    The value comes through the aliased view: the native calls are the
    rank query, two type queries and [get_value_ptr], and the native
    [get_value] is not called. *)
Theorem scalar_is_read_through_the_alias (rt : Runtime) (k : Kernel) (name : list Z)
    (v : KVar) (dt : dtype) (w : World) (dest : ndarray) (c o n : Z)
    (cells olds : list Z) :
  serves k name v -> lib w = k -> kv_shape v = [] ->
  numeric_dtype (kv_type v) = Some dt ->
  flags_C dest = true -> nd_dtype dest = dt -> shape dest = [n] -> 0 < n ->
  heap w !! kv_addr v = Some (c :: cells) ->
  heap w !! data dest = Some (o :: olds) ->
  data dest <> kv_addr v ->
  exists w',
    get_value rt name (Some dest) w = (Ok dest, w') /\
    heap w' !! data dest = Some (c :: olds) /\
    heap w' !! kv_addr v = Some (c :: cells) /\
    length (heap w') = length (heap w) /\
    trace w' = trace w ++ [(ep_get_var_rank, 0); (ep_get_var_type, 0);
                           (ep_get_var_type, 0); (ep_get_value_ptr, 0)].
Proof.
  intros Hs Hk Hsh Hnum Hc Hdt Hshape Hn Hsrc Hold Hne.
  destruct (get_value_scalar_into_runs rt k name v Hs w dest dt c cells o olds n
              Hk Hsh Hnum Hc Hdt Hshape Hn Hsrc Hold) as (w' & E & Ha).
  exists w'. split; [exact E|].
  rewrite (after_heap _ _ _ _ Ha), (after_trace _ _ _ _ Ha).
  split; [apply list_lookup_insert_eq; eapply lookup_lt_Some; exact Hold|].
  split; [rewrite list_lookup_insert_ne by exact Hne; exact Hsrc|].
  split; [apply length_insert | reflexivity].
Qed.

Lemma scalar_is_read_through_the_alias_witness :
  exists w',
    get_value Demo.runtime (lit "MXITER") (Some Demo.ints) Demo.world =
      (Ok Demo.ints, w') /\
    heap w' !! 7%nat = Some [25; 32; 33; 41; 42; 43] /\
    heap w' !! 1%nat = Some [25] /\
    length (heap w') = length (heap Demo.world) /\
    trace w' = trace Demo.world ++ [(ep_get_var_rank, 0); (ep_get_var_type, 0);
                                    (ep_get_var_type, 0); (ep_get_value_ptr, 0)].
Proof.
  refine (scalar_is_read_through_the_alias Demo.runtime Demo.kernel (lit "MXITER")
            {| kv_type := lit "INTEGER"; kv_shape := []; kv_nbytes := 4; kv_addr := 1 |}
            int32 Demo.world Demo.ints 25 31 6 [] [32; 33; 41; 42; 43]
            _ _ _ _ _ _ _ _ _ _ _); try reflexivity.
  - split; try reflexivity.
    exists 51. split; [reflexivity | vm_compute; discriminate].
  - discriminate.
Defined.
